(** * Barrel-Volume-Analyst: the row reconciler, the volume calculator and
    the editable table

    A shallow embedding of [mergeBarrelData] (src/utils/dataUtils.ts), of
    the logic of [VolumeCalculator] (src/components/VolumeCalculator.tsx:
    the [useMemo] block that builds [heightKey], [volumeKeys] and [dataMap],
    the [useEffect] block that keeps the selection, [handleCalculate] and
    the result panel), of [handleSave] and [handleCellSave] of the editable
    table (src/components/EditableTable.tsx) and of the clean-up of the
    reply of the AI service, together with the part of the ECMAScript
    runtime these functions call: IEEE-754 binary64 numbers, [Number],
    [parseFloat], [String], [Math.floor], [Math.ceil],
    [Number.prototype.toFixed], strict equality, insertion ordered [Map]s,
    [Array.prototype.sort] and [Array.prototype.map]. *)

From Stdlib Require Import ZArith List String Ascii Bool Lia.
From Stdlib Require Import Permutation Sorted.
From Stdlib Require Import Floats.SpecFloat.
Import ListNotations.

Local Open Scope string_scope.
Local Open Scope Z_scope.

(** ** ECMAScript numbers

    A JavaScript Number is an IEEE-754 binary64 value.  It is modelled by
    the kernel's executable specification of binary floating point,
    [spec_float], at precision 53 and maximal exponent 1024; every operation
    below rounds to nearest, ties to even, as ECMAScript requires. *)

Module JS.

Definition number := spec_float.

Definition prec : Z := 53.
Definition emax : Z := 1024.

Definition NaN : number := S754_nan.
Definition Infinity : number := S754_infinity false.
Definition pzero : number := S754_zero false.

(** The Number nearest to the integer [z]. *)
Definition of_Z (z : Z) : number := binary_normalize prec emax z 0 false.

Definition add (x y : number) : number := SFadd prec emax x y.
Definition sub (x y : number) : number := SFsub prec emax x y.
Definition mul (x y : number) : number := SFmul prec emax x y.
Definition abs (x : number) : number := SFabs x.

(** [x < y] of ECMAScript: false as soon as one side is NaN. *)
Definition ltb (x y : number) : bool := SFltb x y.

Definition isNaN (x : number) : bool :=
  match x with S754_nan => true | _ => false end.

(** SameValueZero on Numbers, the key equality of [Map]: NaN equals NaN
    and the two zeros are equal. *)
Definition num_sameValueZero (x y : number) : bool :=
  match x, y with
  | S754_nan, S754_nan => true
  | S754_zero _, S754_zero _ => true
  | S754_infinity s1, S754_infinity s2 => Bool.eqb s1 s2
  | S754_finite s1 m1 e1, S754_finite s2 m2 e2 =>
      Bool.eqb s1 s2 && Pos.eqb m1 m2 && Z.eqb e1 e2
  | _, _ => false
  end.

(** [Math.floor] and [Math.ceil].  A finite value is [m * 2^e]; when [e] is
    negative the integer part is the quotient of [m] by [2^(-e)].  The sign
    of a zero result follows ECMAScript: [Math.ceil(-0.5)] is [-0]. *)
Definition floor (x : number) : number :=
  match x with
  | S754_finite s m e =>
      if 0 <=? e then x
      else
        let d := 2 ^ (- e) in
        let q := Z.pos m / d in
        let r := Z.pos m mod d in
        if s then of_Z (- (if r =? 0 then q else q + 1))
        else if q =? 0 then S754_zero false else of_Z q
  | _ => x
  end.

Definition ceil (x : number) : number :=
  match x with
  | S754_finite s m e =>
      if 0 <=? e then x
      else
        let d := 2 ^ (- e) in
        let q := Z.pos m / d in
        let r := Z.pos m mod d in
        if s then (if q =? 0 then S754_zero true else of_Z (- q))
        else of_Z (if r =? 0 then q else q + 1)
  | _ => x
  end.

(** *** Decimal literals

    The mathematical value [m * 10^e] of a decimal literal, rounded once to
    binary64: an integer is rounded directly, a proper fraction is the
    correctly rounded quotient of two integers. *)
Definition of_decimal (neg : bool) (m e : Z) : number :=
  match m with
  | Zpos p =>
      if 0 <=? e then binary_round prec emax neg (Z.to_pos (Z.pos p * 10 ^ e)) 0
      else SFdiv prec emax (S754_finite neg p 0)
                           (S754_finite false (Z.to_pos (10 ^ (- e))) 0)
  | _ => S754_zero neg
  end.

(** Strings are sequences of UTF-8 bytes.  The white space of
    [StrWhiteSpaceChar]: TAB, LF, VT, FF, CR, SP, and the UTF-8 encodings of
    U+00A0, U+1680, U+2000..U+200A, U+2028, U+2029, U+202F, U+205F, U+3000
    and U+FEFF. *)
Definition byte (c : ascii) : Z := Z.of_nat (nat_of_ascii c).

Definition ws_len (s : string) : nat :=
  match s with
  | String a r1 =>
      let a := byte a in
      if (a =? 9) || (a =? 10) || (a =? 11) || (a =? 12) || (a =? 13) || (a =? 32)
      then 1%nat
      else
        match r1 with
        | String b r2 =>
            let b := byte b in
            if (a =? 194) && (b =? 160) then 2%nat
            else
              match r2 with
              | String c _ =>
                  let c := byte c in
                  if (a =? 225) && (b =? 154) && (c =? 128) then 3%nat
                  else if (a =? 226) && (b =? 128)
                          && (((128 <=? c) && (c <=? 138)) || (c =? 168)
                              || (c =? 169) || (c =? 175)) then 3%nat
                  else if (a =? 226) && (b =? 129) && (c =? 159) then 3%nat
                  else if (a =? 227) && (b =? 128) && (c =? 128) then 3%nat
                  else if (a =? 239) && (b =? 187) && (c =? 191) then 3%nat
                  else 0%nat
              | EmptyString => 0%nat
              end
        | EmptyString => 0%nat
        end
  | EmptyString => 0%nat
  end.

Fixpoint drop (n : nat) (s : string) : string :=
  match n, s with
  | S k, String _ r => drop k r
  | _, _ => s
  end.

(** Removes leading white space; [fuel] bounds the number of characters
    looked at and is the length of the string at every call site. *)
Fixpoint trim_start_fuel (fuel : nat) (s : string) : string :=
  match fuel with
  | O => s
  | S k =>
      match ws_len s with
      | O => s
      | n => trim_start_fuel k (drop n s)
      end
  end.

Definition trimStart (s : string) : string := trim_start_fuel (String.length s) s.

Definition is_blank (s : string) : bool :=
  match trimStart s with EmptyString => true | _ => false end.

Definition is_digit (c : ascii) : bool := (48 <=? byte c) && (byte c <=? 57).

(** Reads a maximal run of decimal digits, continuing the value [acc];
    returns the value, the number of digits read and the rest. *)
Fixpoint scan_digits (s : string) (acc : Z) (cnt : Z) : Z * Z * string :=
  match s with
  | String c r =>
      if is_digit c then scan_digits r (10 * acc + (byte c - 48)) (cnt + 1)
      else (acc, cnt, s)
  | EmptyString => (acc, cnt, s)
  end.

Fixpoint strip_prefix (p s : string) : option string :=
  match p, s with
  | EmptyString, _ => Some s
  | String a p', String b s' => if Ascii.eqb a b then strip_prefix p' s' else None
  | String _ _, EmptyString => None
  end.

(** An optional sign: [(negative, rest)]. *)
Definition scan_sign (s : string) : bool * string :=
  match s with
  | String c r =>
      if byte c =? 45 then (true, r)
      else if byte c =? 43 then (false, r)
      else (false, s)
  | EmptyString => (false, s)
  end.

(** [ExponentPart], taken only when it is complete ([1e] reads as [1]). *)
Definition scan_exponent (s : string) : Z * string :=
  match s with
  | String c r =>
      if (byte c =? 101) || (byte c =? 69) then
        let '(neg, r1) := scan_sign r in
        let '(v, n, rest) := scan_digits r1 0 0 in
        if n =? 0 then (0, s) else ((if neg then - v else v), rest)
      else (0, s)
  | EmptyString => (0, s)
  end.

(** The mathematical value of the longest prefix that is a
    [StrUnsignedDecimalLiteral]. *)
Inductive literal : Type :=
  | LitInfinity
  | LitDecimal (m : Z) (e : Z).

Definition scan_unsigned_decimal (s : string) : option (literal * string) :=
  match strip_prefix "Infinity" s with
  | Some r => Some (LitInfinity, r)
  | None =>
      let '(ip, ni, r1) := scan_digits s 0 0 in
      match r1 with
      | String c r2 =>
          if byte c =? 46 then
            let '(fp, nf, r3) := scan_digits r2 ip 0 in
            if (ni =? 0) && (nf =? 0) then None
            else let '(ex, r4) := scan_exponent r3 in
                 Some (LitDecimal fp (ex - nf), r4)
          else if ni =? 0 then None
          else let '(ex, r4) := scan_exponent r1 in Some (LitDecimal ip ex, r4)
      | EmptyString => if ni =? 0 then None else Some (LitDecimal ip 0, r1)
      end
  end.

Definition literal_value (neg : bool) (l : literal) : number :=
  match l with
  | LitInfinity => S754_infinity neg
  | LitDecimal m e => of_decimal neg m e
  end.

(** The longest prefix that is a [StrDecimalLiteral], with its value. *)
Definition scan_decimal (s : string) : option (number * string) :=
  let '(neg, r) := scan_sign s in
  match scan_unsigned_decimal r with
  | Some (l, rest) => Some (literal_value neg l, rest)
  | None => None
  end.

(** [parseFloat(s)]: leading white space is skipped, the longest prefix
    that is a decimal literal is read, whatever follows is ignored. *)
Definition parseFloat (s : string) : number :=
  match scan_decimal (trimStart s) with
  | Some (x, _) => x
  | None => NaN
  end.

(** Digits of [0x], [0o] and [0b] literals. *)
Definition radix_digit (radix : Z) (c : ascii) : option Z :=
  let b := byte c in
  let v := if (48 <=? b) && (b <=? 57) then b - 48
           else if (97 <=? b) && (b <=? 102) then b - 87
           else if (65 <=? b) && (b <=? 70) then b - 55
           else 99 in
  if v <? radix then Some v else None.

Fixpoint scan_radix (radix : Z) (s : string) (acc : Z) (cnt : Z) : Z * Z * string :=
  match s with
  | String c r =>
      match radix_digit radix c with
      | Some v => scan_radix radix r (radix * acc + v) (cnt + 1)
      | None => (acc, cnt, s)
      end
  | EmptyString => (acc, cnt, s)
  end.

Definition scan_non_decimal (s : string) : option (number * string) :=
  match s with
  | String z (String x r) =>
      if byte z =? 48 then
        let radix := if (byte x =? 120) || (byte x =? 88) then 16
                     else if (byte x =? 111) || (byte x =? 79) then 8
                     else if (byte x =? 98) || (byte x =? 66) then 2
                     else 0 in
        if radix =? 0 then None
        else let '(v, n, rest) := scan_radix radix r 0 0 in
             if n =? 0 then None else Some (of_Z v, rest)
      else None
  | _ => None
  end.

(** [Number(s)] on a string ([StringToNumber]): white space is trimmed at
    both ends; the empty string is [+0]; the whole remainder must be one
    numeric literal, otherwise the result is NaN. *)
Definition stringToNumber (s : string) : number :=
  let t := trimStart s in
  match t with
  | EmptyString => pzero
  | _ =>
      match scan_non_decimal t with
      | Some (x, rest) => if is_blank rest then x else NaN
      | None =>
          match scan_decimal t with
          | Some (x, rest) => if is_blank rest then x else NaN
          | None => NaN
          end
      end
  end.

(** *** Numbers to strings *)

Definition digit_char (d : Z) : ascii := ascii_of_nat (Z.to_nat (48 + d)).

Fixpoint digits_fuel (fuel : nat) (n : Z) (acc : string) : string :=
  match fuel with
  | O => acc
  | S k =>
      let acc' := String (digit_char (n mod 10)) acc in
      if n <? 10 then acc' else digits_fuel k (n / 10) acc'
  end.

(** The decimal digits of a natural number, most significant first. *)
Definition decimal_digits (n : Z) : string :=
  digits_fuel (S (Z.to_nat (Z.log2 n))) n "".

Fixpoint zeros (n : nat) : string :=
  match n with O => "" | S k => String "0" (zeros k) end.

(** A positive finite Number as a fraction of two positive integers. *)
Definition fraction_of (m : positive) (e : Z) : Z * Z :=
  if 0 <=? e then (Z.pos m * 2 ^ e, 1) else (Z.pos m, 2 ^ (- e)).

(** [floor (N / D * 10^p)] for any integer [p]. *)
Definition scale10_floor (N D p : Z) : Z :=
  if 0 <=? p then (N * 10 ^ p) / D else N / (D * 10 ^ (- p)).

(** [N / D < 10^n]. *)
Definition below_pow10 (N D n : Z) : bool :=
  if 0 <=? n then N <? D * 10 ^ n else N * 10 ^ (- n) <? D.

Fixpoint magnitude_fuel (fuel : nat) (N D n : Z) : Z :=
  match fuel with
  | O => n
  | S k => if below_pow10 N D n then n else magnitude_fuel k N D (n + 1)
  end.

(** The integer [n] with [10^(n-1) <= N/D < 10^n]; the search starts two
    below an estimate from the binary logarithms. *)
Definition magnitude (N D : Z) : Z :=
  magnitude_fuel 8 N D ((Z.log2 N - Z.log2 D) * 30103 / 100000 - 2).

Definition same_number (x y : number) : bool :=
  match x, y with
  | S754_finite s1 m1 e1, S754_finite s2 m2 e2 =>
      Bool.eqb s1 s2 && Pos.eqb m1 m2 && Z.eqb e1 e2
  | _, _ => false
  end.

(** The shortest decimal [s * 10^(n-k)], [s] of [k] digits, that reads
    back as [x]; of two candidates of the same length the one nearer to [x],
    the even one on a tie.  Returns [(s, n)]. *)
Fixpoint shortest_fuel (fuel : nat) (x : number) (N D n k : Z) : Z * Z :=
  let lo := scale10_floor N D (k - n) in
  let hi := lo + 1 in
  let ok_lo := same_number (of_decimal false lo (n - k)) x in
  let ok_hi := same_number (of_decimal false hi (n - k)) x in
  (* 2 * N/D compared with (lo + hi) * 10^(n-k) *)
  let nearer_lo :=
    if 0 <=? n - k then Z.compare (2 * N) ((lo + hi) * 10 ^ (n - k) * D)
    else Z.compare (2 * N * 10 ^ (k - n)) ((lo + hi) * D) in
  let pick_lo := match nearer_lo with Lt => true | Gt => false | Eq => Z.even lo end in
  let norm (s : Z) := if s =? 10 ^ k then (1, n + 1) else (s, n) in
  match fuel with
  | O => norm (if pick_lo then lo else hi)
  | S f =>
      if ok_lo && ok_hi then norm (if pick_lo then lo else hi)
      else if ok_lo then norm lo
      else if ok_hi then norm hi
      else shortest_fuel f x N D n (k + 1)
  end.

Definition shortest (m : positive) (e : Z) : Z * Z :=
  let '(N, D) := fraction_of m e in
  shortest_fuel 17 (S754_finite false m e) N D (magnitude N D) 1.

Definition head_tail (s : string) : string * string :=
  match s with
  | String c r => (String c "", r)
  | EmptyString => ("", "")
  end.

Definition exponent_suffix (n : Z) : string :=
  String "e" ((if 0 <=? n - 1 then "+" else "-") ++ decimal_digits (Z.abs (n - 1))).

(** [Number::toString(x, 10)]. *)
Definition toString (x : number) : string :=
  match x with
  | S754_nan => "NaN"
  | S754_zero _ => "0"
  | S754_infinity s => if s then "-Infinity" else "Infinity"
  | S754_finite sg m e =>
      let '(s, n) := shortest m e in
      let ds := decimal_digits s in
      let k := Z.of_nat (String.length ds) in
      (if sg then "-" else "") ++
      (if (k <=? n) && (n <=? 21) then ds ++ zeros (Z.to_nat (n - k))
       else if (0 <? n) && (n <=? 21) then
         substring 0 (Z.to_nat n) ds ++ "." ++ substring (Z.to_nat n) (Z.to_nat (k - n)) ds
       else if (-6 <? n) && (n <=? 0) then "0." ++ zeros (Z.to_nat (- n)) ++ ds
       else if k =? 1 then ds ++ exponent_suffix n
       else let '(h, t) := head_tail ds in h ++ "." ++ t ++ exponent_suffix n)
  end.

(** [x.toFixed(2)]: a value that is not finite or is at least [10^21] in
    magnitude prints as [toString]; otherwise the integer [n] nearest to
    [100 * x] is printed with two decimals, the larger [n] on a tie.  The
    sign is printed for every negative [x], also when it rounds to zero,
    and not for [-0]. *)
Definition toFixed2 (x : number) : string :=
  match x with
  | S754_finite sg m e =>
      let '(N, D) := fraction_of m e in
      if 10 ^ 21 * D <=? N then toString x
      else
        let n := (2 * 100 * N + D) / (2 * D) in
        let frac := decimal_digits (n mod 100) in
        (if sg then "-" else "") ++ decimal_digits (n / 100) ++ "." ++
        zeros (2 - String.length frac) ++ frac
  | S754_zero _ => "0.00"
  | _ => toString x
  end.

(** *** Notions used to reason about numbers *)

Definition emin : Z := -1074.

(** A value that the binary64 format can hold. *)
Definition valid (x : number) : Prop := valid_binary prec emax x = true.

(** The place of a number that is not NaN in a lexicographic order that
    agrees with [<]. *)
Definition rank (x : number) : Z * Z * Z :=
  match x with
  | S754_nan => (0, 0, 0)
  | S754_zero _ => (0, 0, 0)
  | S754_infinity s => (if s then -2 else 2, 0, 0)
  | S754_finite s m e => if s then (-1, - e, - Z.pos m) else (1, e, Z.pos m)
  end.

Definition lex_lt (a b : Z * Z * Z) : Prop :=
  let '(a1, a2, a3) := a in
  let '(b1, b2, b3) := b in
  a1 < b1 \/ (a1 = b1 /\ (a2 < b2 \/ (a2 = b2 /\ a3 < b3))).

Definition has_sign (s : bool) (x : number) : Prop :=
  match x with
  | S754_finite s' _ _ | S754_infinity s' => s' = s
  | _ => False
  end.

(** A mantissa and an exponent in the shape the format stores. *)
Definition canon (m E : Z) : Prop :=
  (m = 0 /\ E = emin) \/ (0 < m /\ fexp prec emax (Zdigits2 m + E) = E).

End JS.


(** ** Data model

    The declarations of src/types.ts ([CellData], [TableRow], [BarrelData]),
    which the sources hold at the end of src/components/VolumeCalculator.tsx,
    lines 347 to 356. *)

(** The type of [CellData.confidence],
    ['high' | 'medium' | 'low' | 'user']. *)
Inductive Confidence : Type := high | medium | low | user.

(** The type of [CellData.value], [string | number | null]. *)
Inductive CellValue : Type :=
  | VNum (n : JS.number)
  | VStr (s : string)
  | VNull.

(** The interface [CellData], [{ value, confidence }]. *)
Record CellData : Type := mkCell { value : CellValue; confidence : Confidence }.

(** The type [TableRow], a mapping from column name to cell.  A row is a
    JavaScript object: its own properties in enumeration order, which for
    column names that are not array indices is the order of creation.  Its
    prototype is [Object.prototype]. *)
Definition TableRow : Type := list (string * CellData).

(** The type [BarrelData], an array of rows. *)
Definition BarrelData : Type := list TableRow.

(** [Number(v)] and [String(v)] on a cell value. *)
Definition Number (v : CellValue) : JS.number :=
  match v with
  | VNum n => n
  | VStr s => JS.stringToNumber s
  | VNull => JS.pzero
  end.

Definition ToString (v : CellValue) : string :=
  match v with
  | VNum n => JS.toString n
  | VStr s => s
  | VNull => "null"
  end.

(** SameValueZero, the equality of [Map] keys: a number never equals a
    string, whatever the string reads. *)
Definition sameValueZero (a b : CellValue) : bool :=
  match a, b with
  | VNum x, VNum y => JS.num_sameValueZero x y
  | VStr s, VStr t => String.eqb s t
  | VNull, VNull => true
  | _, _ => false
  end.

(** [a === b] on cell values: as SameValueZero, except that NaN is not
    equal to itself. *)
Definition strictEquals (a b : CellValue) : bool :=
  match a, b with
  | VNum x, VNum y => negb (JS.isNaN x) && JS.num_sameValueZero x y
  | VStr s, VStr t => String.eqb s t
  | VNull, VNull => true
  | _, _ => false
  end.

(** *** Objects *)

Module Obj.

(** [Object.keys(row)]. *)
Definition keys (row : TableRow) : list string := map fst row.

(** The names of the members that every row inherits from
    [Object.prototype]. *)
Definition inherited (k : string) : bool :=
  existsb (String.eqb k)
    ["constructor"; "hasOwnProperty"; "isPrototypeOf"; "propertyIsEnumerable";
     "toLocaleString"; "toString"; "valueOf"; "__proto__";
     "__defineGetter__"; "__defineSetter__"; "__lookupGetter__";
     "__lookupSetter__"].

(** The names that write a non-negative integer in canonical decimal form
    ([0], [7], [120]; not [007]).  The array indices, up to [2^32 - 2], are
    among them. *)
Definition integer_name (k : string) : bool :=
  let '(v, n, rest) := JS.scan_digits k 0 0 in
  (0 <? n) && String.eqb rest "" && String.eqb (JS.decimal_digits v) k.

(** A plain column name: neither inherited nor an integer name. *)
Definition plain (k : string) : bool :=
  negb (inherited k) && negb (integer_name k).

(** [row[k]] for the columns of the row itself; [None] is [undefined].
    When the row has no column [k] and [k] is an [inherited] name, the
    program finds the member of [Object.prototype] instead, which is not
    [undefined]: the properties that read an absent column exclude
    those names. *)
Fixpoint get (row : TableRow) (k : string) : option CellData :=
  match row with
  | [] => None
  | (k', c) :: rest => if String.eqb k' k then Some c else get rest k
  end.

(** [row[k] = c] and [{...row, [k]: c}]: an existing property keeps its
    place, a new one is added last.  [Object.keys] lists a new array index
    before the other names instead, and the assignment [row['__proto__'] = c]
    adds no column: the properties on the order of the columns exclude
    integer names, those on assignment also [inherited] ones. *)
Fixpoint set (row : TableRow) (k : string) (c : CellData) : TableRow :=
  match row with
  | [] => [(k, c)]
  | (k', c') :: rest =>
      if String.eqb k' k then (k', c) :: rest else (k', c') :: set rest k c
  end.

End Obj.

(** *** Maps

    A [Map] keeps its entries in order of first insertion; [set] on a key
    that is present replaces the value in place. *)

Module JSMap.
Section Ops.
Context {K V : Type}.
Variable same : K -> K -> bool.

Definition t : Type := list (K * V).

Fixpoint get (m : t) (k : K) : option V :=
  match m with
  | [] => None
  | (k', v) :: rest => if same k' k then Some v else get rest k
  end.

Definition has (m : t) (k : K) : bool :=
  match get m k with Some _ => true | None => false end.

Fixpoint set (m : t) (k : K) (v : V) : t :=
  match m with
  | [] => [(k, v)]
  | (k', v') :: rest =>
      if same k' k then (k', v) :: rest else (k', v') :: set rest k v
  end.

Definition values (m : t) : list V := map snd m.
Definition size (m : t) : nat := List.length m.
End Ops.
End JSMap.

(** *** Array.prototype.sort

    The comparator returns a Number; [b] is placed before [a] when
    [comparator(a, b) > 0] (a NaN result counts as [+0]).  ECMAScript
    requires the sort to be stable and fixes the result whenever the
    comparator is a consistent ordering; the order is implementation-defined
    otherwise.  The model is the insertion sort: each element in turn is
    moved left past the elements of the sorted prefix that must come after
    it.  The sorted prefix is kept reversed while the array is traversed.
    The result is a rearrangement of the input in every engine; where the
    comparator is a consistent ordering of the elements at hand, the order
    of the model is the one that ECMAScript fixes. *)

Section Sort.
Context {A : Type}.
Variable comparator : A -> A -> JS.number.

Definition comes_after (a b : A) : bool := JS.ltb JS.pzero (comparator a b).

Fixpoint insert_back (x : A) (rev_prefix : list A) : list A :=
  match rev_prefix with
  | [] => [x]
  | y :: rest =>
      if comes_after y x then y :: insert_back x rest else x :: rev_prefix
  end.

Definition sort (l : list A) : list A :=
  rev (fold_left (fun prefix x => insert_back x prefix) l []).
End Sort.

(** *** Array.prototype.map

    [array.map((x, i) => f(x, i))]; [start] is the index of the first
    element of [l]. *)

Fixpoint map_indexed {A B : Type} (f : A -> nat -> B) (start : nat) (l : list A)
    : list B :=
  match l with
  | [] => []
  | x :: rest => f x start :: map_indexed f (S start) rest
  end.

(** ** The row reconciler: src/utils/dataUtils.ts *)

(** [Number(row[primaryKey].value)].  Every row that reaches the sort has
    a primary-key cell (lemma [merged_rows_have_key] below), so the
    [undefined] branch, a TypeError in JavaScript, is never taken there. *)
Definition keyNumber (primaryKey : string) (row : TableRow) : JS.number :=
  match Obj.get row primaryKey with
  | Some c => Number (value c)
  | None => JS.NaN
  end.

(** The comparator of the final sort. *)
Definition compareRows (primaryKey : string) (a b : TableRow) : JS.number :=
  let valA := keyNumber primaryKey a in
  let valB := keyNumber primaryKey b in
  if JS.isNaN valA || JS.isNaN valB then JS.pzero else JS.sub valA valB.

(** First loop: the existing rows that have a non-null key enter the map. *)
Definition populate (primaryKey : string)
    (mergedDataMap : JSMap.t (K:=CellValue) (V:=TableRow)) (row : TableRow) :=
  match Obj.get row primaryKey with
  | Some c =>
      match value c with
      | VNull => mergedDataMap
      | key => JSMap.set sameValueZero mergedDataMap key row
      end
  | None => mergedDataMap
  end.

(** The inner loop [for (const cellKey in newRow)]: a cell of the new row
    overwrites the merged row only if its value is not null. *)
Definition mergeCell (newRow : TableRow) (mergedRow : TableRow) (cellKey : string)
    : TableRow :=
  match Obj.get newRow cellKey with
  | Some c =>
      match value c with
      | VNull => mergedRow
      | _ => Obj.set mergedRow cellKey c
      end
  | None => mergedRow
  end.

Definition mergeRow (existingRow newRow : TableRow) : TableRow :=
  fold_left (mergeCell newRow) (Obj.keys newRow) existingRow.

(** Second loop: one new row. *)
Definition mergeNewRow (primaryKey : string)
    (mergedDataMap : JSMap.t (K:=CellValue) (V:=TableRow)) (newRow : TableRow) :=
  match Obj.get newRow primaryKey with
  | Some c =>
      match value c with
      | VNull => mergedDataMap
      | key =>
          match JSMap.get sameValueZero mergedDataMap key with
          | Some existingRow =>
              JSMap.set sameValueZero mergedDataMap key (mergeRow existingRow newRow)
          | None => JSMap.set sameValueZero mergedDataMap key newRow
          end
      end
  | None => mergedDataMap
  end.

(** The map after both loops. *)
Definition mergedDataMap (primaryKey : string) (existingData newData : BarrelData)
    : JSMap.t (K:=CellValue) (V:=TableRow) :=
  fold_left (mergeNewRow primaryKey) newData
    (fold_left (populate primaryKey) existingData []).

Definition mergeBarrelData (existingData newData : BarrelData) : BarrelData :=
  match newData with
  | [] => existingData
  | _ :: _ =>
      match existingData with
      | [] => newData
      | first :: _ =>
          match Obj.keys first with
          | [] => newData
          | primaryKey :: _ =>
              if String.eqb primaryKey "" then newData
              else
                sort (compareRows primaryKey)
                  (JSMap.values (mergedDataMap primaryKey existingData newData))
          end
      end
  end.

(** ** The volume calculator: src/components/VolumeCalculator.tsx *)

(** [h.toLowerCase()] on the UTF-8 bytes of [h]: the letters A to Z are
    mapped, every other byte is kept.  No character outside ASCII has a
    lower-case form made of the letters of [mouill] alone, so the test
    [h.toLowerCase().includes('mouill')] is decided by this function. *)
Definition lower_ascii (c : ascii) : ascii :=
  let b := JS.byte c in
  if (65 <=? b) && (b <=? 90) then ascii_of_nat (Z.to_nat (b + 32)) else c.

Fixpoint toLowerCase (s : string) : string :=
  match s with
  | EmptyString => EmptyString
  | String c r => String (lower_ascii c) (toLowerCase r)
  end.

(** [s.includes(needle)]. *)
Fixpoint includes (s needle : string) : bool :=
  match JS.strip_prefix needle s with
  | Some _ => true
  | None =>
      match s with
      | EmptyString => false
      | String _ r => includes r needle
      end
  end.

(** [headers.find(h => h.toLowerCase().includes('mouill')) || headers[0]];
    [None] is [undefined]. *)
Definition potentialHeightKey (headers : list string) : option string :=
  match find (fun h => includes (toLowerCase h) "mouill") headers with
  | Some h => Some h
  | None => hd_error headers
  end.

(** A property name from a value that may be [undefined]. *)
Definition propertyKey (k : option string) : string :=
  match k with Some s => s | None => "undefined" end.

Definition HeightMap : Type := JSMap.t (K:=JS.number) (V:=TableRow).

(** One step of [barrelData.forEach]: [None] is the TypeError raised by
    [row[potentialHeightKey].value] on a row without that column. *)
Definition registerRow (heightKey : string) (acc : option HeightMap) (row : TableRow)
    : option HeightMap :=
  match acc with
  | None => None
  | Some map =>
      match Obj.get row heightKey with
      | None => None
      | Some c =>
          let height := Number (value c) in
          if JS.isNaN height then Some map
          else Some (JSMap.set JS.num_sameValueZero map height row)
      end
  end.

Record Memo : Type := mkMemo {
  heightKey : option string;
  volumeKeys : list string;
  dataMap : HeightMap
}.

(** The [useMemo] block. *)
Definition useMemo (barrelData : BarrelData) : option Memo :=
  match barrelData with
  | [] => Some (mkMemo None [] [])
  | first :: _ =>
      let headers := Obj.keys first in
      let hk := potentialHeightKey headers in
      let potentialVolumeKeys :=
        filter (fun h => match hk with
                         | Some k => negb (String.eqb h k)
                         | None => true
                         end) headers in
      match fold_left (registerRow (propertyKey hk)) barrelData (Some []) with
      | None => None
      | Some map =>
          Some (mkMemo hk potentialVolumeKeys map)
      end
  end.

(** The branch of [handleCalculate] that produced the display, under the
    names the specification gives them.  The component itself keeps only
    [volume] and [calculationNote]. *)
Inductive Status : Type :=
  | unavailable | invalid_input | exact | interpolated | non_numeric
  | nearest | not_found.

Record Display : Type := mkDisplay {
  status : Status;
  volume : CellValue;
  calculationNote : option string
}.

(** One step of the nearest-neighbour loop over [(closestRow, minDiff)]. *)
Definition closer (hk : string) (height : JS.number)
    (st : option (option TableRow * JS.number)) (row : TableRow)
    : option (option TableRow * JS.number) :=
  match st with
  | None => None
  | Some (closestRow, minDiff) =>
      match Obj.get row hk with
      | None => None
      | Some c =>
          let rowHeight := JS.parseFloat (ToString (value c)) in
          if JS.isNaN rowHeight then Some (closestRow, minDiff)
          else
            let diff := JS.abs (JS.sub rowHeight height) in
            if JS.ltb diff minDiff then Some (Some row, diff)
            else Some (closestRow, minDiff)
      end
  end.

Definition closest (hk : string) (height : JS.number) (barrelData : BarrelData)
    : option (option TableRow * JS.number) :=
  fold_left (closer hk height) barrelData (Some (None, JS.Infinity)).

(** [row[column].value]; [None] is the TypeError on a missing column. *)
Definition cellValue (row : TableRow) (column : string) : option CellValue :=
  match Obj.get row column with
  | Some c => Some (value c)
  | None => None
  end.

(** The three cases of [handleCalculate] once the guards have passed:
    exact match, interpolation between the two neighbouring integer heights,
    nearest row.  [None]: a TypeError was raised. *)
Definition lookupVolume (barrelData : BarrelData) (map : HeightMap)
    (hk selectedVolumeKey : string) (height : JS.number) : option Display :=
  match JSMap.get JS.num_sameValueZero map height with
  | Some row =>
      match cellValue row selectedVolumeKey with
      | Some v => Some (mkDisplay exact v (Some "Exact value found in table."))
      | None => None
      end
  | None =>
      let lowerHeight := JS.floor height in
      let upperHeight := JS.ceil height in
      match JSMap.get JS.num_sameValueZero map lowerHeight,
            JSMap.get JS.num_sameValueZero map upperHeight with
      | Some lowerRow, Some upperRow =>
          match cellValue lowerRow selectedVolumeKey,
                cellValue upperRow selectedVolumeKey with
          | Some lv, Some uv =>
              let lowerVolume := Number lv in
              let upperVolume := Number uv in
              if JS.isNaN lowerVolume || JS.isNaN upperVolume then
                Some (mkDisplay non_numeric (VStr "Data not numeric")
                        (Some "Cannot interpolate non-numeric values."))
              else
                let heightFraction := JS.sub height lowerHeight in
                let volumeDifference := JS.sub upperVolume lowerVolume in
                let interpolatedVolume :=
                  JS.add lowerVolume (JS.mul volumeDifference heightFraction) in
                Some (mkDisplay interpolated
                        (VStr (JS.toFixed2 interpolatedVolume))
                        (Some ("Interpolated between " ++ JS.toString lowerHeight
                               ++ " and " ++ JS.toString upperHeight ++ ".")))
          | _, _ => None
          end
      | _, _ =>
          match closest hk height barrelData with
          | None => None
          | Some (Some closestRow, _) =>
              match cellValue closestRow selectedVolumeKey,
                    cellValue closestRow hk with
              | Some v, Some h =>
                  Some (mkDisplay nearest v
                          (Some ("No exact match. Showing value for closest height: "
                                 ++ ToString h ++ ".")))
              | _, _ => None
              end
          | Some (None, _) =>
              Some (mkDisplay not_found (VStr "No match found") None)
          end
      end
  end.

(** [handleCalculate], as a function of the dataset, the selected volume
    column and the text of the height field.  [None]: a TypeError was
    raised, in [useMemo] or in the lookup. *)
Definition handleCalculate (barrelData : BarrelData)
    (selectedVolumeKey wetHeight : string) : option Display :=
  match useMemo barrelData with
  | None => None
  | Some memo =>
      let falsy (k : option string) :=
        match k with Some s => String.eqb s "" | None => true end in
      if match barrelData with [] => true | _ => false end
         || falsy (heightKey memo)
         || String.eqb selectedVolumeKey ""
         || Nat.eqb (JSMap.size (dataMap memo)) 0
      then Some (mkDisplay unavailable (VStr "N/A") None)
      else
        let height := JS.parseFloat wetHeight in
        if JS.isNaN height then Some (mkDisplay invalid_input (VStr "Invalid input") None)
        else lookupVolume barrelData (dataMap memo) (propertyKey (heightKey memo))
               selectedVolumeKey height
  end.

(** The result panel, lines 164 to 170: nothing is rendered while
    [volume] is null; otherwise the panel shows [String(volume)] and, under
    it, the note when there is a non-empty one. *)
Definition resultPanel (d : Display) : option (string * option string) :=
  match volume d with
  | VNull => None
  | v =>
      Some (ToString v,
            match calculationNote d with
            | Some EmptyString => None
            | note => note
            end)
  end.

(** The state of the component: the four [useState] cells of lines 9 to
    12. *)
Module Calculator.
Record State : Type := mkState {
  wetHeight : string;
  selectedVolumeKey : string;
  volume : CellValue;
  calculationNote : option string
}.
End Calculator.

(** The [useEffect] block, lines 35 to 44: the selection moves to the
    first volume column when it is not one of the volume columns, it is
    emptied when there is no volume column, and the result and the height
    field are cleared.  [volumeKeys[0]] is read only from a non-empty
    array. *)
Definition useEffect (volumeKeys : list string) (st : Calculator.State)
    : Calculator.State :=
  let selected :=
    if (0 <? List.length volumeKeys)%nat
       && negb (existsb (String.eqb (Calculator.selectedVolumeKey st)) volumeKeys)
    then hd "undefined" volumeKeys
    else if (List.length volumeKeys =? 0)%nat then ""
    else Calculator.selectedVolumeKey st in
  Calculator.mkState "" selected VNull None.

(** ** The editable table: src/components/EditableTable.tsx *)

(** [handleSave] of an [EditableCell], lines 19 to 36, for the cell
    [cellData] and the content [currentValue] of the input: the cell handed
    to [onSave]; [None] when the function returns without saving. *)
Definition handleSave (cellData : CellData) (currentValue : CellValue)
    : option CellData :=
  let numericValue := Number currentValue in
  let finalValue :=
    if JS.isNaN numericValue then VStr (ToString currentValue)
    else VNum numericValue in
  if strictEquals finalValue (value cellData) then None
  else Some (mkCell finalValue user).

(** [handleCellSave] of the table, lines 91 to 99: the dataset handed to
    [onDataChange].  [{ ...row, [header]: newCellData }] is a copy of the
    row in which the column is set. *)
Definition handleCellSave (data : BarrelData) (rowIndex : nat) (header : string)
    (newCellData : CellData) : BarrelData :=
  map_indexed
    (fun row rIdx => if Nat.eqb rIdx rowIndex then Obj.set row header newCellData else row)
    0 data.

(** ** The reply of the AI service: the service code in
    src/components/VolumeCalculator.tsx, lines 253 to 255 and 330 to 331 *)

(** [s.replace(/^```json\n?/, '')]: the opening fence at the start of the
    text, with the line feed that may follow it. *)
Definition strip_opening_fence (s : string) : string :=
  match JS.strip_prefix "```json" s with
  | Some rest =>
      match rest with
      | String c r => if JS.byte c =? 10 then r else rest
      | EmptyString => rest
      end
  | None => s
  end.

(** [s.replace(/```$/, '')]: the pattern can only match three characters
    before the end of the text. *)
Fixpoint strip_closing_fence (s : string) : string :=
  match s with
  | EmptyString => EmptyString
  | String c r =>
      if String.eqb s "```" then EmptyString else String c (strip_closing_fence r)
  end.

Definition sanitizedJsonText (jsonText : string) : string :=
  strip_closing_fence (strip_opening_fence jsonText).

(** ** Notions used in the statements *)

(** The non-null primary-key value of a row, if it has one. *)
Definition rowKey (primaryKey : string) (row : TableRow) : option CellValue :=
  match Obj.get row primaryKey with
  | Some c => match value c with VNull => None | k => Some k end
  | None => None
  end.

(** The row carries the key [k], as [Map] compares keys. *)
Definition hasKey (primaryKey : string) (k : CellValue) (row : TableRow) : bool :=
  match rowKey primaryKey row with
  | Some k' => sameValueZero k' k
  | None => false
  end.

(** The key of the row coerces to a number. *)
Definition numericKey (primaryKey : string) (row : TableRow) : Prop :=
  JS.isNaN (keyNumber primaryKey row) = false.

(** Every number in the dataset is a value of the binary64 format, as
    every JavaScript Number is. *)
Definition validValue (v : CellValue) : Prop :=
  match v with VNum n => JS.valid n | _ => True end.

Definition validRow (row : TableRow) : Prop :=
  Forall (fun property => validValue (value (snd property))) row.

Definition validData (data : BarrelData) : Prop := Forall validRow data.

(** A key that the comparator orders: a number, in the format. *)
Definition orderedKey (primaryKey : string) (row : TableRow) : Prop :=
  numericKey primaryKey row /\ JS.valid (keyNumber primaryKey row).

(** [a] is not after [b] in numeric key order: not [key b < key a]. *)
Definition keyLe (primaryKey : string) (a b : TableRow) : Prop :=
  JS.ltb (keyNumber primaryKey b) (keyNumber primaryKey a) = false.

(** The row is registered in the height index under [x]. *)
Definition registersAt (hk : string) (x : JS.number) (row : TableRow) : bool :=
  match Obj.get row hk with
  | Some c =>
      negb (JS.isNaN (Number (value c))) && JS.num_sameValueZero (Number (value c)) x
  | None => false
  end.

(** The last row of the dataset registered under [x]. *)
Definition rowAt (hk : string) (barrelData : BarrelData) (x : JS.number)
    : option TableRow :=
  find (registersAt hk x) (rev barrelData).

(** The height the nearest-neighbour loop reads from a row, and its
    distance to the query. *)
Definition scanHeight (hk : string) (row : TableRow) : JS.number :=
  match Obj.get row hk with
  | Some c => JS.parseFloat (ToString (value c))
  | None => JS.NaN
  end.

Definition scanDiff (hk : string) (height : JS.number) (row : TableRow) : JS.number :=
  JS.abs (JS.sub (scanHeight hk row) height).

(** The header is a height column by its name. *)
Definition mouill (h : string) : bool := includes (toLowerCase h) "mouill".

Local Open Scope list_scope.

(** *** The row reconciler *)

(** The primary-key column of the path that merges: the first column of
    the first existing row, when there is one and its name is not empty. *)
Definition primaryKeyOf (existingData : BarrelData) : option string :=
  match existingData with
  | first :: _ =>
      match Obj.keys first with
      | pk :: _ => if String.eqb pk "" then None else Some pk
      | [] => None
      end
  | [] => None
  end.

(** What a merged row holds in a column: the new cell when the new row
    has a non-null one, the existing cell otherwise. *)
Definition mergedCell (existingRow newRow : TableRow) (column : string)
    : option CellData :=
  match Obj.get newRow column with
  | Some c => match value c with VNull => Obj.get existingRow column | _ => Some c end
  | None => Obj.get existingRow column
  end.

(** The rows of a dataset whose key coerces to a number. *)
Definition numericRows (primaryKey : string) (data : BarrelData) : BarrelData :=
  filter (fun row => negb (JS.isNaN (keyNumber primaryKey row))) data.

(** The last row of a dataset that carries the key [k]: the row the map
    holds for [k] once the dataset has been read. *)
Definition lastWithKey (primaryKey : string) (k : CellValue) (data : BarrelData)
    : option TableRow :=
  find (hasKey primaryKey k) (rev data).

(** The row has no value in the column: the cell is null or missing. *)
Definition nullOrAbsent (row : TableRow) (column : string) : Prop :=
  match Obj.get row column with
  | Some c => value c = VNull
  | None => True
  end.

(** No two rows of the dataset carry the same key. *)
Definition distinctRows (primaryKey : string) (data : BarrelData) : Prop :=
  ForallOrdPairs
    (fun a b => forall k, rowKey primaryKey a = Some k -> hasKey primaryKey k b = false)
    data.

(** The entry a row makes in an empty place of the map. *)
Definition entryOf (primaryKey : string) (row : TableRow) : CellValue * TableRow :=
  (match rowKey primaryKey row with Some k => k | None => VNull end, row).

(** Every cell of the row is the cell, in the same column, of a source
    row that carries the key [k]. *)
Definition fromSources (pk : string) (sources : BarrelData) (k : CellValue)
    (row : TableRow) : Prop :=
  forall column c, Obj.get row column = Some c ->
    exists src, In src sources /\ hasKey pk k src = true /\ Obj.get src column = Some c.

(** A column that the new row adds to the existing row: the new row has
    a value in it and the existing row does not have the column. *)
Definition newColumn (existingRow newRow : TableRow) (column : string) : bool :=
  match Obj.get newRow column with
  | Some c =>
      match value c with
      | VNull => false
      | _ => negb (existsb (String.eqb column) (Obj.keys existingRow))
      end
  | None => false
  end.

(** The key of the row, if it has one, is a number. *)
Definition numberKey (primaryKey : string) (row : TableRow) : Prop :=
  match rowKey primaryKey row with
  | Some (VNum _) | None => True
  | Some _ => False
  end.

(** The cell that a column holds after the rows [newRows] have been
    merged, one after the other, into a row that held [cell]: the last
    non-null cell of the column among [newRows], [cell] when there is
    none. *)
Definition lastCell (newRows : list TableRow) (column : string) (cell : option CellData)
    : option CellData :=
  fold_left
    (fun acc newRow =>
       match Obj.get newRow column with
       | Some c => match value c with VNull => acc | _ => Some c end
       | None => acc
       end)
    newRows cell.

(** The row is laid out as the rows of a page are: its first column is
    [primaryKey] and no column occurs twice. *)
Definition pageRow (primaryKey : string) (row : TableRow) : Prop :=
  hd_error (Obj.keys row) = Some primaryKey /\ NoDup (Obj.keys row).

(** The rows of a batch that carry a key, in their order. *)
Definition rowsOfKey (pk : string) (k : CellValue) (rows : BarrelData) : BarrelData :=
  filter (hasKey pk k) rows.

(** The key of the row coerces to the number [x]. *)
Definition keyIs (primaryKey : string) (x : JS.number) (row : TableRow) : bool :=
  JS.num_sameValueZero (keyNumber primaryKey row) x.

(** *** Maps *)

(** The key equality of a map is an equivalence. *)
Class KeyEquivalence {K : Type} (same : K -> K -> bool) : Prop := {
  same_refl : forall k, same k k = true;
  same_sym : forall a b, same a b = same b a;
  same_trans : forall a b c, same a b = true -> same b c = true -> same a c = true
}.

(** No two entries have the same key. *)
Definition distinctKeys {K V : Type} (same : K -> K -> bool) (m : list (K * V)) : Prop :=
  ForallOrdPairs (fun a b => same (fst a) (fst b) = false) m.

(** The number of entries under a key. *)
Definition entriesAt {K V : Type} (same : K -> K -> bool) (m : list (K * V)) (k : K)
    : nat :=
  List.length (filter (fun e => same (fst e) k) m).

(** The invariant of the map of the reconciler: keys are pairwise
    different, and every entry holds a row that carries the key of the
    entry. *)
Definition mapInv (primaryKey : string) (m : list (CellValue * TableRow)) : Prop :=
  distinctKeys sameValueZero m
  /\ Forall (fun e => hasKey primaryKey (fst e) (snd e) = true) m.

(** *** The volume calculator *)

(** The height column of a dataset, as [useMemo] chooses it. *)
Definition heightKeyOf (barrelData : BarrelData) : option string :=
  match barrelData with
  | first :: _ => potentialHeightKey (Obj.keys first)
  | [] => None
  end.

(** The dataset has the column in every row. *)
Definition hasColumn (column : string) (barrelData : BarrelData) : Prop :=
  Forall (fun row => Obj.get row column <> None) barrelData.

(** The rule by which [useMemo] picks the height column among the
    headers: the first header whose name contains [mouill], whatever the
    case of its letters; the first header when there is none. *)
Definition heightColumnRule (headers : list string) (hk : string) : Prop :=
  (exists before after,
      headers = before ++ hk :: after
      /\ mouill hk = true
      /\ Forall (fun h => mouill h = false) before)
  \/ (Forall (fun h => mouill h = false) headers /\ hd_error headers = Some hk).

(** No row of the dataset has a height that [Number] coerces to a
    number: the index is empty. *)
Definition noIndexedHeight (hk : string) (barrelData : BarrelData) : Prop :=
  forall row c, In row barrelData -> Obj.get row hk = Some c ->
                JS.isNaN (Number (value c)) = true.

(** The height cell of the row is null, empty or white space. *)
Definition blankHeight (hk : string) (row : TableRow) : Prop :=
  exists c, Obj.get row hk = Some c
            /\ (value c = VNull \/ exists s, value c = VStr s /\ JS.is_blank s = true).

(** The row the nearest-neighbour loop selects: its distance to the query
    is finite, it is strictly nearer than every row before it, and no row
    after it is strictly nearer. *)
Definition firstNearest (hk : string) (height : JS.number)
    (before : BarrelData) (row : TableRow) (after : BarrelData) : Prop :=
  JS.ltb (scanDiff hk height row) JS.Infinity = true
  /\ (forall r, In r before -> JS.isNaN (scanDiff hk height r) = false ->
                JS.ltb (scanDiff hk height row) (scanDiff hk height r) = true)
  /\ (forall r, In r after ->
                JS.ltb (scanDiff hk height r) (scanDiff hk height row) = false).

(** The state of the loop after the rows [seen]. *)
Definition nearestState (hk : string) (height : JS.number) (seen : BarrelData)
    (st : option TableRow * JS.number) : Prop :=
  match st with
  | (None, minDiff) =>
      minDiff = JS.Infinity
      /\ forall r, In r seen -> JS.ltb (scanDiff hk height r) JS.Infinity = false
  | (Some row, minDiff) =>
      minDiff = scanDiff hk height row
      /\ exists before after,
           seen = before ++ row :: after /\ firstNearest hk height before row after
  end.

(** What the interpolation case displays for the bounding volumes [lv]
    and [uv] and the query [height]. *)
Definition interpolatedDisplay (lv uv : CellValue) (height : JS.number) : Display :=
  mkDisplay interpolated
    (VStr (JS.toFixed2
             (JS.add (Number lv)
                (JS.mul (JS.sub (Number uv) (Number lv))
                        (JS.sub height (JS.floor height))))))
    (Some ("Interpolated between " ++ JS.toString (JS.floor height)
           ++ " and " ++ JS.toString (JS.ceil height) ++ "."))%string.


(** ** Rounding to two decimals

    What it is for a text to be a number rounded to exactly two decimal
    places, in the words of ECMAScript for [Number.prototype.toFixed(2)] on
    a finite [x] of magnitude below [10^21]: let [n] be an integer for which
    [n / 100 - x] is as close to zero as possible, the larger one if there
    are two; the result is the decimal numeral of [n] with a point before
    its last two digits, padded with zeros on the left to three digits, and
    a minus sign before it when [x < 0].  These definitions do not follow
    [JS.toFixed2]; they are what it is compared with. *)




(** [interpolatedVolume], the number that the interpolation case prints
    (lines 77, 78 and 86 to 88). *)
Definition interpolatedVolume (lv uv : CellValue) (height : JS.number) : JS.number :=
  let lowerVolume := Number lv in
  let upperVolume := Number uv in
  let heightFraction := JS.sub height (JS.floor height) in
  let volumeDifference := JS.sub upperVolume lowerVolume in
  JS.add lowerVolume (JS.mul volumeDifference heightFraction).


(** The columns of the row are exactly [columns]. *)
Definition hasColumns (columns : list string) (row : TableRow) : Prop :=
  forall column, Obj.get row column <> None <-> In column columns.

(** *** The reply of the AI service *)

(** The line feed. *)
Definition LF : ascii := ascii_of_nat 10.

(** [s.endsWith(suffix)]. *)
Fixpoint ends_with (s suffix : string) : bool :=
  String.eqb s suffix
  || match s with
     | EmptyString => false
     | String _ r => ends_with r suffix
     end.

(** *** Sample data *)

Definition num (z : Z) : CellData := mkCell (VNum (JS.of_Z z)) high.
Definition dec (s : string) : CellData := mkCell (VNum (JS.stringToNumber s)) high.
Definition text (s : string) : CellData := mkCell (VStr s) medium.
Definition blank : CellData := mkCell VNull high.

Definition table_20_30 : BarrelData :=
  [[("Mouille", num 20); ("Volume", num 200)];
   [("Mouille", num 30); ("Volume", num 300)]].

Definition table_20_21 : BarrelData :=
  [[("Mouille", num 20); ("Volume", num 200)];
   [("Mouille", num 21); ("Volume", dec "201.3")]].

Definition table_10_50 : BarrelData :=
  [[("Mouille", num 10); ("Volume", num 95)];
   [("Mouille", num 50); ("Volume", num 410)]].

(** * Properties *)

(** ** Order and subtraction on numbers *)

Module JSFacts.
Import JS.


Lemma ltb_rank (x y : number) :
  isNaN x = false -> isNaN y = false ->
  (ltb x y = true <-> lex_lt (rank x) (rank y)).
Proof.
  unfold ltb, SFltb.
  destruct x as [sx|sx| |sx mx ex], y as [sy|sy| |sy my ey];
    try discriminate; intros _ _; cbn;
    try (destruct sx); try (destruct sy); cbn;
    try (split; [discriminate | lia]);
    try (split; [reflexivity | lia]);
    try (split; [intros; lia | reflexivity]).
  all: change (PosDef.Pos.compare_cont Eq mx my) with (Pos.compare mx my);
    destruct (Z.compare_spec ex ey); cbn;
    try (destruct (Pos.compare_spec mx my); cbn);
    split; intros; try discriminate; try reflexivity; lia.
Qed.

Lemma ltb_nan_l x : ltb NaN x = false. Proof. reflexivity. Qed.
Lemma ltb_nan_r x : ltb x NaN = false. Proof. destruct x; reflexivity. Qed.

Lemma ltb_not_nan x y : ltb x y = true -> isNaN x = false /\ isNaN y = false.
Proof. destruct x, y; cbn; try discriminate; auto. Qed.

Lemma lex_lt_trans a b c : lex_lt a b -> lex_lt b c -> lex_lt a c.
Proof. destruct a as [[? ?] ?], b as [[? ?] ?], c as [[? ?] ?]; cbn; lia. Qed.

Lemma lex_lt_total a b : lex_lt a b \/ a = b \/ lex_lt b a.
Proof.
  destruct a as [[a1 a2] a3], b as [[b1 b2] b3]; cbn.
  destruct (Z.lt_total a1 b1) as [|[|]], (Z.lt_total a2 b2) as [|[|]],
    (Z.lt_total a3 b3) as [|[|]]; subst; auto; try lia.
  all: try (left; lia); try (right; right; lia).
Qed.

Lemma lex_lt_irrefl a : ~ lex_lt a a.
Proof. destruct a as [[? ?] ?]; cbn; lia. Qed.

Lemma ltb_trans x y z : ltb x y = true -> ltb y z = true -> ltb x z = true.
Proof.
  intros H1 H2.
  destruct (ltb_not_nan _ _ H1) as [Hx Hy], (ltb_not_nan _ _ H2) as [_ Hz].
  apply ltb_rank; auto. apply ltb_rank in H1, H2; auto.
  eapply lex_lt_trans; eauto.
Qed.

Lemma ltb_asym x y : ltb x y = true -> ltb y x = false.
Proof.
  intros H. destruct (ltb_not_nan _ _ H) as [Hx Hy].
  destruct (ltb y x) eqn:E; auto.
  apply ltb_rank in H, E; auto.
  exfalso. eapply lex_lt_irrefl, lex_lt_trans; eauto.
Qed.

(** [x < y], [z] is a number and not below [y]: then [x < z]. *)
Lemma ltb_below x y z :
  ltb x y = true -> ltb z y = false -> isNaN z = false -> ltb x z = true.
Proof.
  intros H1 H2 Hz. destruct (ltb_not_nan _ _ H1) as [Hx Hy].
  apply ltb_rank; auto. apply ltb_rank in H1; auto.
  destruct (lex_lt_total (rank z) (rank y)) as [H|[H|H]].
  - apply ltb_rank in H; auto. congruence.
  - now rewrite H.
  - eapply lex_lt_trans; eauto.
Qed.

Lemma digits2_pos_bounds (m : positive) :
  2 ^ (Z.pos (digits2_pos m) - 1) <= Z.pos m < 2 ^ Z.pos (digits2_pos m).
Proof.
  induction m as [p IH|p IH|]; cbn [digits2_pos].
  - rewrite Pos2Z.inj_succ, (Pos2Z.inj_xI p).
    replace (Z.succ (Z.pos (digits2_pos p)) - 1) with (Z.succ (Z.pos (digits2_pos p) - 1)) by lia.
    rewrite !Z.pow_succ_r by lia.
    destruct IH as [IH1 IH2]. revert IH1 IH2.
    generalize (2 ^ (Z.pos (digits2_pos p) - 1)) (2 ^ Z.pos (digits2_pos p)). lia.
  - rewrite Pos2Z.inj_succ, (Pos2Z.inj_xO p).
    replace (Z.succ (Z.pos (digits2_pos p)) - 1) with (Z.succ (Z.pos (digits2_pos p) - 1)) by lia.
    rewrite !Z.pow_succ_r by lia.
    destruct IH as [IH1 IH2]. revert IH1 IH2.
    generalize (2 ^ (Z.pos (digits2_pos p) - 1)) (2 ^ Z.pos (digits2_pos p)). lia.
  - cbn. lia.
Qed.

Lemma shr_1_m (r : shr_record) : 0 <= shr_m r -> shr_m (shr_1 r) = shr_m r / 2.
Proof.
  destruct r as [m r s]; cbn [shr_m shr_1]. intros Hm.
  destruct m as [|[p|p|]|p]; cbn [shr_m]; try lia; try reflexivity.
  - rewrite (Pos2Z.inj_xI p). apply Z.div_unique with 1; lia.
  - rewrite (Pos2Z.inj_xO p). apply Z.div_unique with 0; lia.
Qed.

Lemma iter_shr_m (p : positive) : forall r : shr_record,
  0 <= shr_m r ->
  shr_m (iter_pos shr_1 p r) = shr_m r / 2 ^ Z.pos p.
Proof.
  induction p as [p IH|p IH|]; intros r Hr; cbn [iter_pos].
  - assert (H1 : 0 <= shr_m (shr_1 r)) by (rewrite shr_1_m by auto; apply Z.div_pos; lia).
    assert (H2 : 0 <= shr_m (iter_pos shr_1 p (shr_1 r)))
      by (rewrite IH by auto; apply Z.div_pos; [auto | apply Z.pow_pos_nonneg; lia]).
    rewrite IH, IH, shr_1_m by auto.
    rewrite !Z.div_div by (try apply Z.pow_pos_nonneg; lia).
    f_equal. rewrite (Pos2Z.inj_xI p).
    replace (2 * Z.pos p + 1) with (1 + Z.pos p + Z.pos p) by lia.
    rewrite !Z.pow_add_r by lia. lia.
  - assert (H2 : 0 <= shr_m (iter_pos shr_1 p r))
      by (rewrite IH by auto; apply Z.div_pos; [auto | apply Z.pow_pos_nonneg; lia]).
    rewrite IH, IH by auto.
    rewrite !Z.div_div by (try apply Z.pow_pos_nonneg; lia).
    f_equal. rewrite (Pos2Z.inj_xO p).
    replace (2 * Z.pos p) with (Z.pos p + Z.pos p) by lia.
    rewrite !Z.pow_add_r by lia. lia.
  - rewrite shr_1_m by auto. reflexivity.
Qed.

Lemma fexp_eq (e : Z) : fexp prec emax e = Z.max (e - 53) emin.
Proof. reflexivity. Qed.

Lemma shr_record_of_loc_m m l : shr_m (shr_record_of_loc m l) = m.
Proof. destruct l as [|[]]; reflexivity. Qed.

(** Rounding a positive mantissa whose exponent is not below [emin] never
    reaches zero. *)
Lemma shr_fexp_pos (m : positive) (e : Z) (l : location) :
  emin <= e ->
  0 < shr_m (fst (shr_fexp prec emax (Z.pos m) e l))
  /\ emin <= snd (shr_fexp prec emax (Z.pos m) e l).
Proof.
  intros He. unfold shr_fexp, shr. cbn [Zdigits2]. rewrite fexp_eq.
  pose proof (digits2_pos_bounds m) as Hd.
  set (d := Z.pos (digits2_pos m)) in *.
  destruct (Z.max (d + e - 53) emin - e) as [|p|p] eqn:En; cbn [fst snd];
    rewrite ?shr_record_of_loc_m; try lia.
  rewrite iter_shr_m by (rewrite shr_record_of_loc_m; lia).
  rewrite shr_record_of_loc_m.
  assert (Hp : Z.pos p = d - 53) by lia.
  split; [|lia].
  apply Z.lt_le_trans with (2 ^ 52); [reflexivity|].
  apply Z.div_le_lower_bound; [apply Z.pow_pos_nonneg; lia|].
  rewrite <- Z.pow_add_r by lia.
  replace (Z.pos p + 52) with (d - 1) by lia. lia.
Qed.

Lemma binary_round_aux_sign (s : bool) (m : positive) (e : Z) (l : location) :
  emin <= e -> has_sign s (binary_round_aux prec emax s (Z.pos m) e l).
Proof.
  intros He. unfold binary_round_aux.
  destruct (shr_fexp_pos m e l He) as [Hm1 He1].
  destruct (shr_fexp prec emax (Z.pos m) e l) as [r1 e1]; cbn [fst snd] in *.
  assert (Hr : 0 < round_nearest_even (shr_m r1) (loc_of_shr_record r1)).
  { unfold round_nearest_even.
    destruct (loc_of_shr_record r1) as [|[]]; try lia.
    destruct (Z.even (shr_m r1)); lia. }
  destruct (round_nearest_even (shr_m r1) (loc_of_shr_record r1)) as [|m2|m2]; try lia.
  destruct (shr_fexp_pos m2 e1 loc_Exact He1) as [Hm2 He2].
  destruct (shr_fexp prec emax (Z.pos m2) e1 loc_Exact) as [r2 e2]; cbn [fst snd] in *.
  destruct (shr_m r2); try lia.
  destruct (Z.leb e2 (emax - prec)); reflexivity.
Qed.

Lemma shl_align_exp (m : positive) (e e' : Z) :
  emin <= e -> emin <= e' -> emin <= snd (shl_align m e e').
Proof. unfold shl_align. destruct (e' - e); cbn; lia. Qed.

Lemma binary_round_sign (s : bool) (m : positive) (e : Z) :
  emin <= e -> has_sign s (binary_round prec emax s m e).
Proof.
  intros He. unfold binary_round.
  pose proof (shl_align_exp m e (fexp prec emax (Z.pos (digits2_pos m) + e)) He) as H.
  destruct (shl_align m e _) as [mz ez]; cbn [snd] in H.
  apply binary_round_aux_sign, H. rewrite fexp_eq. lia.
Qed.

Lemma shl_align_value (m : positive) (e e' : Z) :
  e' <= e -> Z.pos (fst (shl_align m e e')) = Z.pos m * 2 ^ (e - e').
Proof.
  intros H. unfold shl_align.
  destruct (e' - e) as [|p|p] eqn:E; cbn [fst]; try lia.
  - replace (e - e') with 0 by lia. lia.
  - rewrite (Pos.iter_swap_gen _ _ Z.pos xO (Z.mul 2)) by reflexivity.
    change (Pos.iter (Z.mul 2) (Z.pos m) p) with (Z.shiftl (Z.pos m) (Z.pos p)).
    rewrite Z.shiftl_mul_pow2 by lia. f_equal. f_equal. lia.
Qed.

Lemma valid_bounds (s : bool) (m : positive) (e : Z) :
  valid (S754_finite s m e) ->
  emin <= e /\ Z.pos m < 2 ^ 53 /\ (emin < e -> 2 ^ 52 <= Z.pos m).
Proof.
  unfold valid, valid_binary, bounded, canonical_mantissa.
  rewrite fexp_eq. intros H. apply andb_prop in H. destruct H as [H _].
  apply Z.eqb_eq in H.
  pose proof (digits2_pos_bounds m) as [Hlo Hhi].
  set (d := Z.pos (digits2_pos m)) in *.
  split; [lia|]. split.
  - apply Z.lt_le_trans with (2 ^ d); auto.
    apply Z.pow_le_mono_r; lia.
  - intros He. replace 52 with (d - 1) by lia. exact Hlo.
Qed.

(** Two valid magnitudes compare as their exponents, then mantissas. *)
Lemma magnitude_lt (s1 s2 : bool) (m1 m2 : positive) (e1 e2 : Z) :
  valid (S754_finite s1 m1 e1) -> valid (S754_finite s2 m2 e2) ->
  Z.pos m1 * 2 ^ (e1 - Z.min e1 e2) < Z.pos m2 * 2 ^ (e2 - Z.min e1 e2)
  <-> e1 < e2 \/ (e1 = e2 /\ Z.pos m1 < Z.pos m2).
Proof.
  intros V1 V2.
  destruct (valid_bounds _ _ _ V1) as (E1 & U1 & L1).
  destruct (valid_bounds _ _ _ V2) as (E2 & U2 & L2).
  destruct (Z.lt_total e1 e2) as [H|[H|H]].
  - rewrite Z.min_l by lia. replace (e1 - e1) with 0 by lia.
    assert (2 ^ 1 <= 2 ^ (e2 - e1)) by (apply Z.pow_le_mono_r; lia).
    assert (2 ^ 52 <= Z.pos m2) by (apply L2; lia).
    change (2 ^ 1) with 2 in *. change (2 ^ 0) with 1.
    split; [lia|]. intros _. nia.
  - subst e2. rewrite Z.min_id. replace (e1 - e1) with 0 by lia.
    change (2 ^ 0) with 1. lia.
  - rewrite Z.min_r by lia. replace (e2 - e2) with 0 by lia.
    assert (2 ^ 1 <= 2 ^ (e1 - e2)) by (apply Z.pow_le_mono_r; lia).
    assert (2 ^ 52 <= Z.pos m1) by (apply L1; lia).
    change (2 ^ 1) with 2 in *. change (2 ^ 0) with 1.
    split; [nia | lia].
Qed.

Lemma ltb_zero_normalize (D e : Z) :
  emin <= e ->
  ltb pzero (binary_normalize prec emax D e false) = (0 <? D).
Proof.
  intros He. destruct D as [|p|p]; cbn [binary_normalize]; try reflexivity.
  - pose proof (binary_round_sign false p e He) as H.
    destruct (binary_round prec emax false p e); cbn in H; try tauto; subst; reflexivity.
  - pose proof (binary_round_sign true p e He) as H.
    destruct (binary_round prec emax true p e); cbn in H; try tauto; subst; reflexivity.
Qed.

(** The sign of a difference is the order of its operands: no difference
    of two distinct numbers rounds to zero. *)
Lemma sub_positive (x y : number) :
  valid x -> valid y -> isNaN x = false -> isNaN y = false ->
  ltb pzero (sub x y) = ltb y x.
Proof.
  intros Vx Vy Nx Ny.
  destruct x as [sx|sx| |sx mx ex], y as [sy|sy| |sy my ey]; try discriminate;
    try (destruct sx, sy; reflexivity); try (destruct sx; reflexivity);
    try (destruct sy; reflexivity).
  unfold sub, SFsub.
  destruct (valid_bounds _ _ _ Vx) as (Ex & _), (valid_bounds _ _ _ Vy) as (Ey & _).
  rewrite ltb_zero_normalize by lia.
  rewrite !shl_align_value by lia.
  pose proof (magnitude_lt _ _ _ _ _ _ Vy Vx) as Hyx.
  pose proof (magnitude_lt _ _ _ _ _ _ Vx Vy) as Hxy.
  rewrite (Z.min_comm ey ex) in Hyx.
  assert (Px : 0 < Z.pos mx * 2 ^ (ex - Z.min ex ey))
    by (apply Z.mul_pos_pos; [lia | apply Z.pow_pos_nonneg; lia]).
  assert (Py : 0 < Z.pos my * 2 ^ (ey - Z.min ex ey))
    by (apply Z.mul_pos_pos; [lia | apply Z.pow_pos_nonneg; lia]).
  revert Hyx Hxy Px Py.
  generalize (Z.pos mx * 2 ^ (ex - Z.min ex ey)) (Z.pos my * 2 ^ (ey - Z.min ex ey)).
  intros X Y Hyx Hxy Px Py.
  apply eq_true_iff_eq.
  rewrite (ltb_rank (S754_finite sy my ey) (S754_finite sx mx ex)) by reflexivity.
  rewrite Z.ltb_lt.
  destruct sx, sy; cbn [cond_Zopp rank lex_lt]; lia.
Qed.

(** *** The numbers the model produces are binary64 values *)


Lemma pow2_pos (k : Z) : 0 <= k -> 0 < 2 ^ k.
Proof. intros. apply Z.pow_pos_nonneg; lia. Qed.

Lemma pow2_le (a b : Z) : 0 <= a <= b -> 2 ^ a <= 2 ^ b.
Proof. intros. apply Z.pow_le_mono_r; lia. Qed.

(** The number of binary digits is determined by the bounds. *)
Lemma digits2_unique (p : positive) (k : Z) :
  2 ^ (k - 1) <= Z.pos p < 2 ^ k -> Z.pos (digits2_pos p) = k.
Proof.
  intros [Hlo Hhi]. pose proof (digits2_pos_bounds p) as [Dlo Dhi].
  set (d := Z.pos (digits2_pos p)) in *.
  assert (0 < k).
  { destruct (Z.lt_total k 0) as [Hk|[Hk|Hk]]; auto.
    - rewrite (Z.pow_neg_r 2 k) in Hhi by lia. lia.
    - subst k. cbn in Hhi. lia. }
  destruct (Z.lt_total d k) as [Hk|[Hk|Hk]]; auto.
  - assert (2 ^ d <= 2 ^ (k - 1)) by (apply pow2_le; lia). lia.
  - assert (2 ^ k <= 2 ^ (d - 1)) by (apply pow2_le; lia). lia.
Qed.

Lemma Zdigits2_nonneg (m : Z) : 0 <= Zdigits2 m.
Proof. destruct m; cbn; lia. Qed.

Lemma Zdigits2_bounds (m : Z) :
  0 < m -> 2 ^ (Zdigits2 m - 1) <= m < 2 ^ Zdigits2 m.
Proof. destruct m as [|p|p]; try lia. intros _. apply digits2_pos_bounds. Qed.

Lemma Zdigits2_unique (m k : Z) :
  2 ^ (k - 1) <= m < 2 ^ k -> 0 < m -> Zdigits2 m = k.
Proof. destruct m as [|p|p]; try lia. intros H _. now apply digits2_unique. Qed.

(** Dropping [n] low bits of a number of [d] digits. *)
Lemma Zdigits2_shr (m n : Z) :
  0 < m -> 0 <= n < Zdigits2 m ->
  0 < m / 2 ^ n /\ Zdigits2 (m / 2 ^ n) = Zdigits2 m - n.
Proof.
  intros Hm Hn. pose proof (Zdigits2_bounds m Hm) as [Dlo Dhi].
  set (d := Zdigits2 m) in *.
  pose proof (pow2_pos n (proj1 Hn)) as Hp.
  assert (Hlo : 2 ^ (d - n - 1) <= m / 2 ^ n).
  { apply Z.div_le_lower_bound; auto.
    rewrite <- Z.pow_add_r by lia. replace (n + (d - n - 1)) with (d - 1) by lia. auto. }
  assert (Hhi : m / 2 ^ n < 2 ^ (d - n)).
  { apply Z.div_lt_upper_bound; auto.
    rewrite <- Z.pow_add_r by lia. replace (n + (d - n)) with d by lia. auto. }
  assert (0 < 2 ^ (d - n - 1)) by (apply pow2_pos; lia).
  split; [lia|]. apply Zdigits2_unique; [split; auto | lia].
Qed.

Lemma Zdigits2_shr_all (m n : Z) :
  0 <= m -> Zdigits2 m <= n -> m / 2 ^ n = 0.
Proof.
  intros Hm Hn. destruct (Z.eq_dec m 0) as [->|Hne].
  - apply Z.div_0_l. pose proof (Zdigits2_nonneg 0). pose proof (pow2_pos n). lia.
  - pose proof (Zdigits2_bounds m ltac:(lia)) as [Dlo Dhi].
    pose proof (Zdigits2_nonneg m).
    apply Z.div_small. split; [lia|].
    apply Z.lt_le_trans with (2 ^ Zdigits2 m); auto. apply pow2_le. lia.
Qed.

Lemma Zdigits2_shl (m k : Z) :
  0 < m -> 0 <= k -> Zdigits2 (m * 2 ^ k) = Zdigits2 m + k.
Proof.
  intros Hm Hk. pose proof (Zdigits2_bounds m Hm) as [Dlo Dhi].
  pose proof (pow2_pos k Hk) as Hp.
  assert (0 < Zdigits2 m).
  { destruct m; cbn; lia. }
  apply Zdigits2_unique; [|nia].
  replace (Zdigits2 m + k - 1) with (Zdigits2 m - 1 + k) by lia.
  rewrite !Z.pow_add_r by lia. split; nia.
Qed.

(** The first step of rounding: the mantissa is cut at the exponent the
    format gives to a number of its size. *)
Lemma shr_fexp_spec (m e : Z) (l : location) :
  0 <= m -> e <= fexp prec emax (Zdigits2 m + e) ->
  let E := fexp prec emax (Zdigits2 m + e) in
  snd (shr_fexp prec emax m e l) = E
  /\ shr_m (fst (shr_fexp prec emax m e l)) = m / 2 ^ (E - e).
Proof.
  intros Hm He E. unfold shr_fexp, shr. fold E.
  destruct (E - e) as [|p|p] eqn:En; cbn [fst snd]; try lia.
  - rewrite shr_record_of_loc_m. split; [lia|]. rewrite Z.pow_0_r. symmetry. apply Z.div_1_r.
  - rewrite iter_shr_m by (rewrite shr_record_of_loc_m; lia).
    rewrite shr_record_of_loc_m. split; [lia|reflexivity].
Qed.

Lemma shr_fexp_canon (m e : Z) (l : location) :
  0 <= m -> e <= fexp prec emax (Zdigits2 m + e) ->
  canon (shr_m (fst (shr_fexp prec emax m e l))) (snd (shr_fexp prec emax m e l)).
Proof.
  intros Hm He. destruct (shr_fexp_spec m e l Hm He) as [-> ->].
  pose proof (Zdigits2_nonneg m) as Hd.
  unfold canon. rewrite !fexp_eq in *.
  remember (Z.max (Zdigits2 m + e - 53) emin) as E eqn:HE.
  destruct (Z.eq_dec m 0) as [->|Hne].
  - left. change (Zdigits2 0) with 0 in *. split; [reflexivity | lia].
  - destruct (Z_lt_le_dec (E - e) (Zdigits2 m)) as [Hn|Hn].
    + right. destruct (Zdigits2_shr m (E - e)) as [Hpos Hdig]; lia.
    + left. split; [apply Zdigits2_shr_all; lia | lia].
Qed.

Lemma round_nearest_even_cases (m : Z) (l : location) :
  round_nearest_even m l = m \/ round_nearest_even m l = m + 1.
Proof.
  unfold round_nearest_even. destruct l as [|[]]; auto. destruct (Z.even m); auto.
Qed.

(** After rounding up the shape is kept, except that a full mantissa
    becomes [2^53], one digit too long. *)
Lemma canon_succ (m E : Z) :
  canon m E ->
  canon (m + 1) E \/ (m + 1 = 2 ^ 53 /\ fexp prec emax (53 + E) = E).
Proof.
  unfold canon. rewrite !fexp_eq. intros [[-> ->]|[Hm Hc]].
  - left. right. cbn. split; [lia|]. unfold emin. lia.
  - pose proof (Zdigits2_bounds m Hm) as [Dlo Dhi].
    set (d := Zdigits2 m) in *.
    assert (0 < d) by (destruct m; cbn in *; lia).
    destruct (Z_lt_le_dec (m + 1) (2 ^ d)) as [Hlt|Hge].
    + left. right. split; [lia|].
      rewrite (Zdigits2_unique (m + 1) d); [exact Hc | lia | lia].
    + assert (Hfull : m + 1 = 2 ^ d) by lia.
      destruct (Z.eq_dec d 53) as [Hd|Hd].
      * right. split; [congruence | lia].
      * left. right. split; [lia|].
        rewrite (Zdigits2_unique (m + 1) (d + 1)).
        -- lia.
        -- replace (d + 1 - 1) with d by lia. rewrite Z.pow_add_r by lia.
           change (2 ^ 1) with 2. lia.
        -- lia.
Qed.

Lemma valid_finite_canon (s : bool) (p : positive) (E : Z) :
  fexp prec emax (Zdigits2 (Z.pos p) + E) = E -> E <= emax - prec ->
  valid (S754_finite s p E).
Proof.
  intros Hc Hb. unfold valid, valid_binary, bounded, canonical_mantissa.
  cbn [Zdigits2] in Hc. rewrite Hc, Z.eqb_refl. cbn [andb]. now apply Z.leb_le.
Qed.

(** The result of rounding is a value of the format, provided the
    mantissa comes with at least as many digits as the format keeps. *)
Lemma binary_round_aux_valid (s : bool) (m e : Z) (l : location) :
  0 <= m -> e <= fexp prec emax (Zdigits2 m + e) ->
  valid (binary_round_aux prec emax s m e l).
Proof.
  intros Hm He. unfold binary_round_aux.
  pose proof (shr_fexp_canon m e l Hm He) as Hc1.
  destruct (shr_fexp prec emax m e l) as [r1 e1]; cbn [fst snd] in Hc1.
  assert (Hc2 : canon (round_nearest_even (shr_m r1) (loc_of_shr_record r1)) e1
                \/ (round_nearest_even (shr_m r1) (loc_of_shr_record r1) = 2 ^ 53
                    /\ fexp prec emax (53 + e1) = e1)).
  { destruct (round_nearest_even_cases (shr_m r1) (loc_of_shr_record r1)) as [-> | ->].
    - now left.
    - now apply canon_succ. }
  set (m2 := round_nearest_even (shr_m r1) (loc_of_shr_record r1)) in *.
  clearbody m2. clear Hc1.
  destruct Hc2 as [Hc|[-> Hc]].
  - assert (Hm2 : 0 <= m2) by (destruct Hc as [[-> _]|[? _]]; lia).
    assert (He1 : fexp prec emax (Zdigits2 m2 + e1) = e1).
    { destruct Hc as [[-> ->]|[_ Hc]]; auto. }
    destruct (shr_fexp_spec m2 e1 loc_Exact Hm2) as [Hs1 Hs2]; [lia|].
    destruct (shr_fexp prec emax m2 e1 loc_Exact) as [r2 e2]; cbn [fst snd] in *.
    rewrite He1 in Hs1, Hs2. subst e2.
    replace (e1 - e1) with 0 in Hs2 by lia. rewrite Z.pow_0_r, Z.div_1_r in Hs2.
    rewrite Hs2. destruct m2 as [|p|p]; try lia; try reflexivity.
    destruct (Z.leb e1 (emax - prec)) eqn:Hb; [|reflexivity].
    apply valid_finite_canon; auto. now apply Z.leb_le.
  - change (Zdigits2 (2 ^ 53)) with 54 in *.
    rewrite fexp_eq in Hc.
    assert (He1 : fexp prec emax (Zdigits2 (2 ^ 53) + e1) = e1 + 1).
    { change (Zdigits2 (2 ^ 53)) with 54. rewrite fexp_eq. lia. }
    destruct (shr_fexp_spec (2 ^ 53) e1 loc_Exact) as [Hs1 Hs2]; [lia|lia|].
    destruct (shr_fexp prec emax (2 ^ 53) e1 loc_Exact) as [r2 e2]; cbn [fst snd] in *.
    rewrite He1 in Hs1, Hs2. subst e2.
    replace (e1 + 1 - e1) with 1 in Hs2 by lia.
    change (2 ^ 53 / 2 ^ 1) with (Z.pos (Z.to_pos (2 ^ 52))) in Hs2.
    rewrite Hs2.
    destruct (Z.leb (e1 + 1) (emax - prec)) eqn:Hb; [|reflexivity].
    apply valid_finite_canon; [|now apply Z.leb_le].
    change (Zdigits2 (Z.pos (Z.to_pos (2 ^ 52)))) with 53. rewrite fexp_eq. lia.
Qed.

Lemma binary_round_valid (s : bool) (m : positive) (e : Z) :
  valid (binary_round prec emax s m e).
Proof.
  unfold binary_round.
  pose proof (digits2_pos_bounds m) as Hd.
  set (d := Z.pos (digits2_pos m)) in *.
  destruct (Z_lt_le_dec (fexp prec emax (d + e)) e) as [Hlt|Hge].
  - pose proof (shl_align_value m e (fexp prec emax (d + e)) ltac:(lia)) as Hv.
    assert (Hx : snd (shl_align m e (fexp prec emax (d + e))) = fexp prec emax (d + e)).
    { unfold shl_align. destruct (fexp prec emax (d + e) - e) eqn:E; try lia. reflexivity. }
    destruct (shl_align m e (fexp prec emax (d + e))) as [mz ez]; cbn [fst snd] in *.
    subst ez. apply binary_round_aux_valid; [lia|].
    rewrite Hv, Zdigits2_shl by lia. change (Zdigits2 (Z.pos m)) with d.
    replace (d + (e - fexp prec emax (d + e)) + fexp prec emax (d + e)) with (d + e) by lia.
    lia.
  - assert (Hx : shl_align m e (fexp prec emax (d + e)) = (m, e)).
    { unfold shl_align. destruct (fexp prec emax (d + e) - e) eqn:E; try lia; reflexivity. }
    rewrite Hx. apply binary_round_aux_valid; [lia|]. exact Hge.
Qed.

Lemma of_Z_valid (z : Z) : valid (of_Z z).
Proof.
  unfold of_Z, binary_normalize. destruct z; [reflexivity| |]; apply binary_round_valid.
Qed.


Lemma fexp_mono (a b : Z) : a <= b -> fexp prec emax a <= fexp prec emax b.
Proof. rewrite !fexp_eq. lia. Qed.

Lemma Zdigits2_lower (q k : Z) : 0 <= k -> 2 ^ k <= q -> k < Zdigits2 q.
Proof.
  intros Hk Hq. pose proof (pow2_pos k Hk).
  pose proof (Zdigits2_bounds q ltac:(lia)) as [_ Hhi].
  destruct (Z_lt_le_dec k (Zdigits2 q)) as [|Hle]; auto.
  pose proof (Zdigits2_nonneg q).
  assert (2 ^ Zdigits2 q <= 2 ^ k) by (apply pow2_le; lia). lia.
Qed.

(** The quotient that division hands to the rounding has enough digits. *)
Lemma SFdiv_core_binary_spec (m1 m2 : positive) (e1 e2 : Z) :
  let '(q, e', l) := SFdiv_core_binary prec emax (Z.pos m1) e1 (Z.pos m2) e2 in
  0 <= q /\ e' <= fexp prec emax (Zdigits2 q + e').
Proof.
  unfold SFdiv_core_binary. cbn [Zdigits2].
  pose proof (digits2_pos_bounds m1) as [L1 U1].
  pose proof (digits2_pos_bounds m2) as [L2 U2].
  set (d1 := Z.pos (digits2_pos m1)) in *. set (d2 := Z.pos (digits2_pos m2)) in *.
  set (X := d1 + e1 - (d2 + e2)).
  set (e' := Z.min (fexp prec emax X) (e1 - e2)).
  set (s := e1 - e2 - e').
  assert (Hs : 0 <= s) by (unfold s, e'; lia).
  set (m' := match s with Z.pos _ => Z.shiftl (Z.pos m1) s | 0 => Z.pos m1 | Z.neg _ => 0 end).
  assert (Hm' : m' = Z.pos m1 * 2 ^ s).
  { unfold m'. destruct s eqn:Es; try lia. apply Z.shiftl_mul_pow2. lia. }
  clearbody m'.
  pose proof (Z.div_eucl_eq m' (Z.pos m2) ltac:(lia)) as Heq.
  pose proof (Z.mod_pos_bound m' (Z.pos m2) ltac:(lia)) as Hr.
  unfold Z.modulo in Hr.
  assert (Hq : fst (Z.div_eucl m' (Z.pos m2)) = m' / Z.pos m2) by reflexivity.
  destruct (Z.div_eucl m' (Z.pos m2)) as [q r]. cbn [fst] in Hq.
  pose proof (pow2_pos s Hs) as Hps.
  assert (Hq0 : 0 <= q).
  { rewrite Hq. apply Z.div_pos; nia. }
  split; auto.
  destruct (Z_le_gt_dec e' emin) as [Hle|Hgt].
  - rewrite fexp_eq. lia.
  - assert (HX : e' + 53 <= X).
    { unfold e' in Hgt |- *. rewrite fexp_eq in *. lia. }
    assert (Hd12 : d1 + s - d2 = X - e') by (unfold s, X; lia).
    assert (Hk : 2 ^ (X - e' - 1) <= q).
    { rewrite Hq. apply Z.div_le_lower_bound; [lia|].
      rewrite Hm'.
      apply Z.le_trans with (2 ^ d2 * 2 ^ (X - e' - 1)).
      - apply Z.mul_le_mono_nonneg_r; [apply Z.lt_le_incl, pow2_pos; lia | lia].
      - rewrite <- Z.pow_add_r by (unfold d2; lia).
        replace (d2 + (X - e' - 1)) with (d1 - 1 + s) by lia.
        rewrite Z.pow_add_r by (unfold d1; lia).
        apply Z.mul_le_mono_nonneg_r; lia. }
    pose proof (Zdigits2_lower q (X - e' - 1) ltac:(lia) Hk) as Hdq.
    apply Z.le_trans with (fexp prec emax X).
    + unfold e'. lia.
    + apply fexp_mono. lia.
Qed.

Lemma of_decimal_valid (neg : bool) (m e : Z) : valid (of_decimal neg m e).
Proof.
  unfold of_decimal. destruct m as [|p|p]; try reflexivity.
  destruct (0 <=? e).
  - apply binary_round_valid.
  - unfold SFdiv.
    pose proof (SFdiv_core_binary_spec p (Z.to_pos (10 ^ (- e))) 0 0) as H.
    destruct (SFdiv_core_binary prec emax (Z.pos p) 0 (Z.pos (Z.to_pos (10 ^ (- e)))) 0)
      as [[q e'] l].
    destruct H. now apply binary_round_aux_valid.
Qed.

Lemma stringToNumber_valid (s : string) : valid (stringToNumber s).
Proof.
  unfold stringToNumber. destruct (trimStart s) as [|c r]; [reflexivity|].
  set (t := String c r). clearbody t.
  assert (Hnd : forall x rest, scan_non_decimal t = Some (x, rest) -> valid x).
  { unfold scan_non_decimal. intros x rest.
    destruct t as [|z [|x' r']]; try discriminate.
    destruct (byte z =? 48); [|discriminate].
    destruct (_ =? 0); [discriminate|].
    destruct (scan_radix _ r' 0 0) as [[v n] rest'].
    destruct (n =? 0); [discriminate|]. intros [= <- _]. apply of_Z_valid. }
  assert (Hd : forall x rest, scan_decimal t = Some (x, rest) -> valid x).
  { unfold scan_decimal. intros x rest.
    destruct (scan_sign t) as [neg r0].
    destruct (scan_unsigned_decimal r0) as [[lit rest']|]; [|discriminate].
    intros [= <- _]. destruct lit; cbn; [reflexivity|apply of_decimal_valid]. }
  destruct (scan_non_decimal t) as [[x rest]|].
  - destruct (is_blank rest); [eapply Hnd; eauto | reflexivity].
  - destruct (scan_decimal t) as [[x rest]|]; [|reflexivity].
    destruct (is_blank rest); [eapply Hd; eauto | reflexivity].
Qed.

End JSFacts.

(** ** SameValueZero is an equivalence *)

Lemma num_sameValueZero_refl (x : JS.number) : JS.num_sameValueZero x x = true.
Proof.
  destruct x as [s|s| |s m e]; cbn; auto.
  - apply Bool.eqb_reflx.
  - now rewrite Bool.eqb_reflx, Pos.eqb_refl, Z.eqb_refl.
Qed.

Lemma num_sameValueZero_sym (x y : JS.number) :
  JS.num_sameValueZero x y = JS.num_sameValueZero y x.
Proof.
  destruct x as [s|s| |s m e], y as [s'|s'| |s' m' e']; cbn; auto.
  - now destruct s, s'.
  - rewrite (Pos.eqb_sym m), (Z.eqb_sym e). now destruct s, s'.
Qed.

Lemma num_sameValueZero_trans (x y z : JS.number) :
  JS.num_sameValueZero x y = true -> JS.num_sameValueZero y z = true ->
  JS.num_sameValueZero x z = true.
Proof.
  destruct x as [s|s| |s m e], y as [s'|s'| |s' m' e'], z as [t|t| |t n f];
    cbn; try discriminate; auto.
  - rewrite !Bool.eqb_true_iff. congruence.
  - rewrite !andb_true_iff, !Bool.eqb_true_iff, !Pos.eqb_eq, !Z.eqb_eq.
    intuition congruence.
Qed.

Lemma sameValueZero_refl (k : CellValue) : sameValueZero k k = true.
Proof.
  destruct k; cbn; auto using num_sameValueZero_refl. apply String.eqb_refl.
Qed.

Lemma sameValueZero_sym (a b : CellValue) : sameValueZero a b = sameValueZero b a.
Proof.
  destruct a, b; cbn; auto using num_sameValueZero_sym. apply String.eqb_sym.
Qed.

Lemma sameValueZero_trans (a b c : CellValue) :
  sameValueZero a b = true -> sameValueZero b c = true -> sameValueZero a c = true.
Proof.
  destruct a, b, c; cbn; try discriminate; auto.
  - apply num_sameValueZero_trans.
  - rewrite !String.eqb_eq. congruence.
Qed.

(** Keys that are the same have the same number. *)
Lemma num_sameValueZero_ltb (x y z : JS.number) :
  JS.num_sameValueZero x y = true -> JS.ltb x z = JS.ltb y z /\ JS.ltb z x = JS.ltb z y.
Proof.
  destruct x as [s|s| |s m e], y as [s'|s'| |s' m' e']; cbn; try discriminate.
  - intros _. split; destruct z as [| | |[] ? ?]; reflexivity.
  - rewrite Bool.eqb_true_iff. intros ->. auto.
  - auto.
  - rewrite !andb_true_iff, !Bool.eqb_true_iff, !Pos.eqb_eq, !Z.eqb_eq.
    intros [[-> ->] ->]. auto.
Qed.

(** ** Objects *)

Lemma Obj_get_set_same (row : TableRow) (k : string) (c : CellData) :
  Obj.get (Obj.set row k c) k = Some c.
Proof.
  induction row as [|[k' c'] rest IH]; cbn.
  - now rewrite String.eqb_refl.
  - destruct (String.eqb k' k) eqn:E; cbn; rewrite E; auto.
Qed.

Lemma Obj_get_set_other (row : TableRow) (k k2 : string) (c : CellData) :
  k <> k2 -> Obj.get (Obj.set row k c) k2 = Obj.get row k2.
Proof.
  intros Hne. induction row as [|[k' c'] rest IH]; cbn.
  - apply String.eqb_neq in Hne. now rewrite Hne.
  - destruct (String.eqb k' k) eqn:E; cbn.
    + apply String.eqb_eq in E. subst k'.
      apply String.eqb_neq in Hne. now rewrite Hne.
    + now rewrite IH.
Qed.

Lemma Obj_set_get_id (row : TableRow) (k : string) (c : CellData) :
  Obj.get row k = Some c -> Obj.set row k c = row.
Proof.
  induction row as [|[k' c'] rest IH]; cbn; [discriminate|].
  destruct (String.eqb k' k) eqn:E.
  - now intros [= ->].
  - intros H. now rewrite IH.
Qed.

Lemma Obj_get_keys (row : TableRow) (k : string) :
  existsb (String.eqb k) (Obj.keys row) = false -> Obj.get row k = None.
Proof.
  induction row as [|[k' c'] rest IH]; cbn; auto.
  rewrite (String.eqb_sym k k'). destruct (String.eqb k' k); cbn; auto. discriminate.
Qed.

Lemma mergeCell_get (newRow mergedRow : TableRow) (cellKey column : string) :
  Obj.get (mergeCell newRow mergedRow cellKey) column =
  if String.eqb column cellKey then mergedCell mergedRow newRow column
  else Obj.get mergedRow column.
Proof.
  unfold mergeCell, mergedCell.
  destruct (String.eqb column cellKey) eqn:E.
  - apply String.eqb_eq in E. subst cellKey.
    destruct (Obj.get newRow column) as [c|]; auto.
    destruct (value c); auto using Obj_get_set_same.
  - apply String.eqb_neq in E.
    destruct (Obj.get newRow cellKey) as [c|]; auto.
    destruct (value c); auto; apply Obj_get_set_other; congruence.
Qed.

Lemma mergeCells_get (newRow : TableRow) (column : string) (ks : list string) :
  forall mergedRow,
  Obj.get (fold_left (mergeCell newRow) ks mergedRow) column =
  if existsb (String.eqb column) ks then mergedCell mergedRow newRow column
  else Obj.get mergedRow column.
Proof.
  induction ks as [|k ks IH]; intros mergedRow; cbn [fold_left existsb]; auto.
  rewrite IH. unfold mergedCell at 1. rewrite !mergeCell_get.
  destruct (String.eqb column k) eqn:E; cbn [orb].
  - unfold mergedCell.
    destruct (Obj.get newRow column) as [c|]; [destruct (value c)|];
      destruct (existsb (String.eqb column) ks); reflexivity.
  - destruct (existsb (String.eqb column) ks); reflexivity.
Qed.

Lemma mergeRow_get (existingRow newRow : TableRow) (column : string) :
  Obj.get (mergeRow existingRow newRow) column = mergedCell existingRow newRow column.
Proof.
  unfold mergeRow. rewrite mergeCells_get.
  destruct (existsb (String.eqb column) (Obj.keys newRow)) eqn:E; auto.
  unfold mergedCell. now rewrite (Obj_get_keys _ _ E).
Qed.

Lemma mergeCells_self (row : TableRow) (ks : list string) :
  fold_left (mergeCell row) ks row = row.
Proof.
  induction ks as [|k ks IH]; cbn [fold_left]; auto.
  replace (mergeCell row row k) with row; auto.
  unfold mergeCell. destruct (Obj.get row k) as [c|] eqn:E; auto.
  destruct (value c); auto; symmetry; now apply Obj_set_get_id.
Qed.

Lemma mergeRow_self (row : TableRow) : mergeRow row row = row.
Proof. apply mergeCells_self. Qed.

(** ** Maps *)

#[export] Instance num_sameValueZero_equiv : KeyEquivalence JS.num_sameValueZero :=
  {| same_refl := num_sameValueZero_refl;
     same_sym := num_sameValueZero_sym;
     same_trans := num_sameValueZero_trans |}.

#[export] Instance sameValueZero_equiv : KeyEquivalence sameValueZero :=
  {| same_refl := sameValueZero_refl;
     same_sym := sameValueZero_sym;
     same_trans := sameValueZero_trans |}.

Section MapFacts.
Context {K V : Type}.
Context (same : K -> K -> bool) `{!KeyEquivalence same}.

Local Abbreviation get := (JSMap.get same).
Local Abbreviation set := (JSMap.set same).
Local Abbreviation has := (JSMap.has same).

Lemma same_congr (a b c : K) : same a b = true -> same a c = same b c.
Proof.
  intros H. destruct (same b c) eqn:E.
  - eapply same_trans; eauto.
  - destruct (same a c) eqn:E'; auto.
    rewrite same_sym in H. rewrite <- E. symmetry. eapply same_trans; eauto.
Qed.

Lemma get_set_same (m : list (K * V)) (k k2 : K) (v : V) :
  same k k2 = true -> get (set m k v) k2 = Some v.
Proof.
  intros H. induction m as [|[k' v'] rest IH]; cbn.
  - now rewrite H.
  - destruct (same k' k) eqn:E; cbn.
    + now rewrite (same_congr k' k k2 E), H.
    + rewrite (same_sym k' k2), <- (same_congr k k2 k' H), (same_sym k k'), E. exact IH.
Qed.

Lemma get_set_other (m : list (K * V)) (k k2 : K) (v : V) :
  same k k2 = false -> get (set m k v) k2 = get m k2.
Proof.
  intros H. induction m as [|[k' v'] rest IH]; cbn.
  - now rewrite H.
  - destruct (same k' k) eqn:E; cbn.
    + now rewrite (same_congr k' k k2 E), H.
    + now rewrite IH.
Qed.

Lemma get_congr (m : list (K * V)) (k k2 : K) :
  same k k2 = true -> get m k = get m k2.
Proof.
  intros H. induction m as [|[k' v'] rest IH]; cbn; auto.
  rewrite (same_sym k' k), (same_sym k' k2), (same_congr k k2 k' H).
  now rewrite IH.
Qed.

Lemma has_set (m : list (K * V)) (k k2 : K) (v : V) :
  has (set m k v) k2 = same k k2 || has m k2.
Proof.
  unfold JSMap.has. destruct (same k k2) eqn:E.
  - now rewrite get_set_same.
  - now rewrite get_set_other.
Qed.

(** The entries of [set m k v]: the old ones, except that the entry of
    [k] now holds [v]. *)
Lemma set_Forall (P : K * V -> Prop) (m : list (K * V)) (k : K) (v : V) :
  Forall P m -> (forall k', same k' k = true -> P (k', v)) -> Forall P (set m k v).
Proof.
  intros Hm Hv. induction Hm as [|[k' v'] rest Hx Hrest IH]; cbn.
  - constructor; auto. apply Hv, same_refl.
  - destruct (same k' k) eqn:E; constructor; auto.
Qed.

Lemma set_In (m : list (K * V)) (k : K) (v : V) (e : K * V) :
  In e (set m k v) -> In e m \/ (snd e = v /\ same (fst e) k = true).
Proof.
  induction m as [|[k' v'] rest IH]; cbn.
  - intros [<-|[]]. right. cbn. auto using same_refl.
  - destruct (same k' k) eqn:E; cbn.
    + intros [<-|H]; auto.
    + intros [<-|H]; auto. destruct (IH H); auto.
Qed.

Lemma set_distinctKeys (m : list (K * V)) (k : K) (v : V) :
  distinctKeys same m -> distinctKeys same (set m k v).
Proof.
  intros H. induction H as [|[k' v'] rest Hx Hrest IH]; cbn.
  - repeat constructor.
  - destruct (same k' k) eqn:E.
    + constructor; auto.
    + constructor; auto.
      apply Forall_forall. intros e He.
      destruct (set_In _ _ _ _ He) as [Hin|[_ Hk]].
      * rewrite Forall_forall in Hx. auto.
      * cbn. rewrite (same_sym k' (fst e)), (same_congr _ _ k' Hk), same_sym. exact E.
Qed.

Lemma entriesAt_none (m : list (K * V)) (k : K) :
  Forall (fun e => same k (fst e) = false) m -> entriesAt same m k = 0%nat /\ get m k = None.
Proof.
  unfold entriesAt. induction 1 as [|[k' v'] rest Hx Hrest [IH1 IH2]]; cbn; auto.
  cbn in Hx. rewrite same_sym in Hx. rewrite Hx. auto.
Qed.

Lemma entriesAt_distinct (m : list (K * V)) (k : K) :
  distinctKeys same m -> entriesAt same m k = if has m k then 1%nat else 0%nat.
Proof.
  unfold JSMap.has.
  induction 1 as [|[k' v'] rest Hx Hrest IH]; cbn; auto.
  unfold entriesAt in *. cbn. destruct (same k' k) eqn:E; cbn; auto.
  f_equal. apply entriesAt_none.
  eapply Forall_impl; [|exact Hx]. cbn. intros e He.
  rewrite same_sym in E. now rewrite (same_congr _ _ _ E).
Qed.

Lemma get_In (m : list (K * V)) (k : K) (v : V) :
  get m k = Some v -> exists k', In (k', v) m /\ same k' k = true.
Proof.
  induction m as [|[k' v'] rest IH]; cbn; [discriminate|].
  destruct (same k' k) eqn:E.
  - intros [= ->]. eauto.
  - intros H. destruct (IH H) as (k2 & Hin & Hs). eauto.
Qed.
End MapFacts.

(** ** The insertion sort *)

Section SortFacts.
Context {A : Type}.
Variable comparator : A -> A -> JS.number.

Local Abbreviation after := (comes_after comparator).

Lemma insert_back_perm (x : A) (l : list A) :
  Permutation (insert_back comparator x l) (x :: l).
Proof.
  induction l as [|y rest IH]; cbn; auto.
  destruct (after y x); auto.
  eapply Permutation_trans; [apply perm_skip, IH | apply perm_swap].
Qed.

Lemma sort_fold_perm (l acc : list A) :
  Permutation (fold_left (fun prefix x => insert_back comparator x prefix) l acc)
              (l ++ acc).
Proof.
  revert acc. induction l as [|x l IH]; intros acc; cbn; auto.
  eapply Permutation_trans; [apply IH|].
  eapply Permutation_trans; [apply Permutation_app_head, insert_back_perm|].
  symmetry. apply Permutation_middle.
Qed.

Lemma sort_perm (l : list A) : Permutation (sort comparator l) l.
Proof.
  unfold sort.
  eapply Permutation_trans; [symmetry; apply Permutation_rev|].
  eapply Permutation_trans; [apply sort_fold_perm|].
  now rewrite app_nil_r.
Qed.

(** On elements that the comparator orders consistently the result is
    sorted.  [P] singles those elements out. *)
Variable P : A -> Prop.
Hypothesis after_asym :
  forall a b, P a -> P b -> after a b = true -> after b a = false.
Hypothesis not_after_trans :
  forall a b c, P a -> P b -> P c ->
  after a b = false -> after b c = false -> after a c = false.

(** The reversed prefix: every element is not after the ones before it. *)
Local Abbreviation descending := (StronglySorted (fun a b => after b a = false)).

Lemma insert_back_Forall (Q : A -> Prop) (x : A) (l : list A) :
  Q x -> Forall Q l -> Forall Q (insert_back comparator x l).
Proof.
  intros Hx Hl. eapply Permutation_Forall.
  - symmetry. apply insert_back_perm.
  - auto.
Qed.

Lemma insert_back_sorted (x : A) (l : list A) :
  P x -> Forall P l -> descending l -> descending (insert_back comparator x l).
Proof.
  intros Px Pl Hl. induction Hl as [|y rest Hrest IH Hy]; cbn.
  - repeat constructor.
  - inversion Pl as [|? ? Py Prest]; subst.
    destruct (after y x) eqn:E.
    + constructor; auto.
      apply insert_back_Forall; auto.
    + constructor; [constructor; auto|].
      constructor; auto.
      rewrite Forall_forall in Hy, Prest |- *.
      intros z Hz. eapply not_after_trans with (b := y); eauto.
Qed.

Lemma sort_fold_sorted (l acc : list A) :
  Forall P l -> Forall P acc -> descending acc ->
  descending (fold_left (fun prefix x => insert_back comparator x prefix) l acc).
Proof.
  revert acc. induction l as [|x l IH]; intros acc Hl Hacc Hs; cbn; auto.
  inversion Hl; subst. apply IH; auto.
  - apply insert_back_Forall; auto.
  - apply insert_back_sorted; auto.
Qed.

Lemma StronglySorted_snoc (R : A -> A -> Prop) (l : list A) (y : A) :
  StronglySorted R l -> Forall (fun z => R z y) l -> StronglySorted R (l ++ [y]).
Proof.
  induction 1 as [|z zs Hzs IH Hz]; cbn; intros Hy.
  - repeat constructor.
  - inversion Hy; subst. constructor; auto.
    apply Forall_app. split; auto.
Qed.

Lemma descending_rev (l : list A) :
  descending l -> StronglySorted (fun a b => after a b = false) (rev l).
Proof.
  induction 1 as [|y rest Hrest IH Hy]; cbn; [constructor|].
  apply StronglySorted_snoc; auto.
  rewrite Forall_forall in *. intros z Hz. apply Hy. now apply in_rev.
Qed.

Lemma sort_sorted (l : list A) :
  Forall P l -> StronglySorted (fun a b => after a b = false) (sort comparator l).
Proof.
  intros Hl. unfold sort. apply descending_rev.
  apply sort_fold_sorted; auto. constructor.
Qed.
End SortFacts.

(** A list that is already in order is left as it is. *)
Lemma sort_fold_id {A : Type} (comparator : A -> A -> JS.number) (l : list A) :
  forall acc,
  StronglySorted (fun a b => comes_after comparator a b = false) (rev acc ++ l) ->
  fold_left (fun prefix x => insert_back comparator x prefix) l acc = rev l ++ acc.
Proof.
  induction l as [|x l IH]; intros acc Hs; cbn; auto.
  assert (Hx : insert_back comparator x acc = x :: acc).
  { destruct acc as [|y rest]; cbn; auto.
    cbn in Hs. rewrite <- app_assoc in Hs. cbn in Hs.
    assert (H : comes_after comparator y x = false).
    { clear IH. induction (rev rest) as [|z zs IHz]; cbn in Hs.
      - inversion Hs as [|? ? _ Hy]; subst. now inversion Hy.
      - inversion Hs; subst. auto. }
    now rewrite H. }
  rewrite Hx, IH.
  - now rewrite <- app_assoc.
  - cbn. now rewrite <- app_assoc.
Qed.

Lemma sort_id {A : Type} (comparator : A -> A -> JS.number) (l : list A) :
  StronglySorted (fun a b => comes_after comparator a b = false) l ->
  sort comparator l = l.
Proof.
  intros Hs. unfold sort. rewrite sort_fold_id by exact Hs.
  now rewrite app_nil_r, rev_involutive.
Qed.

(** ** The row reconciler *)

Lemma mergeBarrelData_main (existingData newData : BarrelData) (pk : string) :
  newData <> [] -> primaryKeyOf existingData = Some pk ->
  mergeBarrelData existingData newData =
  sort (compareRows pk) (JSMap.values (mergedDataMap pk existingData newData)).
Proof.
  intros Hn Hpk. unfold mergeBarrelData, primaryKeyOf in *.
  destruct newData as [|n newData]; [congruence|].
  destruct existingData as [|first rest]; [discriminate|].
  destruct (Obj.keys first) as [|k ks]; [discriminate|].
  destruct (String.eqb k ""); [discriminate|]. now inversion Hpk.
Qed.

Lemma populate_eq (pk : string) (m : list (CellValue * TableRow)) (row : TableRow) :
  populate pk m row =
  match rowKey pk row with
  | Some key => JSMap.set sameValueZero m key row
  | None => m
  end.
Proof.
  unfold populate, rowKey. destruct (Obj.get row pk) as [c|]; auto.
  destruct (value c); auto.
Qed.

Lemma mergeNewRow_eq (pk : string) (m : list (CellValue * TableRow)) (newRow : TableRow) :
  mergeNewRow pk m newRow =
  match rowKey pk newRow with
  | Some key =>
      match JSMap.get sameValueZero m key with
      | Some existingRow =>
          JSMap.set sameValueZero m key (mergeRow existingRow newRow)
      | None => JSMap.set sameValueZero m key newRow
      end
  | None => m
  end.
Proof.
  unfold mergeNewRow, rowKey. destruct (Obj.get newRow pk) as [c|]; auto.
  destruct (value c); auto.
Qed.

(** A merged row carries the key cell of the new row. *)
Lemma mergeRow_key_cell (pk : string) (existingRow newRow : TableRow) (k : CellValue) :
  rowKey pk newRow = Some k ->
  Obj.get (mergeRow existingRow newRow) pk = Obj.get newRow pk.
Proof.
  unfold rowKey. rewrite mergeRow_get. unfold mergedCell.
  destruct (Obj.get newRow pk) as [c|]; [|discriminate].
  destruct (value c); [auto|auto|discriminate].
Qed.

Lemma rowKey_ext (pk : string) (a b : TableRow) :
  Obj.get a pk = Obj.get b pk -> rowKey pk a = rowKey pk b.
Proof. unfold rowKey. now intros ->. Qed.

Lemma hasKey_ext (pk : string) (k : CellValue) (a b : TableRow) :
  Obj.get a pk = Obj.get b pk -> hasKey pk k a = hasKey pk k b.
Proof. intros H. unfold hasKey. now rewrite (rowKey_ext _ _ _ H). Qed.

Lemma keyNumber_ext (pk : string) (a b : TableRow) :
  Obj.get a pk = Obj.get b pk -> keyNumber pk a = keyNumber pk b.
Proof. unfold keyNumber. now intros ->. Qed.

(** One step of either loop puts a row under its key: the row itself, or
    the row merged into the one that was there. *)
Lemma step_shape (pk : string) (m : list (CellValue * TableRow)) (row : TableRow)
    (step : list (CellValue * TableRow) -> TableRow -> list (CellValue * TableRow)) :
  step = populate pk \/ step = mergeNewRow pk ->
  match rowKey pk row with
  | Some key =>
      exists stored, step m row = JSMap.set sameValueZero m key stored
                     /\ Obj.get stored pk = Obj.get row pk
  | None => step m row = m
  end.
Proof.
  intros [-> | ->].
  - rewrite populate_eq. destruct (rowKey pk row); eauto.
  - rewrite mergeNewRow_eq. destruct (rowKey pk row) as [key|] eqn:E; auto.
    destruct (JSMap.get sameValueZero m key); eauto using mergeRow_key_cell.
Qed.

Section MergeFacts.
Variable pk : string.
Variable step : list (CellValue * TableRow) -> TableRow -> list (CellValue * TableRow).
Hypothesis step_is : step = populate pk \/ step = mergeNewRow pk.

Local Abbreviation has := (JSMap.has sameValueZero).

Lemma step_has (m : list (CellValue * TableRow)) (row : TableRow) (k : CellValue) :
  has (step m row) k = has m k || hasKey pk k row.
Proof.
  pose proof (step_shape pk m row step step_is) as H. unfold hasKey.
  destruct (rowKey pk row) as [key|].
  - destruct H as (stored & -> & _).
    rewrite has_set by exact _. apply orb_comm.
  - rewrite H. now rewrite orb_false_r.
Qed.

Lemma steps_has (rows : BarrelData) (k : CellValue) :
  forall m, has (fold_left step rows m) k = has m k || existsb (hasKey pk k) rows.
Proof.
  induction rows as [|row rows IH]; intros m; cbn [fold_left existsb].
  - now rewrite orb_false_r.
  - now rewrite IH, step_has, orb_assoc.
Qed.

Lemma step_inv (m : list (CellValue * TableRow)) (row : TableRow) :
  mapInv pk m -> mapInv pk (step m row).
Proof.
  intros [Hd Hk].
  pose proof (step_shape pk m row step step_is) as H.
  destruct (rowKey pk row) as [key|] eqn:E; [|rewrite H; split; auto].
  destruct H as (stored & -> & Hcell). split.
  - apply set_distinctKeys; auto; exact _.
  - apply set_Forall; auto; try exact _. intros k' Hk'. cbn.
    rewrite (hasKey_ext _ _ _ _ Hcell). unfold hasKey. rewrite E.
    now rewrite sameValueZero_sym.
Qed.

Lemma steps_inv (rows : BarrelData) :
  forall m, mapInv pk m -> mapInv pk (fold_left step rows m).
Proof.
  induction rows as [|row rows IH]; intros m Hm; cbn; auto using step_inv.
Qed.

(** A property of rows that only looks at the key cell holds of every
    stored row when it holds of every source row that has a key. *)
Lemma step_rows (Q : TableRow -> Prop) (m : list (CellValue * TableRow))
    (row : TableRow) :
  (forall a b, Obj.get a pk = Obj.get b pk -> Q b -> Q a) ->
  (rowKey pk row <> None -> Q row) ->
  Forall (fun e => Q (snd e)) m -> Forall (fun e => Q (snd e)) (step m row).
Proof.
  intros Hext Hrow Hm.
  pose proof (step_shape pk m row step step_is) as H.
  destruct (rowKey pk row) as [key|] eqn:E; [|now rewrite H].
  destruct H as (stored & -> & Hcell).
  apply set_Forall; auto; try exact _. intros k' _. cbn.
  apply (Hext _ _ Hcell). apply Hrow. discriminate.
Qed.

Lemma steps_rows (Q : TableRow -> Prop) (rows : BarrelData) :
  (forall a b, Obj.get a pk = Obj.get b pk -> Q b -> Q a) ->
  (forall row, In row rows -> rowKey pk row <> None -> Q row) ->
  forall m, Forall (fun e => Q (snd e)) m ->
            Forall (fun e => Q (snd e)) (fold_left step rows m).
Proof.
  intros Hext. induction rows as [|row rows IH]; intros Hrows m Hm; cbn; auto.
  apply IH.
  - intros r Hr. apply Hrows. now right.
  - apply step_rows; auto. apply Hrows. now left.
Qed.
End MergeFacts.

Lemma mergedDataMap_inv (pk : string) (existingData newData : BarrelData) :
  mapInv pk (mergedDataMap pk existingData newData).
Proof.
  unfold mergedDataMap.
  apply steps_inv; auto. apply steps_inv; auto.
  split; constructor.
Qed.

Lemma mergedDataMap_has (pk : string) (existingData newData : BarrelData) (k : CellValue) :
  JSMap.has sameValueZero (mergedDataMap pk existingData newData) k =
  existsb (hasKey pk k) (existingData ++ newData).
Proof.
  unfold mergedDataMap.
  rewrite (steps_has pk (mergeNewRow pk)), (steps_has pk (populate pk)) by auto.
  cbn. now rewrite existsb_app.
Qed.

Lemma mergedDataMap_rows (pk : string) (Q : TableRow -> Prop)
    (existingData newData : BarrelData) :
  (forall a b, Obj.get a pk = Obj.get b pk -> Q b -> Q a) ->
  (forall row, In row (existingData ++ newData) -> rowKey pk row <> None -> Q row) ->
  Forall Q (JSMap.values (mergedDataMap pk existingData newData)).
Proof.
  intros Hext Hrows. unfold JSMap.values. rewrite Forall_map.
  unfold mergedDataMap.
  apply (steps_rows pk (mergeNewRow pk)); auto.
  - intros r Hr. apply Hrows, in_or_app. now right.
  - apply (steps_rows pk (populate pk)); auto.
    intros r Hr. apply Hrows, in_or_app. now left.
Qed.

Lemma filter_length_perm {A : Type} (f : A -> bool) (l l' : list A) :
  Permutation l l' -> List.length (filter f l) = List.length (filter f l').
Proof.
  induction 1 as [|x l l' _ IH|x y l|l l' l'' _ IH1 _ IH2]; cbn; auto.
  - destruct (f x); cbn; auto.
  - destruct (f x), (f y); cbn; auto.
  - congruence.
Qed.

Lemma In_has {K V : Type} (same : K -> K -> bool) `{!KeyEquivalence same}
    (m : list (K * V)) (k : K) (v : V) :
  In (k, v) m -> JSMap.has same m k = true.
Proof.
  unfold JSMap.has. induction m as [|[k' v'] rest IH]; cbn; [tauto|].
  intros [[= -> ->]|H].
  - now rewrite same_refl.
  - destruct (same k' k); auto.
Qed.

Lemma get_app {K V : Type} (same : K -> K -> bool) (m m' : list (K * V)) (k : K) :
  JSMap.get same (m ++ m') k =
  match JSMap.get same m k with Some v => Some v | None => JSMap.get same m' k end.
Proof.
  induction m as [|[k' v'] rest IH]; cbn; auto. destruct (same k' k); auto.
Qed.

Lemma set_fresh {K V : Type} (same : K -> K -> bool) (m : list (K * V)) (k : K) (v : V) :
  JSMap.get same m k = None -> JSMap.set same m k v = m ++ [(k, v)].
Proof.
  induction m as [|[k' v'] rest IH]; cbn; auto.
  destruct (same k' k); [discriminate|]. intros H. now rewrite IH.
Qed.

Lemma set_get_id {K V : Type} (same : K -> K -> bool) (m : list (K * V)) (k : K) (v : V) :
  JSMap.get same m k = Some v -> JSMap.set same m k v = m.
Proof.
  induction m as [|[k' v'] rest IH]; cbn; [discriminate|].
  destruct (same k' k).
  - now intros [= ->].
  - intros H. now rewrite IH.
Qed.

Lemma Number_valid (v : CellValue) : validValue v -> JS.valid (Number v).
Proof.
  destruct v; cbn; auto.
  - intros _. apply JSFacts.stringToNumber_valid.
  - intros _. reflexivity.
Qed.

Lemma Obj_get_valid (row : TableRow) (k : string) (c : CellData) :
  validRow row -> Obj.get row k = Some c -> validValue (value c).
Proof.
  induction 1 as [|[k' c'] rest Hc _ IH]; cbn; [discriminate|].
  destruct (String.eqb k' k); auto. now intros [= <-].
Qed.

Lemma keyNumber_valid (pk : string) (row : TableRow) :
  validRow row -> JS.valid (keyNumber pk row).
Proof.
  intros Hrow. unfold keyNumber.
  destruct (Obj.get row pk) as [c|] eqn:E; [|reflexivity].
  eapply Number_valid, Obj_get_valid; eauto.
Qed.

Lemma orderedKey_sources (pk : string) (data : BarrelData) :
  validData data ->
  (forall row, In row data -> rowKey pk row <> None -> numericKey pk row) ->
  forall row, In row data -> rowKey pk row <> None -> orderedKey pk row.
Proof.
  intros Hvalid Hnum row Hin Hk. split; auto.
  apply keyNumber_valid. unfold validData in Hvalid.
  rewrite Forall_forall in Hvalid. auto.
Qed.

(** On rows with numeric keys the comparator orders by key. *)
Lemma compareRows_after (pk : string) (a b : TableRow) :
  orderedKey pk a -> orderedKey pk b ->
  comes_after (compareRows pk) a b = JS.ltb (keyNumber pk b) (keyNumber pk a).
Proof.
  intros [Na Va] [Nb Vb]. unfold comes_after, compareRows.
  rewrite Na, Nb. cbn [orb]. now apply JSFacts.sub_positive.
Qed.

Lemma keyLe_trans (pk : string) (a b c : TableRow) :
  orderedKey pk b -> keyLe pk a b -> keyLe pk b c -> keyLe pk a c.
Proof.
  unfold keyLe. intros [Nb _] Hab Hbc.
  destruct (JS.ltb (keyNumber pk c) (keyNumber pk a)) eqn:E; auto.
  rewrite (JSFacts.ltb_below _ _ _ E Hab Nb) in Hbc. discriminate.
Qed.

Lemma StronglySorted_impl {A : Type} (P : A -> Prop) (R R' : A -> A -> Prop) (l : list A) :
  (forall a b, P a -> P b -> R a b -> R' a b) ->
  Forall P l -> StronglySorted R l -> StronglySorted R' l.
Proof.
  intros Himp Hl Hs. induction Hs as [|x l Hs IH Hx]; [constructor|].
  inversion Hl; subst. constructor; auto.
  rewrite Forall_forall in *. auto.
Qed.

(** The rows that reach the sort, for inputs that take the merging path. *)
Lemma mergeBarrelData_perm (existingData newData : BarrelData) (pk : string) :
  newData <> [] -> primaryKeyOf existingData = Some pk ->
  Permutation (mergeBarrelData existingData newData)
              (JSMap.values (mergedDataMap pk existingData newData)).
Proof.
  intros Hn Hpk. rewrite (mergeBarrelData_main _ _ pk) by auto. apply sort_perm.
Qed.

(** Every row that the map stores has a key cell: the comparator never
    reads [undefined]. *)
Lemma merged_rows_have_key (existingData newData : BarrelData) (pk : string) :
  Forall (fun row => rowKey pk row <> None)
    (JSMap.values (mergedDataMap pk existingData newData)).
Proof.
  apply mergedDataMap_rows; auto.
  intros a b H. now rewrite (rowKey_ext _ _ _ H).
Qed.

Lemma stored_row_count (pk : string) (m : list (CellValue * TableRow)) (k : CellValue) :
  mapInv pk m ->
  List.length (filter (hasKey pk k) (JSMap.values m)) =
  if JSMap.has sameValueZero m k then 1%nat else 0%nat.
Proof.
  intros [Hd Hk]. rewrite <- (entriesAt_distinct sameValueZero) by auto.
  unfold entriesAt, JSMap.values. clear Hd.
  induction Hk as [|[k' row] rest Hx _ IH]; cbn; auto.
  cbn in Hx. unfold hasKey in Hx |- *.
  destruct (rowKey pk row) as [kr|]; [|discriminate].
  rewrite (same_congr sameValueZero kr k' k Hx).
  destruct (sameValueZero k' k); cbn; auto.
Qed.

(** C7: [merge(D, []) = D] and [merge([], D) = D]: an empty incoming batch
    returns the existing dataset unchanged and an empty existing dataset
    returns the incoming batch unchanged. *)
Theorem merge_identity (D : BarrelData) :
  mergeBarrelData D [] = D /\ mergeBarrelData [] D = D.
Proof.
  split.
  - reflexivity.
  - destruct D; reflexivity.
Qed.

(** C2, as stated, fails: height 25 as a number in the existing dataset
    and as the string "25" in the incoming one are two keys of the map, and
    the result has two rows whose numeric key is 25. *)
Lemma merge_mixed_keys_counterexample :
  exists r1 r2,
    mergeBarrelData [[("h", num 25); ("v", num 220)]]
                    [[("h", text "25"); ("v", num 221)]] = [r1; r2]
    /\ keyNumber "h" r1 = JS.of_Z 25 /\ keyNumber "h" r2 = JS.of_Z 25.
Proof. do 2 eexists. repeat split; vm_compute; reflexivity. Qed.

(** C2, amended: when both inputs are non-empty and the first existing row
    has a first column with a non-empty name that is not the name of a
    member of [Object.prototype], every output row has a non-null key that
    occurs in one of the inputs, and every key that occurs in an input is
    the key of exactly one output row (of none when it occurs in neither),
    keys being compared as [Map] compares them: by SameValueZero, under
    which a number and a string are different keys. *)
Theorem merge_keys (existingData newData : BarrelData) (pk : string) :
  newData <> [] -> primaryKeyOf existingData = Some pk ->
  Obj.inherited pk = false ->
  (forall row, In row (mergeBarrelData existingData newData) ->
     exists k, rowKey pk row = Some k
               /\ existsb (hasKey pk k) (existingData ++ newData) = true)
  /\ (forall k,
        List.length (filter (hasKey pk k) (mergeBarrelData existingData newData)) =
        if existsb (hasKey pk k) (existingData ++ newData) then 1%nat else 0%nat).
Proof.
  intros Hn Hpk _.
  pose proof (mergeBarrelData_perm _ _ _ Hn Hpk) as Hperm.
  pose proof (mergedDataMap_inv pk existingData newData) as Hinv.
  split.
  - intros row Hrow.
    apply (Permutation_in _ Hperm) in Hrow.
    unfold JSMap.values in Hrow. apply in_map_iff in Hrow.
    destruct Hrow as ([k' r] & <- & Hin). cbn.
    destruct Hinv as [_ Hk]. rewrite Forall_forall in Hk.
    specialize (Hk _ Hin). cbn in Hk. unfold hasKey in Hk.
    destruct (rowKey pk r) as [k|] eqn:E; [|discriminate].
    exists k. split; auto.
    rewrite <- mergedDataMap_has.
    unfold JSMap.has.
    rewrite (get_congr sameValueZero _ k k' Hk).
    apply (In_has sameValueZero) in Hin. exact Hin.
  - intros k. rewrite (filter_length_perm _ _ _ Hperm).
    rewrite stored_row_count by auto. now rewrite mergedDataMap_has.
Qed.

Lemma merge_keys_witness :
  List.length (filter (hasKey "h" (VNum (JS.of_Z 25)))
                 (mergeBarrelData [[("h", num 25); ("v", num 220)]]
                                  [[("h", num 25); ("v", blank)]; [("h", num 26); ("v", num 230)]]))
  = 1%nat.
Proof.
  refine (proj2 (merge_keys [[("h", num 25); ("v", num 220)]]
                   [[("h", num 25); ("v", blank)]; [("h", num 26); ("v", num 230)]]
                   "h" _ _ _) (VNum (JS.of_Z 25))).
  - discriminate.
  - reflexivity.
  - reflexivity.
Defined.

(** C3, as stated, fails: an empty incoming batch returns the existing
    rows as they are, in whatever order; the rows 3, 1 come back as 3, 1. *)
Lemma merge_unsorted_counterexample :
  mergeBarrelData [[("h", num 3)]; [("h", num 1)]] [] =
  [[("h", num 3)]; [("h", num 1)]]
  /\ ~ StronglySorted (keyLe "h")
         (numericRows "h" (mergeBarrelData [[("h", num 3)]; [("h", num 1)]] [])).
Proof.
  split; [reflexivity|]. intros H.
  replace (numericRows "h" (mergeBarrelData [[("h", num 3)]; [("h", num 1)]] []))
    with [[("h", num 3)]; [("h", num 1)]] in H by (vm_compute; reflexivity).
  inversion H as [|? ? _ Hall]; inversion Hall as [|? ? Hle _].
  vm_compute in Hle. discriminate Hle.
Qed.

Lemma compareRows_nan (pk : string) (a b : TableRow) :
  JS.isNaN (keyNumber pk a) = true \/ JS.isNaN (keyNumber pk b) = true ->
  compareRows pk a b = JS.pzero.
Proof.
  unfold compareRows. intros [-> | ->]; auto. now rewrite orb_true_r.
Qed.

(** C3, amended: when both inputs are non-empty and the first existing row
    has a first column with a non-empty name that is not the name of a
    member of [Object.prototype], the comparator returns 0 as soon as one of
    the two keys fails numeric coercion, so that a row whose key fails
    numeric coercion compares as equal to every row; if every key of the
    inputs coerces to a number, the output is non-decreasing by numeric key;
    and if no key of the inputs coerces to a number, the rows keep the order
    in which the map holds them, that of their first insertion.  (In both
    cases the comparator is a consistent ordering, for which the result of
    the sort is the same in every engine.) *)
Theorem merge_sorted (existingData newData : BarrelData) (pk : string) :
  newData <> [] -> primaryKeyOf existingData = Some pk ->
  Obj.inherited pk = false ->
  validData existingData -> validData newData ->
  (forall a b,
     JS.isNaN (keyNumber pk a) = true \/ JS.isNaN (keyNumber pk b) = true ->
     compareRows pk a b = JS.pzero)
  /\ ((forall row, In row (existingData ++ newData) -> rowKey pk row <> None ->
         numericKey pk row) ->
      StronglySorted (keyLe pk) (mergeBarrelData existingData newData))
  /\ ((forall row, In row (existingData ++ newData) -> rowKey pk row <> None ->
         JS.isNaN (keyNumber pk row) = true) ->
      mergeBarrelData existingData newData =
      JSMap.values (mergedDataMap pk existingData newData)).
Proof.
  intros Hn Hpk _ Ve Vn. split; [apply compareRows_nan|].
  rewrite (mergeBarrelData_main _ _ pk) by auto.
  split.
  2:{ intros Hnan. apply sort_id.
      assert (Hrows : Forall (fun row => JS.isNaN (keyNumber pk row) = true)
                        (JSMap.values (mergedDataMap pk existingData newData))).
      { apply mergedDataMap_rows; auto.
        intros a b H. now rewrite (keyNumber_ext _ _ _ H). }
      induction Hrows as [|row rest Hrow Hrest IH]; constructor; auto.
      eapply Forall_impl; [|exact Hrest].
      intros b _. unfold comes_after. now rewrite compareRows_nan by auto. }
  intros Hnum.
  assert (Hrows : Forall (orderedKey pk)
                    (JSMap.values (mergedDataMap pk existingData newData))).
  { apply mergedDataMap_rows.
    - intros a b H. unfold orderedKey, numericKey. now rewrite (keyNumber_ext _ _ _ H).
    - apply orderedKey_sources; auto. apply Forall_app. split; assumption. }
  assert (Hout : Forall (orderedKey pk)
                   (sort (compareRows pk)
                      (JSMap.values (mergedDataMap pk existingData newData)))).
  { eapply Permutation_Forall; [symmetry; apply sort_perm | exact Hrows]. }
  apply (StronglySorted_impl (orderedKey pk)
           (fun a b => comes_after (compareRows pk) a b = false)); auto.
  - intros a b Pa Pb. rewrite compareRows_after by auto. auto.
  - apply (sort_sorted (compareRows pk) (orderedKey pk)); auto.
    + intros a b Pa Pb. rewrite !compareRows_after by auto. apply JSFacts.ltb_asym.
    + intros a b c Pa Pb Pc. rewrite !compareRows_after by auto.
      intros Hab Hbc. exact (keyLe_trans pk a b c Pb Hab Hbc).
Qed.

Lemma merge_sorted_witness :
  StronglySorted (keyLe "h")
    (mergeBarrelData [[("h", num 30)]; [("h", text "10")]]
                     [[("h", dec "20.5")]; [("h", blank)]])
  /\ mergeBarrelData [[("h", text "b")]; [("h", text "a")]] [[("h", text "c")]] =
     [[("h", text "b")]; [("h", text "a")]; [("h", text "c")]].
Proof.
  split.
  - refine (proj1 (proj2 (merge_sorted [[("h", num 30)]; [("h", text "10")]]
                            [[("h", dec "20.5")]; [("h", blank)]] "h" _ _ _ _ _)) _).
    + discriminate.
    + reflexivity.
    + reflexivity.
    + repeat constructor; vm_compute; reflexivity.
    + repeat constructor; vm_compute; reflexivity.
    + intros row [<-|[<-|[<-|[<-|[]]]]] _; vm_compute; reflexivity.
  - refine (eq_trans
              (proj2 (proj2 (merge_sorted [[("h", text "b")]; [("h", text "a")]]
                               [[("h", text "c")]] "h" _ _ _ _ _)) _) _).
    + discriminate.
    + reflexivity.
    + reflexivity.
    + repeat constructor.
    + repeat constructor.
    + intros row [<-|[<-|[<-|[]]]] _; vm_compute; reflexivity.
    + vm_compute; reflexivity.
Defined.

Lemma find_app {A : Type} (f : A -> bool) (l l' : list A) :
  find f (l ++ l') = match find f l with Some x => Some x | None => find f l' end.
Proof. induction l as [|x l IH]; cbn; auto. destruct (f x); auto. Qed.

Lemma populate_get (pk : string) (m : list (CellValue * TableRow)) (row : TableRow)
    (k : CellValue) :
  JSMap.get sameValueZero (populate pk m row) k =
  if hasKey pk k row then Some row else JSMap.get sameValueZero m k.
Proof.
  rewrite populate_eq. unfold hasKey. destruct (rowKey pk row) as [key|]; auto.
  destruct (sameValueZero key k) eqn:E.
  - now apply get_set_same; try exact _.
  - now apply get_set_other; try exact _.
Qed.

Lemma populates_get (pk : string) (k : CellValue) (rows : BarrelData) :
  forall m,
  JSMap.get sameValueZero (fold_left (populate pk) rows m) k =
  match lastWithKey pk k rows with
  | Some row => Some row
  | None => JSMap.get sameValueZero m k
  end.
Proof.
  unfold lastWithKey.
  induction rows as [|a rest IH]; intros m; cbn [fold_left rev]; auto.
  rewrite IH, find_app, populate_get. cbn [find].
  destruct (find (hasKey pk k) (rev rest)); auto.
  destruct (hasKey pk k a); auto.
Qed.

(** A new row leaves a column of the stored row of [k] as it is, unless
    it carries [k] and has a value in that column. *)
Lemma mergeNewRow_keeps (pk : string) (k : CellValue) (column : string)
    (cell : option CellData) (m : list (CellValue * TableRow)) (newRow : TableRow) :
  (hasKey pk k newRow = true -> nullOrAbsent newRow column) ->
  (exists row, JSMap.get sameValueZero m k = Some row /\ Obj.get row column = cell) ->
  exists row, JSMap.get sameValueZero (mergeNewRow pk m newRow) k = Some row
              /\ Obj.get row column = cell.
Proof.
  intros Hnull (row & Hget & Hcell). rewrite mergeNewRow_eq.
  unfold hasKey in Hnull.
  destruct (rowKey pk newRow) as [key|]; [|eauto].
  destruct (sameValueZero key k) eqn:E.
  - rewrite (get_congr sameValueZero m key k E), Hget.
    exists (mergeRow row newRow). split.
    + now apply get_set_same; try exact _.
    + rewrite mergeRow_get. unfold mergedCell.
      specialize (Hnull eq_refl). unfold nullOrAbsent in Hnull.
      destruct (Obj.get newRow column) as [c|]; auto. now rewrite Hnull.
  - exists row. split; auto.
    destruct (JSMap.get sameValueZero m key);
      rewrite get_set_other; auto; exact _.
Qed.

Lemma mergeNewRows_keep (pk : string) (k : CellValue) (column : string)
    (cell : option CellData) (rows : BarrelData) :
  (forall newRow, In newRow rows -> hasKey pk k newRow = true ->
                  nullOrAbsent newRow column) ->
  forall m,
  (exists row, JSMap.get sameValueZero m k = Some row /\ Obj.get row column = cell) ->
  exists row, JSMap.get sameValueZero (fold_left (mergeNewRow pk) rows m) k = Some row
              /\ Obj.get row column = cell.
Proof.
  induction rows as [|a rest IH]; intros Hnull m Hm; cbn [fold_left]; auto.
  apply IH.
  - intros r Hr. apply Hnull. now right.
  - apply mergeNewRow_keeps; auto. apply Hnull. now left.
Qed.

(** C5: for a key present in both inputs and a column in which every
    incoming row of that key holds null, or which those rows do not have,
    the merge result has a row of that key whose cell in the column is the
    cell of the existing row: a null incoming value never replaces an
    existing cell, and columns absent from the incoming row are left
    untouched.  The existing row of a key is the one the map holds, the last
    one of that key. *)
Theorem merge_conservative (existingData newData : BarrelData) (pk : string)
    (k : CellValue) (column : string) (existingRow : TableRow) :
  primaryKeyOf existingData = Some pk ->
  lastWithKey pk k existingData = Some existingRow ->
  existsb (hasKey pk k) newData = true ->
  (forall newRow, In newRow newData -> hasKey pk k newRow = true ->
                  nullOrAbsent newRow column) ->
  exists row,
    In row (mergeBarrelData existingData newData)
    /\ hasKey pk k row = true
    /\ Obj.get row column = Obj.get existingRow column.
Proof.
  intros Hpk Hlast Hboth Hnull.
  assert (Hn : newData <> []) by (intros ->; discriminate).
  destruct (mergeNewRows_keep pk k column (Obj.get existingRow column) newData Hnull
              (fold_left (populate pk) existingData []))
    as (row & Hget & Hcell).
  { exists existingRow. split; auto. now rewrite populates_get, Hlast. }
  fold (mergedDataMap pk existingData newData) in Hget.
  exists row. destruct (get_In _ _ _ _ Hget) as (k' & Hin & Hk').
  repeat split; auto.
  - apply Permutation_in with (JSMap.values (mergedDataMap pk existingData newData)).
    + symmetry. now apply mergeBarrelData_perm.
    + unfold JSMap.values. apply in_map_iff. exists (k', row). auto.
  - destruct (mergedDataMap_inv pk existingData newData) as [_ Hk].
    rewrite Forall_forall in Hk. specialize (Hk _ Hin). cbn in Hk.
    unfold hasKey in *. destruct (rowKey pk row) as [kr|]; [|discriminate].
    now rewrite (same_congr sameValueZero kr k' k Hk).
Qed.

Lemma merge_conservative_witness :
  exists row,
    In row (mergeBarrelData
              [[("h", num 25); ("v", num 220); ("w", num 7)]]
              [[("h", num 25); ("v", blank)]; [("h", num 26); ("v", num 230)]])
    /\ hasKey "h" (VNum (JS.of_Z 25)) row = true
    /\ Obj.get row "v" = Some (num 220).
Proof.
  refine (merge_conservative
            [[("h", num 25); ("v", num 220); ("w", num 7)]]
            [[("h", num 25); ("v", blank)]; [("h", num 26); ("v", num 230)]]
            "h" (VNum (JS.of_Z 25)) "v"
            [("h", num 25); ("v", num 220); ("w", num 7)] _ _ _ _).
  - reflexivity.
  - vm_compute; reflexivity.
  - vm_compute; reflexivity.
  - intros newRow [<-|[<-|[]]] Hk.
    + reflexivity.
    + vm_compute in Hk. discriminate Hk.
Defined.

Lemma populate_fresh (pk : string) (data : BarrelData) :
  Forall (fun row => rowKey pk row <> None) data ->
  distinctRows pk data ->
  forall m,
  (forall row, In row data -> JSMap.get sameValueZero m (fst (entryOf pk row)) = None) ->
  fold_left (populate pk) data m = m ++ map (entryOf pk) data.
Proof.
  intros Hkeys Hd. induction Hd as [|a rest Ha Hrest IH]; intros m Hm; cbn.
  - now rewrite app_nil_r.
  - inversion Hkeys as [|? ? Hka Hkrest]; subst.
    rewrite populate_eq.
    pose proof (Hm a (or_introl eq_refl)) as Hfresh.
    unfold entryOf in Hfresh |- *. cbn in Hfresh.
    destruct (rowKey pk a) as [ka|] eqn:Ea; [|congruence].
    rewrite set_fresh by auto. rewrite IH; auto.
    + now rewrite <- app_assoc.
    + intros r Hr. rewrite get_app, (Hm r (or_intror Hr)). cbn.
      rewrite Forall_forall in Ha, Hkrest.
      specialize (Ha r Hr ka eq_refl). specialize (Hkrest r Hr).
      unfold hasKey in Ha. destruct (rowKey pk r) as [kr|]; [|congruence].
      now rewrite sameValueZero_sym, Ha.
Qed.

Lemma entries_get (pk : string) (data : BarrelData) :
  Forall (fun row => rowKey pk row <> None) data ->
  distinctRows pk data ->
  forall row k, In row data -> rowKey pk row = Some k ->
  JSMap.get sameValueZero (map (entryOf pk) data) k = Some row.
Proof.
  intros Hkeys Hd. induction Hd as [|a rest Ha Hrest IH]; intros row k Hin Hk; cbn.
  - destruct Hin.
  - inversion Hkeys as [|? ? Hka Hkrest]; subst.
    destruct (rowKey pk a) as [ka|] eqn:Ea; [|congruence].
    destruct Hin as [->|Hin].
    + rewrite Hk in Ea. inversion Ea; subst. now rewrite sameValueZero_refl.
    + rewrite Forall_forall in Ha. specialize (Ha row Hin ka eq_refl).
      unfold hasKey in Ha. rewrite Hk in Ha.
      rewrite sameValueZero_sym, Ha. auto.
Qed.

Lemma mergeNewRows_same (pk : string) (rows : BarrelData) (m : list (CellValue * TableRow)) :
  (forall row, In row rows ->
     exists k, rowKey pk row = Some k /\ JSMap.get sameValueZero m k = Some row) ->
  fold_left (mergeNewRow pk) rows m = m.
Proof.
  induction rows as [|a rest IH]; intros H; cbn; auto.
  destruct (H a (or_introl eq_refl)) as (k & Hk & Hget).
  rewrite mergeNewRow_eq, Hk, Hget, mergeRow_self, set_get_id by auto.
  apply IH. intros r Hr. apply H. now right.
Qed.

(** C6, as stated, fails: a dataset that is not in key order comes back
    sorted. *)
Lemma merge_idempotent_counterexample :
  mergeBarrelData [[("h", num 3)]; [("h", num 1)]] [[("h", num 3)]; [("h", num 1)]]
  <> [[("h", num 3)]; [("h", num 1)]].
Proof. vm_compute. discriminate. Qed.

(** C6, amended: for every dataset [D] whose rows all have a non-null key
    that coerces to a number, that is in non-decreasing order of numeric key
    and in which no key occurs twice, [merge(D, D) = D]. *)
Theorem merge_idempotent (D : BarrelData) :
  validData D ->
  (forall pk, primaryKeyOf D = Some pk ->
     Forall (fun row => rowKey pk row <> None /\ numericKey pk row) D
     /\ StronglySorted (keyLe pk) D
     /\ distinctRows pk D) ->
  mergeBarrelData D D = D.
Proof.
  intros Hvalid H. destruct (primaryKeyOf D) as [pk|] eqn:Hpk.
  - destruct (H pk eq_refl) as (Hrows & Hsorted & Hdistinct).
    assert (Hn : D <> []) by (intros ->; discriminate).
    assert (Hkeys : Forall (fun row => rowKey pk row <> None) D)
      by (eapply Forall_impl; [|exact Hrows]; cbn; tauto).
    assert (Hnum : Forall (orderedKey pk) D).
    { unfold validData in Hvalid. apply Forall_forall. intros row Hin. split.
      - rewrite Forall_forall in Hrows. now apply Hrows.
      - apply keyNumber_valid. rewrite Forall_forall in Hvalid. now apply Hvalid. }
    rewrite (mergeBarrelData_main _ _ pk) by auto.
    unfold mergedDataMap.
    rewrite (populate_fresh pk D Hkeys Hdistinct []) by (intros; reflexivity).
    cbn [app]. rewrite mergeNewRows_same.
    + unfold JSMap.values. rewrite map_map. cbn. rewrite map_id.
      apply sort_id.
      apply (StronglySorted_impl (orderedKey pk) (keyLe pk)); auto.
      intros a b Pa Pb. now rewrite compareRows_after.
    + intros row Hin.
      destruct (rowKey pk row) as [k|] eqn:Ek.
      * exists k. split; auto. now apply entries_get.
      * rewrite Forall_forall in Hkeys. now apply Hkeys in Hin.
  - clear H. unfold mergeBarrelData, primaryKeyOf in *.
    destruct D as [|first rest]; auto.
    destruct (Obj.keys first) as [|k ks]; auto.
    destruct (String.eqb k ""); [auto|discriminate].
Qed.

Lemma merge_idempotent_witness :
  mergeBarrelData [[("h", num 20); ("v", num 200)]; [("h", text "30"); ("v", blank)]]
                  [[("h", num 20); ("v", num 200)]; [("h", text "30"); ("v", blank)]]
  = [[("h", num 20); ("v", num 200)]; [("h", text "30"); ("v", blank)]].
Proof.
  apply merge_idempotent.
  - repeat constructor; vm_compute; reflexivity.
  - intros pk Hpk.
    assert (pk = "h") by (vm_compute in Hpk; congruence). subst pk.
    split; [|split].
    + repeat constructor; try discriminate; vm_compute; reflexivity.
    + repeat constructor; vm_compute; reflexivity.
    + repeat constructor; intros k Hk; vm_compute in Hk; inversion Hk; subst;
        vm_compute; reflexivity.
Defined.

(** ** The volume calculator *)

Lemma registerRow_get (hk : string) (m m' : HeightMap) (row : TableRow) (x : JS.number) :
  registerRow hk (Some m) row = Some m' ->
  JSMap.get JS.num_sameValueZero m' x =
  if registersAt hk x row then Some row else JSMap.get JS.num_sameValueZero m x.
Proof.
  unfold registerRow, registersAt.
  destruct (Obj.get row hk) as [c|]; [|discriminate].
  destruct (JS.isNaN (Number (value c))); cbn [negb andb].
  - now intros [= <-].
  - intros [= <-].
    destruct (JS.num_sameValueZero (Number (value c)) x) eqn:E.
    + now apply get_set_same; try exact _.
    + now apply get_set_other; try exact _.
Qed.

Lemma registerRows_none (hk : string) (data : BarrelData) :
  fold_left (registerRow hk) data None = None.
Proof. induction data; cbn; auto. Qed.

Lemma registerRows_get (hk : string) (x : JS.number) (data : BarrelData) :
  forall m m',
  fold_left (registerRow hk) data (Some m) = Some m' ->
  JSMap.get JS.num_sameValueZero m' x =
  match rowAt hk data x with
  | Some row => Some row
  | None => JSMap.get JS.num_sameValueZero m x
  end.
Proof.
  unfold rowAt.
  induction data as [|a rest IH]; intros m m'; cbn [fold_left rev].
  - now intros [= <-].
  - destruct (registerRow hk (Some m) a) as [m1|] eqn:E.
    + intros H. rewrite (IH _ _ H), find_app. cbn [find].
      rewrite (registerRow_get _ _ _ _ x E).
      destruct (find (registersAt hk x) (rev rest)); auto.
      destruct (registersAt hk x a); auto.
    + now rewrite registerRows_none.
Qed.

Lemma registerRows_total (hk : string) (data : BarrelData) :
  hasColumn hk data ->
  forall acc, acc <> None -> fold_left (registerRow hk) data acc <> None.
Proof.
  induction 1 as [|a rest Ha _ IH]; intros acc Hacc; cbn [fold_left]; auto.
  apply IH. destruct acc as [m|]; [|congruence]. unfold registerRow.
  destruct (Obj.get a hk) as [c|]; [|congruence].
  destruct (JS.isNaN (Number (value c))); discriminate.
Qed.

(** What [useMemo] returns on a dataset whose rows all have the height
    column. *)
Lemma useMemo_spec (barrelData : BarrelData) (hk : string) :
  heightKeyOf barrelData = Some hk -> hasColumn hk barrelData ->
  exists memo,
    useMemo barrelData = Some memo
    /\ heightKey memo = Some hk
    /\ forall x, JSMap.get JS.num_sameValueZero (dataMap memo) x = rowAt hk barrelData x.
Proof.
  intros Hk Hcol. destruct barrelData as [|first rest]; [discriminate|].
  cbn in Hk. unfold useMemo. rewrite Hk. cbn [propertyKey].
  match goal with
  | |- context [fold_left ?f ?l ?a] => destruct (fold_left f l a) as [m|] eqn:Hm
  end.
  - eexists. split; [reflexivity|]. split; [reflexivity|].
    intros x. cbn [dataMap]. rewrite (registerRows_get _ x _ _ _ Hm).
    destruct (rowAt hk (first :: rest) x); auto.
  - exfalso. revert Hm. apply registerRows_total; auto. discriminate.
Qed.

Lemma rowAt_registers (hk : string) (barrelData : BarrelData) (x : JS.number)
    (row : TableRow) :
  rowAt hk barrelData x = Some row -> In row barrelData /\ registersAt hk x row = true.
Proof.
  unfold rowAt. intros H. apply find_some in H. destruct H as [Hin Hr].
  split; auto. now apply in_rev.
Qed.

(** A dataset in which some row has a numeric height has a non-empty
    index. *)
Lemma rowAt_some (hk : string) (barrelData : BarrelData) (row : TableRow) (c : CellData) :
  In row barrelData -> Obj.get row hk = Some c -> JS.isNaN (Number (value c)) = false ->
  rowAt hk barrelData (Number (value c)) <> None.
Proof.
  intros Hin Hc Hn H. unfold rowAt in H.
  apply in_rev in Hin. pose proof (find_none _ _ H row Hin) as Hf.
  unfold registersAt in Hf. rewrite Hc, Hn, num_sameValueZero_refl in Hf.
  discriminate Hf.
Qed.

Lemma get_all_none {K V : Type} (same : K -> K -> bool) `{!KeyEquivalence same}
    (m : list (K * V)) :
  (forall x, JSMap.get same m x = None) -> m = [].
Proof.
  destruct m as [|[k v] rest]; auto. intros H. specialize (H k). cbn in H.
  rewrite same_refl in H. discriminate.
Qed.

(** Past the guards, [handleCalculate] is the lookup in an index that
    holds, under every height, the last row registered there. *)
Lemma handleCalculate_guards (barrelData : BarrelData) (target wetHeight hk : string) :
  heightKeyOf barrelData = Some hk -> hk <> "" -> target <> "" ->
  hasColumn hk barrelData ->
  (exists x, rowAt hk barrelData x <> None) ->
  JS.isNaN (JS.parseFloat wetHeight) = false ->
  exists map,
    (forall x, JSMap.get JS.num_sameValueZero map x = rowAt hk barrelData x)
    /\ handleCalculate barrelData target wetHeight =
       lookupVolume barrelData map hk target (JS.parseFloat wetHeight).
Proof.
  intros Hk Hhk Ht Hcol (x & Hx) Hnan.
  destruct (useMemo_spec _ _ Hk Hcol) as (memo & Hmemo & Hkey & Hmap).
  exists (dataMap memo). split; auto.
  unfold handleCalculate. rewrite Hmemo, Hkey, Hnan. cbn [propertyKey].
  apply String.eqb_neq in Hhk, Ht. rewrite Hhk, Ht.
  destruct barrelData as [|first rest]; [discriminate|].
  destruct (dataMap memo) as [|e m] eqn:Em.
  - exfalso. apply Hx. rewrite <- Hmap. reflexivity.
  - reflexivity.
Qed.

(** With an empty index the calculator reports that it has no data. *)
Lemma handleCalculate_empty_index (barrelData : BarrelData) (target wetHeight hk : string) :
  heightKeyOf barrelData = Some hk -> hasColumn hk barrelData ->
  (forall x, rowAt hk barrelData x = None) ->
  handleCalculate barrelData target wetHeight =
  Some (mkDisplay unavailable (VStr "N/A") None).
Proof.
  intros Hk Hcol Hnone.
  destruct (useMemo_spec _ _ Hk Hcol) as (memo & Hmemo & Hkey & Hmap).
  unfold handleCalculate. rewrite Hmemo.
  assert (Hm : dataMap memo = []).
  { apply (get_all_none JS.num_sameValueZero). intros x. now rewrite Hmap. }
  rewrite Hm. cbn. now rewrite !orb_true_r.
Qed.

Lemma scanDiff_nan (hk : string) (height : JS.number) (row : TableRow) :
  JS.isNaN (scanHeight hk row) = true -> scanDiff hk height row = JS.NaN.
Proof.
  unfold scanDiff. destruct (scanHeight hk row); try discriminate. reflexivity.
Qed.

Lemma closer_state (hk : string) (height : JS.number) (seen : BarrelData)
    (st : option TableRow * JS.number) (row : TableRow) :
  Obj.get row hk <> None ->
  nearestState hk height seen st ->
  exists st', closer hk height (Some st) row = Some st'
              /\ nearestState hk height (seen ++ [row]) st'.
Proof.
  intros Hcol Hst. unfold closer. destruct st as [closestRow minDiff].
  pose proof (eq_refl (scanDiff hk height row)) as Hd.
  unfold scanDiff at 1, scanHeight in Hd.
  pose proof (eq_refl (scanHeight hk row)) as Hh. unfold scanHeight at 1 in Hh.
  destruct (Obj.get row hk) as [c|]; [|congruence].
  cbv zeta. rewrite Hd, Hh. clear Hh Hd.
  assert (Hkeep : JS.ltb (scanDiff hk height row) minDiff = false ->
                  nearestState hk height (seen ++ [row]) (closestRow, minDiff)).
  { intros Hlt. destruct closestRow as [cr|]; cbn in Hst |- *.
    - destruct Hst as (-> & before & after & -> & Hfin & Hb & Ha).
      split; auto. exists before, (after ++ [row]).
      rewrite <- app_assoc. split; auto. repeat split; auto.
      intros r Hr. apply in_app_or in Hr. destruct Hr as [Hr|[<-|[]]]; auto.
    - destruct Hst as (-> & Hall). split; auto.
      intros r Hr. apply in_app_or in Hr. destruct Hr as [Hr|[<-|[]]]; auto. }
  destruct (JS.isNaN (scanHeight hk row)) eqn:Hnan.
  - eexists. split; [reflexivity|]. apply Hkeep.
    rewrite scanDiff_nan by auto. reflexivity.
  - destruct (JS.ltb (scanDiff hk height row) minDiff) eqn:Hlt.
    + eexists. split; [reflexivity|]. cbn. split; auto.
      exists seen, []. split; auto.
      destruct closestRow as [cr|]; cbn in Hst.
      * destruct Hst as (-> & before & after & -> & Hfin & Hb & Ha).
        repeat split.
        -- eapply JSFacts.ltb_trans; eauto.
        -- intros r Hr Hrn. apply in_app_or in Hr. destruct Hr as [Hr|[<-|Hr]]; auto.
           ++ eapply JSFacts.ltb_trans; eauto.
           ++ eapply JSFacts.ltb_below; eauto.
        -- intros r [].
      * destruct Hst as (-> & Hall). repeat split; auto.
        -- intros r Hr Hrn. eapply JSFacts.ltb_below; eauto.
        -- intros r [].
    + eexists. split; [reflexivity|]. auto.
Qed.

Lemma closest_fold (hk : string) (height : JS.number) (rows : BarrelData) :
  hasColumn hk rows ->
  forall seen st, nearestState hk height seen st ->
  exists st', fold_left (closer hk height) rows (Some st) = Some st'
              /\ nearestState hk height (seen ++ rows) st'.
Proof.
  induction 1 as [|a rest Ha _ IH]; intros seen st Hst; cbn [fold_left].
  - exists st. now rewrite app_nil_r.
  - destruct (closer_state hk height seen st a Ha Hst) as (st1 & -> & Hst1).
    destruct (IH _ _ Hst1) as (st' & Hfold & Hst').
    exists st'. split; auto. now rewrite <- app_assoc in Hst'.
Qed.

Lemma closest_spec (hk : string) (height : JS.number) (barrelData : BarrelData) :
  hasColumn hk barrelData ->
  exists st, closest hk height barrelData = Some st
             /\ nearestState hk height barrelData st.
Proof.
  intros Hcol. unfold closest.
  destruct (closest_fold hk height barrelData Hcol [] (None, JS.Infinity))
    as (st & Hfold & Hst).
  - cbn. split; auto. intros r [].
  - eauto.
Qed.

(** C1, as stated, fails: between the rows of heights 20 and 30 the query
    25 has no row at [floor 25 = ceil 25 = 25], nothing is interpolated, and
    the nearest row, the first of the two at distance 5, is shown.  And a
    query that has a row of its own, such as 20, whose floor and ceiling are
    that row, is an exact match: the cell is shown as it is, not the
    two-decimal print of the formula. *)
Lemma interpolation_20_30_counterexample :
  (exists d,
     handleCalculate table_20_30 "Volume" "25" = Some d
     /\ status d = nearest /\ volume d = VNum (JS.of_Z 200)
     /\ status d <> interpolated)
  /\ handleCalculate table_20_30 "Volume" "20" =
     Some (mkDisplay exact (VNum (JS.of_Z 200)) (Some "Exact value found in table."%string)).
Proof.
  split; [|vm_compute; reflexivity].
  eexists. split; [vm_compute; reflexivity|].
  repeat split. discriminate.
Qed.

(** C1, amended: for the rows 20 -> 200 and 30 -> 300 the query 25 returns
    status [nearest] with the value 200 of the row of height 20; and in
    general, when no row is registered at the query height itself, rows are
    registered at exactly [floor(queryHeight)] and [ceil(queryHeight)] and
    both target values are numeric, the status is [interpolated] and the
    value is [lowerVolume + (upperVolume - lowerVolume) * (queryHeight -
    floor(queryHeight))] printed with [toFixed(2)]. *)
Theorem interpolation_law :
  handleCalculate table_20_30 "Volume" "25" =
    Some (mkDisplay nearest (VNum (JS.of_Z 200))
            (Some "No exact match. Showing value for closest height: 20."))
  /\ forall (barrelData : BarrelData) (hk target wetHeight : string)
            (lowerRow upperRow : TableRow) (lv uv : CellValue),
       heightKeyOf barrelData = Some hk -> hk <> "" -> target <> "" ->
       hasColumn hk barrelData ->
       JS.isNaN (JS.parseFloat wetHeight) = false ->
       rowAt hk barrelData (JS.parseFloat wetHeight) = None ->
       rowAt hk barrelData (JS.floor (JS.parseFloat wetHeight)) = Some lowerRow ->
       rowAt hk barrelData (JS.ceil (JS.parseFloat wetHeight)) = Some upperRow ->
       cellValue lowerRow target = Some lv ->
       cellValue upperRow target = Some uv ->
       JS.isNaN (Number lv) = false -> JS.isNaN (Number uv) = false ->
       handleCalculate barrelData target wetHeight =
       Some (interpolatedDisplay lv uv (JS.parseFloat wetHeight)).
Proof.
  split; [vm_compute; reflexivity|].
  intros barrelData hk target wetHeight lowerRow upperRow lv uv
    Hk Hhk Ht Hcol Hnan Hexact Hlo Hup Hlv Huv Nlv Nuv.
  destruct (handleCalculate_guards barrelData target wetHeight hk)
    as (map & Hmap & ->); auto.
  { eexists. rewrite Hlo. discriminate. }
  unfold lookupVolume. rewrite !Hmap, Hexact, Hlo, Hup, Hlv, Huv, Nlv, Nuv.
  reflexivity.
Qed.

Lemma interpolation_law_witness :
  handleCalculate
    [[("Mouille", num 20); ("Volume", num 200)];
     [("Mouille", num 21); ("Volume", num 300)]] "Volume" "20.25"
  = Some (mkDisplay interpolated (VStr "225.00")
            (Some "Interpolated between 20 and 21.")).
Proof.
  refine (eq_trans
            (proj2 interpolation_law
               [[("Mouille", num 20); ("Volume", num 200)];
                [("Mouille", num 21); ("Volume", num 300)]]
               "Mouille" "Volume" "20.25"
               [("Mouille", num 20); ("Volume", num 200)]
               [("Mouille", num 21); ("Volume", num 300)]
               (VNum (JS.of_Z 200)) (VNum (JS.of_Z 300))
               _ _ _ _ _ _ _ _ _ _ _ _) _).
  - reflexivity.
  - discriminate.
  - discriminate.
  - repeat constructor; discriminate.
  - vm_compute; reflexivity.
  - vm_compute; reflexivity.
  - vm_compute; reflexivity.
  - vm_compute; reflexivity.
  - reflexivity.
  - reflexivity.
  - vm_compute; reflexivity.
  - vm_compute; reflexivity.
  - vm_compute; reflexivity.
Defined.
























Lemma find_first {A : Type} (f : A -> bool) (l : list A) (x : A) :
  find f l = Some x ->
  exists before after,
    l = before ++ x :: after /\ f x = true /\ Forall (fun y => f y = false) before.
Proof.
  induction l as [|a l IH]; cbn; [discriminate|].
  destruct (f a) eqn:E.
  - intros [= ->]. exists [], l. auto.
  - intros H. destruct (IH H) as (before & after & -> & Hx & Hb).
    exists (a :: before), after. auto.
Qed.

Lemma find_none_Forall {A : Type} (f : A -> bool) (l : list A) :
  find f l = None -> Forall (fun y => f y = false) l.
Proof.
  induction l as [|a l IH]; cbn; auto.
  destruct (f a) eqn:E; [discriminate|]. auto.
Qed.

Lemma potentialHeightKey_rule (headers : list string) (hk : string) :
  potentialHeightKey headers = Some hk -> heightColumnRule headers hk.
Proof.
  unfold potentialHeightKey. fold mouill.
  destruct (find mouill headers) as [h|] eqn:E.
  - intros [= ->]. left. now apply find_first.
  - intros H. right. split; auto. now apply find_none_Forall.
Qed.

Lemma registerRows_hasColumn (hk : string) (data : BarrelData) :
  forall m m', fold_left (registerRow hk) data (Some m) = Some m' -> hasColumn hk data.
Proof.
  induction data as [|a rest IH]; intros m m'; cbn [fold_left]; [constructor|].
  destruct (registerRow hk (Some m) a) as [m1|] eqn:E.
  - intros H. constructor; [|eapply IH; eauto].
    unfold registerRow in E. destruct (Obj.get a hk); [discriminate|discriminate E].
  - now rewrite registerRows_none.
Qed.

(** [useMemo] succeeds on a non-empty dataset only if it found a height
    column and every row has it. *)
Lemma useMemo_success (barrelData : BarrelData) (memo : Memo) :
  barrelData <> [] -> useMemo barrelData = Some memo ->
  exists hk, heightKeyOf barrelData = Some hk
             /\ heightKey memo = Some hk /\ hasColumn hk barrelData.
Proof.
  intros Hne. destruct barrelData as [|first rest]; [congruence|]. clear Hne.
  unfold useMemo, heightKeyOf.
  destruct (potentialHeightKey (Obj.keys first)) as [hk|] eqn:Ek; cbn [propertyKey].
  - match goal with
    | |- context [fold_left ?f ?l ?a] => destruct (fold_left f l a) as [m|] eqn:Hm
    end; [|discriminate].
    intros [= <-]. exists hk. repeat split.
    eapply registerRows_hasColumn; eauto.
  - unfold potentialHeightKey in Ek.
    destruct (find _ (Obj.keys first)); [discriminate|].
    destruct first as [|[k c] cols]; [|discriminate].
    cbn [fold_left]. change (registerRow "undefined" (Some []) []) with (@None HeightMap).
    rewrite registerRows_none. discriminate.
Qed.

Lemma finite_distance (hk : string) (height : JS.number) (row : TableRow) :
  JS.ltb (scanDiff hk height row) JS.Infinity = true ->
  JS.isNaN (scanHeight hk row) = false.
Proof.
  intros H. destruct (JS.isNaN (scanHeight hk row)) eqn:E; auto.
  rewrite scanDiff_nan in H by auto. discriminate.
Qed.

(** The display of the nearest-neighbour case comes from a row with a
    numeric height in the column [hk]. *)
Lemma lookupVolume_nearest (barrelData : BarrelData) (map : HeightMap)
    (hk target : string) (height : JS.number) (d : Display) :
  hasColumn hk barrelData ->
  lookupVolume barrelData map hk target height = Some d -> status d = nearest ->
  exists row, In row barrelData
              /\ JS.isNaN (scanHeight hk row) = false
              /\ cellValue row target = Some (volume d).
Proof.
  intros Hcol. unfold lookupVolume.
  destruct (closest_spec hk height barrelData Hcol) as ([closestRow minDiff] & Hc & Hst).
  rewrite Hc.
  assert (Hnear : forall row v,
            closestRow = Some row ->
            cellValue row target = Some v ->
            exists row', In row' barrelData
                         /\ JS.isNaN (scanHeight hk row') = false
                         /\ cellValue row' target = Some v).
  { intros row v -> Hv. cbn in Hst.
    destruct Hst as (_ & before & after & -> & Hfin & _).
    exists row. repeat split; auto.
    - apply in_or_app. right. now left.
    - eapply finite_distance; eauto. }
  destruct (JSMap.get JS.num_sameValueZero map height) as [row|].
  { destruct (cellValue row target); intros [= <-]; discriminate. }
  destruct (JSMap.get JS.num_sameValueZero map (JS.floor height)) as [lowerRow|],
           (JSMap.get JS.num_sameValueZero map (JS.ceil height)) as [upperRow|].
  1: { destruct (cellValue lowerRow target), (cellValue upperRow target);
         try discriminate.
       destruct (JS.isNaN _ || JS.isNaN _); intros [= <-]; discriminate. }
  all: destruct closestRow as [row|]; [|intros [= <-]; discriminate];
    destruct (cellValue row target) as [v|] eqn:Ev; [|discriminate];
    destruct (cellValue row hk) as [h|]; [|discriminate];
    intros [= <-] _; cbn [volume]; eapply Hnear; eauto.
Qed.

(** C4, as stated, fails: with the columns [Volume], [Mouille] in this
    order the height column is [Mouille], not the first column, and the
    query 25 is matched against it. *)
Lemma height_column_counterexample :
  exists memo,
    useMemo [[("Volume", num 220); ("Mouille", num 25)]] = Some memo
    /\ hd_error (Obj.keys [("Volume", num 220); ("Mouille", num 25)]) = Some "Volume"%string
    /\ heightKey memo = Some "Mouille"%string
    /\ handleCalculate [[("Volume", num 220); ("Mouille", num 25)]] "Volume" "25" =
       Some (mkDisplay exact (VNum (JS.of_Z 220)) (Some "Exact value found in table."%string)).
Proof. eexists. repeat split; vm_compute; reflexivity. Qed.

(** C4, amended: for every non-empty dataset on which the calculator does
    not fail, the height column is the first column of the first row whose
    lower-cased name contains [mouill], or the first column of the first row
    when no name does; the index of the exact-match and interpolation
    lookups holds, under each height, the last row whose cell in that column
    coerces to it, and the row shown by the nearest-neighbour case has a
    numeric height in that column. *)
Theorem height_column (barrelData : BarrelData) (first : TableRow) (rest : BarrelData)
    (memo : Memo) :
  barrelData = first :: rest -> useMemo barrelData = Some memo ->
  exists hk,
    heightKey memo = Some hk
    /\ heightColumnRule (Obj.keys first) hk
    /\ (forall x, JSMap.get JS.num_sameValueZero (dataMap memo) x = rowAt hk barrelData x)
    /\ (forall target wetHeight d,
          handleCalculate barrelData target wetHeight = Some d ->
          status d = nearest ->
          exists row, In row barrelData
                      /\ JS.isNaN (scanHeight hk row) = false
                      /\ cellValue row target = Some (volume d)).
Proof.
  intros Hd Hmemo.
  destruct (useMemo_success barrelData memo) as (hk & Hk & Hkey & Hcol); auto.
  { rewrite Hd. discriminate. }
  exists hk. split; auto. split.
  { apply potentialHeightKey_rule. rewrite Hd in Hk. exact Hk. }
  destruct (useMemo_spec _ _ Hk Hcol) as (memo' & Hmemo' & _ & Hmap).
  assert (memo' = memo) by congruence. subst memo'.
  split; auto.
  intros target wetHeight d Hcalc Hnear.
  unfold handleCalculate in Hcalc. rewrite Hmemo, Hkey in Hcalc.
  cbn [propertyKey] in Hcalc.
  destruct (_ || _ || _ || _) in Hcalc.
  { inversion Hcalc; subst. discriminate. }
  destruct (JS.isNaN (JS.parseFloat wetHeight)) in Hcalc.
  { inversion Hcalc; subst. discriminate. }
  eapply lookupVolume_nearest; eauto.
Qed.

Lemma height_column_witness :
  exists hk,
    Some "Mouille"%string = Some hk
    /\ heightColumnRule ["Volume"; "Mouille"]%string hk.
Proof.
  destruct (height_column
              [[("Volume", num 220); ("Mouille", num 25)]]
              [("Volume", num 220); ("Mouille", num 25)] []
              (mkMemo (Some "Mouille"%string) ["Volume"%string]
                 [(JS.of_Z 25, [("Volume", num 220); ("Mouille", num 25)])])
              eq_refl)
    as (hk & Hk & Hrule & _).
  - vm_compute. reflexivity.
  - exists hk. split; [exact Hk | exact Hrule].
Defined.

Lemma rowAt_exists (hk : string) (barrelData : BarrelData) (x : JS.number) (row : TableRow) :
  In row barrelData -> registersAt hk x row = true ->
  exists last, rowAt hk barrelData x = Some last.
Proof.
  intros Hin Hr. unfold rowAt.
  destruct (find (registersAt hk x) (rev barrelData)) as [last|] eqn:E; eauto.
  apply in_rev in Hin. rewrite (find_none _ _ E row Hin) in Hr. discriminate.
Qed.

Lemma noIndexedHeight_rowAt (hk : string) (barrelData : BarrelData) :
  noIndexedHeight hk barrelData -> forall x, rowAt hk barrelData x = None.
Proof.
  intros H x. destruct (rowAt hk barrelData x) as [row|] eqn:E; auto.
  apply rowAt_registers in E. destruct E as [Hin Hr].
  unfold registersAt in Hr. destruct (Obj.get row hk) as [c|] eqn:Ec; [|discriminate].
  rewrite (H row c Hin Ec) in Hr. discriminate.
Qed.

(** C8, as stated, fails.  When no row has a numeric height the index is
    empty and the status is [unavailable], not [not-found]; and a row whose
    height is null is a row of height 0 for the index but has no height for
    the scan, so that the scan finds nothing while a row with a numeric
    height exists. *)
Lemma nearest_counterexample :
  handleCalculate [[("Mouille", text "abc"); ("Volume", num 1)]] "Volume" "3" =
    Some (mkDisplay unavailable (VStr "N/A") None)
  /\ handleCalculate [[("Mouille", blank); ("Volume", num 1)]] "Volume" "3" =
       Some (mkDisplay not_found (VStr "No match found") None)
  /\ rowAt "Mouille" [[("Mouille", blank); ("Volume", num 1)]] (JS.of_Z 0) =
       Some [("Mouille", blank); ("Volume", num 1)].
Proof. repeat split; vm_compute; reflexivity. Qed.

(** C8, amended: when there is no exact height match and no complete
    bounding pair at [floor(queryHeight)] and [ceil(queryHeight)], calculate
    reports [unavailable] if no row has a height that [Number] coerces to a
    number; otherwise it scans all rows left to right, reads the height of
    each row with [parseFloat(String(value))], and returns with status
    [nearest] the target value of the first row whose distance
    [|rowHeight - queryHeight|] is finite and minimal (strictly smaller
    than that of every earlier row, not larger than that of any later row);
    if no row has a finite distance, the status is [not-found]. *)
Theorem nearest_fallback (barrelData : BarrelData) (hk target wetHeight : string) :
  heightKeyOf barrelData = Some hk -> hk <> "" -> target <> "" ->
  hasColumn hk barrelData -> hasColumn target barrelData ->
  JS.isNaN (JS.parseFloat wetHeight) = false ->
  rowAt hk barrelData (JS.parseFloat wetHeight) = None ->
  rowAt hk barrelData (JS.floor (JS.parseFloat wetHeight)) = None
  \/ rowAt hk barrelData (JS.ceil (JS.parseFloat wetHeight)) = None ->
  (noIndexedHeight hk barrelData ->
   handleCalculate barrelData target wetHeight =
   Some (mkDisplay unavailable (VStr "N/A") None))
  /\ ((exists row c, In row barrelData /\ Obj.get row hk = Some c
                     /\ JS.isNaN (Number (value c)) = false) ->
      exists d,
        handleCalculate barrelData target wetHeight = Some d
        /\ ((status d = nearest
             /\ exists before row after,
                  barrelData = before ++ row :: after
                  /\ firstNearest hk (JS.parseFloat wetHeight) before row after
                  /\ cellValue row target = Some (volume d))
            \/ (d = mkDisplay not_found (VStr "No match found") None
                /\ forall r, In r barrelData ->
                     JS.ltb (scanDiff hk (JS.parseFloat wetHeight) r) JS.Infinity = false))).
Proof.
  intros Hk Hhk Ht Hcol Htarget Hnan Hexact Hbound. split.
  - intros Hnone. apply (handleCalculate_empty_index _ _ _ hk); auto.
    now apply noIndexedHeight_rowAt.
  - intros (row0 & c0 & Hin0 & Hc0 & Hn0).
    destruct (handleCalculate_guards barrelData target wetHeight hk)
      as (map & Hmap & ->); auto.
    { exists (Number (value c0)). eapply rowAt_some; eauto. }
    unfold lookupVolume. rewrite !Hmap, Hexact.
    destruct (closest_spec hk (JS.parseFloat wetHeight) barrelData Hcol)
      as ([closestRow minDiff] & Hc & Hst).
    assert (Hscan :
      exists d,
        match closest hk (JS.parseFloat wetHeight) barrelData with
        | Some (Some closestRow, _) =>
            match cellValue closestRow target, cellValue closestRow hk with
            | Some v, Some h =>
                Some (mkDisplay nearest v
                        (Some ("No exact match. Showing value for closest height: "
                               ++ ToString h ++ ".")%string))
            | _, _ => None
            end
        | Some (None, _) => Some (mkDisplay not_found (VStr "No match found") None)
        | None => None
        end = Some d
        /\ ((status d = nearest
             /\ exists before row after,
                  barrelData = before ++ row :: after
                  /\ firstNearest hk (JS.parseFloat wetHeight) before row after
                  /\ cellValue row target = Some (volume d))
            \/ (d = mkDisplay not_found (VStr "No match found") None
                /\ forall r, In r barrelData ->
                     JS.ltb (scanDiff hk (JS.parseFloat wetHeight) r) JS.Infinity = false))).
    { rewrite Hc. destruct closestRow as [row|]; cbn in Hst.
      - destruct Hst as (_ & before & after & Hsplit & Hfirst).
        assert (Hin : In row barrelData)
          by (rewrite Hsplit; apply in_or_app; right; now left).
        unfold hasColumn in Hcol, Htarget. rewrite Forall_forall in Hcol, Htarget.
        specialize (Hcol row Hin). specialize (Htarget row Hin).
        unfold cellValue.
        destruct (Obj.get row target) as [ct|] eqn:Et; [|congruence].
        destruct (Obj.get row hk) as [ch|]; [|congruence].
        eexists. split; [reflexivity|]. left. split; [reflexivity|].
        exists before, row, after. split; [exact Hsplit|]. split; [exact Hfirst|].
        now rewrite Et.
      - destruct Hst as (_ & Hall). eexists. split; [reflexivity|]. right. auto. }
    destruct Hbound as [Hlo|Hup].
    + rewrite Hlo. exact Hscan.
    + rewrite Hup.
      destruct (rowAt hk barrelData (JS.floor (JS.parseFloat wetHeight))); exact Hscan.
Qed.

Lemma nearest_fallback_witness :
  exists d,
    handleCalculate table_10_50 "Volume" "12" = Some d
    /\ ((status d = nearest
         /\ exists before row after,
              table_10_50 = before ++ row :: after
              /\ firstNearest "Mouille" (JS.parseFloat "12") before row after
              /\ cellValue row "Volume" = Some (volume d))
        \/ (d = mkDisplay not_found (VStr "No match found") None
            /\ forall r, In r table_10_50 ->
                 JS.ltb (scanDiff "Mouille" (JS.parseFloat "12") r) JS.Infinity = false)).
Proof.
  refine (proj2 (nearest_fallback table_10_50 "Mouille" "Volume" "12"
                   _ _ _ _ _ _ _ _) _).
  - reflexivity.
  - discriminate.
  - discriminate.
  - repeat constructor; discriminate.
  - repeat constructor; discriminate.
  - vm_compute; reflexivity.
  - vm_compute; reflexivity.
  - left. vm_compute; reflexivity.
  - exists [("Mouille", num 10); ("Volume", num 95)], (num 10).
    repeat split; try (vm_compute; reflexivity). now left.
Defined.

Lemma blankHeight_registers (hk : string) (row : TableRow) :
  blankHeight hk row -> registersAt hk JS.pzero row = true.
Proof.
  intros (c & Hc & Hv). unfold registersAt. rewrite Hc.
  assert (Hz : Number (value c) = JS.pzero).
  { destruct Hv as [-> | (s & -> & Hs)]; auto.
    cbn. unfold JS.stringToNumber, JS.is_blank in *.
    destruct (JS.trimStart s); [reflexivity|discriminate]. }
  rewrite Hz. reflexivity.
Qed.

(** C10, as stated, fails when two rows have a null height: both are
    registered under 0, the later one replaces the earlier one in the index,
    and the query 0 returns the target value of the later row. *)
Lemma null_height_counterexample :
  blankHeight "Mouille" [("Mouille", blank); ("Volume", num 1)]
  /\ In [("Mouille", blank); ("Volume", num 1)]
        [[("Mouille", blank); ("Volume", num 1)]; [("Mouille", blank); ("Volume", num 2)]]
  /\ handleCalculate
       [[("Mouille", blank); ("Volume", num 1)]; [("Mouille", blank); ("Volume", num 2)]]
       "Volume" "0"
     = Some (mkDisplay exact (VNum (JS.of_Z 2)) (Some "Exact value found in table."%string))
  /\ VNum (JS.of_Z 2) <> VNum (JS.of_Z 1).
Proof.
  split; [|split; [|split]].
  - exists blank. split; [reflexivity|]. now left.
  - now left.
  - vm_compute; reflexivity.
  - vm_compute. discriminate.
Qed.

(** C10, amended: for every dataset containing a row whose height cell is
    null, the empty string or white space, the height index registers that
    row under the numeric height 0, and calculate with the query height 0
    returns status [exact] with the target value of the last row registered
    under 0: of that row itself when no later row is registered under 0. *)
Theorem null_height_is_zero (barrelData : BarrelData) (hk target : string)
    (row : TableRow) :
  heightKeyOf barrelData = Some hk -> hk <> "" -> target <> "" ->
  hasColumn hk barrelData ->
  In row barrelData -> blankHeight hk row ->
  registersAt hk JS.pzero row = true
  /\ exists last,
       rowAt hk barrelData JS.pzero = Some last
       /\ forall v, cellValue last target = Some v ->
            handleCalculate barrelData target "0" =
            Some (mkDisplay exact v (Some "Exact value found in table."%string)).
Proof.
  intros Hk Hhk Ht Hcol Hin Hblank.
  pose proof (blankHeight_registers hk row Hblank) as Hreg.
  split; auto.
  destruct (rowAt_exists hk barrelData JS.pzero row Hin Hreg) as (last & Hlast).
  exists last. split; auto. intros v Hv.
  destruct (handleCalculate_guards barrelData target "0" hk)
    as (map & Hmap & ->); auto.
  { exists JS.pzero. rewrite Hlast. discriminate. }
  unfold lookupVolume. rewrite Hmap.
  change (JS.parseFloat "0") with JS.pzero. now rewrite Hlast, Hv.
Qed.

Lemma null_height_is_zero_witness :
  exists last,
    rowAt "Mouille" [[("Mouille", num 10); ("Volume", num 95)];
                     [("Mouille", text " "); ("Volume", num 7)]] JS.pzero = Some last
    /\ forall v, cellValue last "Volume" = Some v ->
         handleCalculate [[("Mouille", num 10); ("Volume", num 95)];
                          [("Mouille", text " "); ("Volume", num 7)]] "Volume" "0" =
         Some (mkDisplay exact v (Some "Exact value found in table."%string)).
Proof.
  refine (proj2 (null_height_is_zero
                   [[("Mouille", num 10); ("Volume", num 95)];
                    [("Mouille", text " "); ("Volume", num 7)]]
                   "Mouille" "Volume" [("Mouille", text " "); ("Volume", num 7)]
                   _ _ _ _ _ _)).
  - reflexivity.
  - discriminate.
  - discriminate.
  - repeat constructor; discriminate.
  - right. now left.
  - exists (text " "). split; [reflexivity|]. right. exists " "%string.
    split; reflexivity.
Defined.

(** ** The row reconciler: where rows and cells come from *)

Lemma mergeBarrelData_early (existingData newData : BarrelData) :
  primaryKeyOf existingData = None -> newData <> [] ->
  mergeBarrelData existingData newData = newData.
Proof.
  intros Hpk Hn. unfold mergeBarrelData, primaryKeyOf in *.
  destruct newData as [|n newData]; [congruence|].
  destruct existingData as [|first rest]; auto.
  destruct (Obj.keys first) as [|k ks]; auto.
  destruct (String.eqb k ""); [auto|discriminate].
Qed.

Lemma hasKey_congr (pk : string) (k k' : CellValue) (row : TableRow) :
  sameValueZero k k' = true -> hasKey pk k row = hasKey pk k' row.
Proof.
  intros H. unfold hasKey. destruct (rowKey pk row) as [kr|]; auto.
  rewrite !(sameValueZero_sym kr). now apply (same_congr sameValueZero).
Qed.

Lemma hasKey_rowKey (pk : string) (k : CellValue) (row : TableRow) :
  rowKey pk row = Some k -> hasKey pk k row = true.
Proof. unfold hasKey. intros ->. apply sameValueZero_refl. Qed.

Lemma fromSources_congr (pk : string) (sources : BarrelData) (k k' : CellValue)
    (row : TableRow) :
  sameValueZero k k' = true -> fromSources pk sources k row -> fromSources pk sources k' row.
Proof.
  intros Hk H column c Hc. destruct (H column c Hc) as (src & Hin & Hs & Hget).
  exists src. repeat split; auto. now rewrite <- (hasKey_congr pk k k' _ Hk).
Qed.

Section Provenance.
Variable pk : string.
Variable sources : BarrelData.

Local Abbreviation inv :=
  (Forall (fun e : CellValue * TableRow => fromSources pk sources (fst e) (snd e))).

Lemma fromSources_self (row : TableRow) (k : CellValue) :
  In row sources -> hasKey pk k row = true -> fromSources pk sources k row.
Proof. intros Hin Hk column c Hc. exists row. auto. Qed.

Lemma populate_sources (m : list (CellValue * TableRow)) (row : TableRow) :
  In row sources -> inv m -> inv (populate pk m row).
Proof.
  intros Hin Hm. rewrite populate_eq.
  destruct (rowKey pk row) as [key|] eqn:E; auto.
  apply (set_Forall sameValueZero); auto. intros k' Hk'. cbn.
  apply fromSources_self; auto.
  rewrite (hasKey_congr pk k' key _ Hk'). now apply hasKey_rowKey.
Qed.

Lemma mergeNewRow_sources (m : list (CellValue * TableRow)) (newRow : TableRow) :
  In newRow sources -> inv m -> inv (mergeNewRow pk m newRow).
Proof.
  intros Hin Hm. rewrite mergeNewRow_eq.
  destruct (rowKey pk newRow) as [key|] eqn:E; auto.
  assert (Hnew : forall k', sameValueZero k' key = true ->
                            fromSources pk sources k' newRow).
  { intros k' Hk'. apply fromSources_self; auto.
    rewrite (hasKey_congr pk k' key _ Hk'). now apply hasKey_rowKey. }
  destruct (JSMap.get sameValueZero m key) as [existingRow|] eqn:Eg;
    apply (set_Forall sameValueZero); auto.
  intros k' Hk'. cbn.
  destruct (get_In sameValueZero _ _ _ Eg) as (k2 & Hin2 & Hk2).
  rewrite Forall_forall in Hm. specialize (Hm _ Hin2). cbn in Hm.
  assert (Hex : fromSources pk sources k' existingRow).
  { apply (fromSources_congr pk sources k2 k'); auto.
    rewrite (same_congr sameValueZero k2 key k' Hk2). now rewrite sameValueZero_sym. }
  intros column c. rewrite mergeRow_get. unfold mergedCell.
  destruct (Obj.get newRow column) as [c'|] eqn:Ec; [|apply Hex].
  destruct (value c') eqn:Ev; try apply Hex;
    intros [= <-]; apply (Hnew k' Hk'); auto.
Qed.

Lemma populates_sources (rows : BarrelData) :
  incl rows sources -> forall m, inv m -> inv (fold_left (populate pk) rows m).
Proof.
  induction rows as [|row rows IH]; intros Hincl m Hm; cbn; auto.
  apply IH.
  - intros r Hr. apply Hincl. now right.
  - apply populate_sources; auto. apply Hincl. now left.
Qed.

Lemma mergeNewRows_sources (rows : BarrelData) :
  incl rows sources -> forall m, inv m -> inv (fold_left (mergeNewRow pk) rows m).
Proof.
  induction rows as [|row rows IH]; intros Hincl m Hm; cbn; auto.
  apply IH.
  - intros r Hr. apply Hincl. now right.
  - apply mergeNewRow_sources; auto. apply Hincl. now left.
Qed.
End Provenance.

Lemma mergedDataMap_sources (pk : string) (existingData newData : BarrelData) :
  Forall (fun e => fromSources pk (existingData ++ newData) (fst e) (snd e))
    (mergedDataMap pk existingData newData).
Proof.
  unfold mergedDataMap. apply mergeNewRows_sources.
  - intros r Hr. apply in_or_app. now right.
  - apply populates_sources; [|constructor].
    intros r Hr. apply in_or_app. now left.
Qed.

(** X1: the reconciler invents nothing and moves no cell to another key:
    every cell of every output row is the cell, in the same column, of an
    input row, and on the merging path that input row carries the key of the
    output row. *)
Theorem merge_no_invention (existingData newData : BarrelData) (row : TableRow)
    (column : string) (c : CellData) :
  In row (mergeBarrelData existingData newData) -> Obj.get row column = Some c ->
  exists src,
    In src (existingData ++ newData) /\ Obj.get src column = Some c
    /\ forall pk k, primaryKeyOf existingData = Some pk ->
                    hasKey pk k row = true -> hasKey pk k src = true.
Proof.
  intros Hrow Hc.
  assert (Hself : In row (existingData ++ newData) ->
            exists src,
              In src (existingData ++ newData) /\ Obj.get src column = Some c
              /\ forall pk k, primaryKeyOf existingData = Some pk ->
                              hasKey pk k row = true -> hasKey pk k src = true).
  { intros Hin. exists row. auto. }
  destruct newData as [|n rest] eqn:EN.
  { apply Hself. cbn in Hrow. apply in_or_app. now left. }
  rewrite <- EN in *. assert (Hn : newData <> []) by (rewrite EN; discriminate).
  destruct (primaryKeyOf existingData) as [pk|] eqn:Hpk.
  - apply (Permutation_in _ (mergeBarrelData_perm _ _ _ Hn Hpk)) in Hrow.
    unfold JSMap.values in Hrow. apply in_map_iff in Hrow.
    destruct Hrow as ([k' r] & Hr & Hin). cbn in Hr. subst r.
    pose proof (mergedDataMap_sources pk existingData newData) as Hsrc.
    rewrite Forall_forall in Hsrc. specialize (Hsrc _ Hin). cbn in Hsrc.
    destruct (Hsrc column c Hc) as (src & Hs & Hk & Hget).
    exists src. repeat split; auto.
    intros pk' k [= <-] Hrk.
    destruct (mergedDataMap_inv pk existingData newData) as [_ Hkeys].
    rewrite Forall_forall in Hkeys. specialize (Hkeys _ Hin). cbn in Hkeys.
    rewrite <- (hasKey_congr pk k' k src); auto.
    unfold hasKey in Hkeys, Hrk. destruct (rowKey pk row) as [kr|]; [|discriminate].
    rewrite <- (same_congr sameValueZero kr k' k Hkeys). exact Hrk.
  - apply Hself. rewrite mergeBarrelData_early in Hrow by auto.
    apply in_or_app. now right.
Qed.

Lemma merge_no_invention_witness :
  exists src,
    In src ([[("h", num 25); ("v", num 220)]]
            ++ [[("h", num 25); ("v", blank); ("w", num 7)]])
    /\ Obj.get src "w" = Some (num 7)
    /\ forall pk k, primaryKeyOf [[("h", num 25); ("v", num 220)]] = Some pk ->
         hasKey pk k [("h", num 25); ("v", num 220); ("w", num 7)] = true ->
         hasKey pk k src = true.
Proof.
  apply (merge_no_invention [[("h", num 25); ("v", num 220)]]
           [[("h", num 25); ("v", blank); ("w", num 7)]]
           [("h", num 25); ("v", num 220); ("w", num 7)] "w" (num 7)).
  - vm_compute. now left.
  - reflexivity.
Defined.

Lemma set_length {K V : Type} (same : K -> K -> bool) (m : list (K * V)) (k : K) (v : V) :
  (List.length (JSMap.set same m k v) <= S (List.length m))%nat.
Proof.
  induction m as [|[k' v'] rest IH]; cbn; auto.
  destruct (same k' k); cbn; lia.
Qed.

Lemma steps_length (pk : string)
    (step : list (CellValue * TableRow) -> TableRow -> list (CellValue * TableRow))
    (rows : BarrelData) :
  step = populate pk \/ step = mergeNewRow pk ->
  forall m, (List.length (fold_left step rows m) <= List.length m + List.length rows)%nat.
Proof.
  intros Hstep. induction rows as [|row rows IH]; intros m; cbn [fold_left List.length].
  - lia.
  - specialize (IH (step m row)).
    assert (Hs : (List.length (step m row) <= S (List.length m))%nat).
    { pose proof (step_shape pk m row step Hstep) as H.
      destruct (rowKey pk row) as [key|].
      - destruct H as (stored & -> & _). apply set_length.
      - rewrite H. lia. }
    lia.
Qed.

(** X2: the reconciler never returns more rows than it was given: the
    output is no longer than the two inputs together. *)
Theorem merge_length (existingData newData : BarrelData) :
  (List.length (mergeBarrelData existingData newData)
   <= List.length existingData + List.length newData)%nat.
Proof.
  destruct newData as [|n rest] eqn:EN; [cbn; lia|].
  rewrite <- EN in *. assert (Hn : newData <> []) by (rewrite EN; discriminate).
  destruct (primaryKeyOf existingData) as [pk|] eqn:Hpk.
  - rewrite (Permutation_length (mergeBarrelData_perm _ _ _ Hn Hpk)).
    unfold JSMap.values. rewrite length_map. unfold mergedDataMap.
    eapply Nat.le_trans; [apply (steps_length pk); auto|].
    apply Nat.add_le_mono_r.
    apply (steps_length pk (populate pk) existingData (or_introl eq_refl) []).
  - rewrite mergeBarrelData_early by auto. lia.
Qed.

(** ** The row reconciler: one key at a time *)

Lemma mergeNewRow_get_other (pk : string) (k : CellValue)
    (m : list (CellValue * TableRow)) (newRow : TableRow) :
  hasKey pk k newRow = false ->
  JSMap.get sameValueZero (mergeNewRow pk m newRow) k = JSMap.get sameValueZero m k.
Proof.
  intros H. rewrite mergeNewRow_eq. unfold hasKey in H.
  destruct (rowKey pk newRow) as [key|]; auto.
  destruct (JSMap.get sameValueZero m key);
    apply (get_set_other sameValueZero); auto.
Qed.

Lemma mergeNewRows_get_other (pk : string) (k : CellValue) (rows : BarrelData) :
  Forall (fun r => hasKey pk k r = false) rows ->
  forall m, JSMap.get sameValueZero (fold_left (mergeNewRow pk) rows m) k =
            JSMap.get sameValueZero m k.
Proof.
  induction 1 as [|row rows Hrow _ IH]; intros m; cbn [fold_left]; auto.
  now rewrite IH, mergeNewRow_get_other.
Qed.

Lemma lastWithKey_none (pk : string) (k : CellValue) (rows : BarrelData) :
  Forall (fun r => hasKey pk k r = false) rows -> lastWithKey pk k rows = None.
Proof.
  intros H. unfold lastWithKey.
  destruct (find (hasKey pk k) (rev rows)) as [r|] eqn:E; auto.
  apply find_some in E. destruct E as [Hin Hk].
  rewrite Forall_forall in H. rewrite (H r) in Hk; [discriminate|]. now apply in_rev.
Qed.

Lemma lastWithKey_single (pk : string) (k : CellValue) (before after : BarrelData)
    (row : TableRow) :
  hasKey pk k row = true -> Forall (fun r => hasKey pk k r = false) after ->
  lastWithKey pk k (before ++ row :: after) = Some row.
Proof.
  intros Hk Ha. unfold lastWithKey.
  rewrite rev_app_distr. cbn [rev]. rewrite <- app_assoc, find_app.
  fold (lastWithKey pk k after). rewrite (lastWithKey_none _ _ _ Ha).
  cbn. now rewrite Hk.
Qed.

(** The row that the map stores under a key is an output row of that
    key. *)
Lemma stored_row_output (existingData newData : BarrelData) (pk : string)
    (k : CellValue) (row : TableRow) :
  newData <> [] -> primaryKeyOf existingData = Some pk ->
  JSMap.get sameValueZero (mergedDataMap pk existingData newData) k = Some row ->
  In row (mergeBarrelData existingData newData) /\ hasKey pk k row = true.
Proof.
  intros Hn Hpk Hget.
  destruct (get_In _ _ _ _ Hget) as (k' & Hin & Hk'). split.
  - apply Permutation_in with (JSMap.values (mergedDataMap pk existingData newData)).
    + symmetry. now apply mergeBarrelData_perm.
    + unfold JSMap.values. apply in_map_iff. exists (k', row). auto.
  - destruct (mergedDataMap_inv pk existingData newData) as [_ Hk].
    rewrite Forall_forall in Hk. specialize (Hk _ Hin). cbn in Hk.
    now rewrite <- (hasKey_congr pk k' k row Hk').
Qed.

(** X3: on the merging path a row whose key no other row of the two
    inputs carries is an output row, cell for cell and column for column:
    an existing row that the batch does not mention is kept as it is, and a
    new row with a new key is inserted as it is. *)
Theorem merge_keeps_single (existingData newData : BarrelData) (pk : string)
    (k : CellValue) (row : TableRow) (before after : BarrelData) :
  newData <> [] -> primaryKeyOf existingData = Some pk ->
  hasKey pk k row = true ->
  Forall (fun r => hasKey pk k r = false) (before ++ after) ->
  (existingData = before ++ row :: after
   /\ Forall (fun r => hasKey pk k r = false) newData)
  \/ (newData = before ++ row :: after
      /\ Forall (fun r => hasKey pk k r = false) existingData) ->
  In row (mergeBarrelData existingData newData).
Proof.
  intros Hn Hpk Hk Hothers Hwhere.
  apply Forall_app in Hothers. destruct Hothers as [Hb Ha].
  apply (stored_row_output existingData newData pk k row Hn Hpk).
  unfold mergedDataMap. destruct Hwhere as [[-> Hnew] | [-> Hold]].
  - rewrite mergeNewRows_get_other by auto.
    rewrite populates_get. now rewrite lastWithKey_single.
  - rewrite fold_left_app. cbn [fold_left].
    rewrite mergeNewRows_get_other by auto.
    rewrite mergeNewRow_eq. unfold hasKey in Hk.
    destruct (rowKey pk row) as [key|] eqn:E; [|discriminate].
    assert (Hnone : JSMap.get sameValueZero
                      (fold_left (mergeNewRow pk) before
                         (fold_left (populate pk) existingData [])) key = None).
    { rewrite (get_congr sameValueZero _ key k Hk).
      rewrite mergeNewRows_get_other by auto.
      rewrite populates_get. now rewrite lastWithKey_none. }
    rewrite Hnone. now apply (get_set_same sameValueZero).
Qed.

Lemma merge_keeps_single_witness :
  In [("h", num 26); ("v", num 230)]
     (mergeBarrelData [[("h", num 25); ("v", num 220)]]
        [[("h", num 25); ("v", blank)]; [("h", num 26); ("v", num 230)]]).
Proof.
  apply (merge_keeps_single [[("h", num 25); ("v", num 220)]]
           [[("h", num 25); ("v", blank)]; [("h", num 26); ("v", num 230)]]
           "h" (VNum (JS.of_Z 26)) [("h", num 26); ("v", num 230)]
           [[("h", num 25); ("v", blank)]] []).
  - discriminate.
  - reflexivity.
  - vm_compute; reflexivity.
  - repeat constructor.
  - right. split; [reflexivity|]. repeat constructor.
Defined.



Lemma Obj_keys_set (row : TableRow) (k : string) (c : CellData) :
  Obj.keys (Obj.set row k c) =
  if existsb (String.eqb k) (Obj.keys row) then Obj.keys row else Obj.keys row ++ [k].
Proof.
  unfold Obj.keys. induction row as [|[k' c'] rest IH]; cbn; auto.
  rewrite (String.eqb_sym k k'). destruct (String.eqb k' k) eqn:E; cbn; auto.
  rewrite IH. destruct (existsb (String.eqb k) (map fst rest)); auto.
Qed.

Lemma mergeCell_keys (newRow mergedRow : TableRow) (k : string) :
  Obj.keys (mergeCell newRow mergedRow k) =
  Obj.keys mergedRow ++ (if newColumn mergedRow newRow k then [k] else []).
Proof.
  unfold mergeCell, newColumn.
  destruct (Obj.get newRow k) as [c|]; [|now rewrite app_nil_r].
  destruct (value c); try (now rewrite app_nil_r);
    rewrite Obj_keys_set; destruct (existsb (String.eqb k) (Obj.keys mergedRow));
    cbn; now rewrite ?app_nil_r.
Qed.

Lemma mergeCells_keys (newRow : TableRow) (ks : list string) :
  NoDup ks ->
  forall mergedRow,
  Obj.keys (fold_left (mergeCell newRow) ks mergedRow) =
  Obj.keys mergedRow ++ filter (newColumn mergedRow newRow) ks.
Proof.
  induction 1 as [|k ks Hk Hnd IH]; intros mergedRow; cbn [fold_left filter].
  - now rewrite app_nil_r.
  - rewrite IH, mergeCell_keys, <- app_assoc. f_equal.
    assert (Hext : filter (newColumn (mergeCell newRow mergedRow k) newRow) ks =
                   filter (newColumn mergedRow newRow) ks).
    { apply filter_ext_in. intros k' Hin. unfold newColumn.
      destruct (Obj.get newRow k') as [c|]; auto.
      destruct (value c); auto; f_equal;
        rewrite mergeCell_keys, existsb_app;
        destruct (newColumn mergedRow newRow k); cbn; rewrite ?orb_false_r; auto;
        assert (Hne : String.eqb k' k = false)
          by (apply String.eqb_neq; intros ->; contradiction);
        now rewrite Hne, orb_false_r. }
    rewrite Hext. destruct (newColumn mergedRow newRow k); reflexivity.
Qed.

(** X5: the row of a key that one incoming row updates: when the key
    column is not named like a member of [Object.prototype], the existing
    dataset holds the row [existingRow] under a key, exactly one incoming
    row carries that key and the columns that it adds have plain names
    (neither inherited nor integer names), the output contains the merged
    row; its columns are those of the existing row, in their order, followed
    by the columns that only the incoming row has a value in, in the order
    of the incoming row; and each of its cells is the incoming cell when
    that is not null, the existing cell otherwise. *)
Theorem merge_updates_row (existingData newData : BarrelData) (pk : string)
    (k : CellValue) (existingRow newRow : TableRow) (before after : BarrelData) :
  primaryKeyOf existingData = Some pk ->
  lastWithKey pk k existingData = Some existingRow ->
  newData = before ++ newRow :: after ->
  hasKey pk k newRow = true ->
  Forall (fun r => hasKey pk k r = false) (before ++ after) ->
  NoDup (Obj.keys newRow) ->
  Obj.inherited pk = false ->
  Forall (fun column => Obj.plain column = true)
         (filter (newColumn existingRow newRow) (Obj.keys newRow)) ->
  In (mergeRow existingRow newRow) (mergeBarrelData existingData newData)
  /\ Obj.keys (mergeRow existingRow newRow) =
     Obj.keys existingRow ++ filter (newColumn existingRow newRow) (Obj.keys newRow)
  /\ forall column,
       Obj.get (mergeRow existingRow newRow) column =
       mergedCell existingRow newRow column.
Proof.
  intros Hpk Hlast -> Hk Hothers Hnd _ _.
  apply Forall_app in Hothers. destruct Hothers as [Hb Ha].
  assert (Hn : before ++ newRow :: after <> []) by (destruct before; discriminate).
  split; [|split].
  - apply (stored_row_output existingData (before ++ newRow :: after) pk k _ Hn Hpk).
    unfold mergedDataMap. rewrite fold_left_app. cbn [fold_left].
    rewrite mergeNewRows_get_other by auto.
    rewrite mergeNewRow_eq. unfold hasKey in Hk.
    destruct (rowKey pk newRow) as [key|] eqn:E; [|discriminate].
    assert (Hsome : JSMap.get sameValueZero
                      (fold_left (mergeNewRow pk) before
                         (fold_left (populate pk) existingData [])) key
                    = Some existingRow).
    { rewrite (get_congr sameValueZero _ key k Hk).
      rewrite mergeNewRows_get_other by auto.
      rewrite populates_get. now rewrite Hlast. }
    rewrite Hsome. now apply (get_set_same sameValueZero).
  - unfold mergeRow. now apply mergeCells_keys.
  - intros column. apply mergeRow_get.
Qed.

Lemma merge_updates_row_witness :
  In [("h", num 25); ("v", num 221); ("w", num 7)]
     (mergeBarrelData [[("h", num 25); ("v", num 220)]]
        [[("w", num 7); ("h", num 25); ("v", num 221); ("u", blank)]]).
Proof.
  apply (merge_updates_row [[("h", num 25); ("v", num 220)]]
           [[("w", num 7); ("h", num 25); ("v", num 221); ("u", blank)]]
           "h" (VNum (JS.of_Z 25)) [("h", num 25); ("v", num 220)]
           [("w", num 7); ("h", num 25); ("v", num 221); ("u", blank)] [] []).
  - reflexivity.
  - vm_compute; reflexivity.
  - reflexivity.
  - vm_compute; reflexivity.
  - constructor.
  - repeat constructor; cbn; intuition discriminate.
  - reflexivity.
  - repeat constructor.
Defined.

(** ** The volume calculator: errors, guards and the three lookups *)

Lemma cellValue_total (column : string) (data : BarrelData) (row : TableRow) :
  hasColumn column data -> In row data -> cellValue row column <> None.
Proof.
  intros Hcol Hin. unfold hasColumn in Hcol. rewrite Forall_forall in Hcol.
  specialize (Hcol row Hin). unfold cellValue.
  destruct (Obj.get row column); congruence.
Qed.

(** The lookup raises nothing on a dataset whose rows all have the
    height column and the selected column. *)
Lemma lookupVolume_total (barrelData : BarrelData) (map : HeightMap)
    (hk target : string) (height : JS.number) :
  hasColumn hk barrelData -> hasColumn target barrelData ->
  (forall x, JSMap.get JS.num_sameValueZero map x = rowAt hk barrelData x) ->
  lookupVolume barrelData map hk target height <> None.
Proof.
  intros Hhk Ht Hmap.
  assert (Hrow : forall x row, rowAt hk barrelData x = Some row ->
                   exists v, cellValue row target = Some v).
  { intros x row H. apply rowAt_registers in H. destruct H as [Hin _].
    pose proof (cellValue_total target barrelData row Ht Hin).
    destruct (cellValue row target); [eauto|congruence]. }
  unfold lookupVolume. rewrite !Hmap.
  destruct (rowAt hk barrelData height) as [row|] eqn:E.
  { destruct (Hrow _ _ E) as (v & ->). discriminate. }
  destruct (closest_spec hk height barrelData Hhk) as ([closestRow minDiff] & Hc & Hst).
  rewrite Hc.
  assert (Hnear :
            match closestRow with
            | Some closestRow =>
                match cellValue closestRow target, cellValue closestRow hk with
                | Some v, Some h =>
                    Some (mkDisplay nearest v
                            (Some ("No exact match. Showing value for closest height: "
                                   ++ ToString h ++ "."))%string)
                | _, _ => None
                end
            | None => Some (mkDisplay not_found (VStr "No match found") None)
            end <> None).
  { destruct closestRow as [row|]; [|discriminate].
    cbn in Hst. destruct Hst as (_ & before & after & -> & _).
    assert (Hin : In row (before ++ row :: after)) by (apply in_or_app; right; now left).
    pose proof (cellValue_total target _ row Ht Hin).
    pose proof (cellValue_total hk _ row Hhk Hin).
    destruct (cellValue row target); [|congruence].
    destruct (cellValue row hk); [discriminate|congruence]. }
  destruct (rowAt hk barrelData (JS.floor height)) as [lowerRow|] eqn:El;
    destruct (rowAt hk barrelData (JS.ceil height)) as [upperRow|] eqn:Eu; auto.
  destruct (Hrow _ _ El) as (lv & ->). destruct (Hrow _ _ Eu) as (uv & ->).
  destruct (JS.isNaN (Number lv) || JS.isNaN (Number uv)); discriminate.
Qed.

(** The calculator raises nothing on a non-empty dataset whose rows all
    have the height column and the selected column. *)
Lemma handleCalculate_total (barrelData : BarrelData) (hk target wetHeight : string) :
  heightKeyOf barrelData = Some hk ->
  hasColumn hk barrelData -> hasColumn target barrelData ->
  handleCalculate barrelData target wetHeight <> None.
Proof.
  intros Ek Hhk Ht.
  destruct (useMemo_spec _ _ Ek Hhk) as (memo & Hmemo & Hkey & Hmap).
  unfold handleCalculate. rewrite Hmemo, Hkey. cbn [propertyKey].
  match goal with |- context [if ?c then _ else _] => destruct c end; [discriminate|].
  destruct (JS.isNaN (JS.parseFloat wetHeight)); [discriminate|].
  now apply lookupVolume_total.
Qed.

(** X6: the calculator raises no TypeError on a rectangular dataset: when
    every row has the height column and the selected volume column,
    [handleCalculate] returns a display for every text of the height field,
    the empty dataset included. *)
Theorem calculate_never_raises (barrelData : BarrelData) (target wetHeight : string) :
  (forall hk, heightKeyOf barrelData = Some hk -> hasColumn hk barrelData) ->
  hasColumn target barrelData ->
  exists d, handleCalculate barrelData target wetHeight = Some d.
Proof.
  intros Hhk Ht.
  destruct barrelData as [|first rest] eqn:ED; [eexists; reflexivity|]. rewrite <- ED in *.
  destruct (heightKeyOf barrelData) as [hk|] eqn:Ek.
  - pose proof (handleCalculate_total barrelData hk target wetHeight Ek
                  (Hhk hk eq_refl) Ht) as H.
    destruct (handleCalculate barrelData target wetHeight); [eauto|congruence].
  - exfalso. subst barrelData. cbn in Ek.
    inversion Ht as [|? ? Hfirst _]; subst.
    unfold potentialHeightKey in Ek.
    destruct (find _ (Obj.keys first)); [discriminate|].
    destruct first as [|[k c] cols]; [now apply Hfirst|discriminate].
Qed.

Lemma calculate_never_raises_witness :
  exists d, handleCalculate table_10_50 "Volume" "abc" = Some d.
Proof.
  apply (calculate_never_raises table_10_50 "Volume" "abc").
  - intros hk H. cbn in H. injection H as <-. repeat constructor; discriminate.
  - repeat constructor; discriminate.
Defined.

(** X7: one row without the height column disables the calculator, when
    that column is not named like a member of [Object.prototype]: the
    [useMemo] block raises a TypeError on [row[heightKey].value], so that no
    query, valid or not, gets an answer. *)
Theorem calculate_missing_height (barrelData : BarrelData) (hk target wetHeight : string)
    (row : TableRow) :
  heightKeyOf barrelData = Some hk -> Obj.inherited hk = false ->
  In row barrelData -> Obj.get row hk = None ->
  useMemo barrelData = None /\ handleCalculate barrelData target wetHeight = None.
Proof.
  intros Hk _ Hin Hrow.
  assert (H : useMemo barrelData = None).
  { destruct (useMemo barrelData) as [memo|] eqn:Hmemo; auto. exfalso.
    destruct (useMemo_success barrelData memo) as (hk' & Hk' & _ & Hcol); auto.
    { intros ->. destruct Hin. }
    rewrite Hk in Hk'. inversion Hk'; subst hk'.
    unfold hasColumn in Hcol. rewrite Forall_forall in Hcol.
    now apply (Hcol row Hin). }
  split; auto. unfold handleCalculate. now rewrite H.
Qed.

Lemma calculate_missing_height_witness :
  useMemo [[("Mouille", num 20); ("Volume", num 200)]; [("Volume", num 300)]] = None
  /\ handleCalculate [[("Mouille", num 20); ("Volume", num 200)]; [("Volume", num 300)]]
       "Volume" "20" = None.
Proof.
  apply (calculate_missing_height
           [[("Mouille", num 20); ("Volume", num 200)]; [("Volume", num 300)]]
           "Mouille" "Volume" "20" [("Volume", num 300)]).
  - reflexivity.
  - reflexivity.
  - right. now left.
  - reflexivity.
Defined.

(** X8: the order of the guards: on a dataset whose rows all have the
    height column, an empty height-column name, an empty selection or an
    empty index gives [N/A] whatever the height field holds; [Invalid
    input] is reported only when none of these holds and [parseFloat] reads
    no number from the height field. *)
Theorem calculate_guard_order (barrelData : BarrelData) (hk target wetHeight : string) :
  heightKeyOf barrelData = Some hk -> hasColumn hk barrelData ->
  (hk = "" \/ target = "" \/ (forall x, rowAt hk barrelData x = None) ->
   handleCalculate barrelData target wetHeight =
   Some (mkDisplay unavailable (VStr "N/A") None))
  /\ (hk <> "" -> target <> "" -> (exists x, rowAt hk barrelData x <> None) ->
      JS.isNaN (JS.parseFloat wetHeight) = true ->
      handleCalculate barrelData target wetHeight =
      Some (mkDisplay invalid_input (VStr "Invalid input") None)).
Proof.
  intros Hk Hcol.
  destruct (useMemo_spec _ _ Hk Hcol) as (memo & Hmemo & Hkey & Hmap).
  unfold handleCalculate. rewrite Hmemo, Hkey. split.
  - intros [-> | [-> | Hnone]].
    + cbn. now rewrite orb_true_r.
    + cbn. now rewrite orb_true_r.
    + assert (Hm : dataMap memo = []).
      { apply (get_all_none JS.num_sameValueZero). intros x. now rewrite Hmap. }
      rewrite Hm. cbn. now rewrite !orb_true_r.
  - intros Hhk Ht (x & Hx) Hnan. rewrite Hnan.
    apply String.eqb_neq in Hhk, Ht. rewrite Hhk, Ht.
    destruct barrelData as [|first rest]; [discriminate|].
    destruct (dataMap memo) as [|e m] eqn:Em; [|reflexivity].
    exfalso. apply Hx. rewrite <- Hmap. reflexivity.
Qed.

Lemma calculate_guard_order_witness :
  handleCalculate table_20_30 "" "abc" = Some (mkDisplay unavailable (VStr "N/A") None)
  /\ handleCalculate table_20_30 "Volume" "abc" =
     Some (mkDisplay invalid_input (VStr "Invalid input") None).
Proof.
  assert (Hk : heightKeyOf table_20_30 = Some "Mouille"%string) by reflexivity.
  assert (Hcol : hasColumn "Mouille" table_20_30) by (repeat constructor; discriminate).
  split.
  - apply (proj1 (calculate_guard_order table_20_30 "Mouille" "" "abc" Hk Hcol)).
    right. now left.
  - apply (proj2 (calculate_guard_order table_20_30 "Mouille" "Volume" "abc" Hk Hcol)).
    + discriminate.
    + discriminate.
    + exists (JS.of_Z 20). vm_compute. discriminate.
    + vm_compute; reflexivity.
Defined.

(** A display that [handleCalculate] returns is the guard message, the
    message for a height that is not a number, or the result of the lookup
    in the index of the height column. *)
Lemma handleCalculate_inv (barrelData : BarrelData) (target wetHeight : string)
    (d : Display) :
  handleCalculate barrelData target wetHeight = Some d ->
  d = mkDisplay unavailable (VStr "N/A") None
  \/ d = mkDisplay invalid_input (VStr "Invalid input") None
  \/ exists hk map,
       heightKeyOf barrelData = Some hk /\ hasColumn hk barrelData
       /\ (forall x, JSMap.get JS.num_sameValueZero map x = rowAt hk barrelData x)
       /\ JS.isNaN (JS.parseFloat wetHeight) = false
       /\ lookupVolume barrelData map hk target (JS.parseFloat wetHeight) = Some d.
Proof.
  unfold handleCalculate.
  destruct (useMemo barrelData) as [memo|] eqn:Hmemo; [|discriminate].
  match goal with |- context [if ?c then _ else _] => destruct c eqn:Hg end.
  { intros [= <-]. now left. }
  destruct (JS.isNaN (JS.parseFloat wetHeight)) eqn:Hnan.
  { intros [= <-]. right. now left. }
  intros H. right. right.
  destruct barrelData as [|first rest] eqn:ED; [discriminate Hg|]. rewrite <- ED in *.
  destruct (useMemo_success barrelData memo) as (hk & Hk & Hkey & Hcol); auto.
  { rewrite ED. discriminate. }
  destruct (useMemo_spec _ _ Hk Hcol) as (memo' & Hmemo' & _ & Hmap).
  rewrite Hmemo in Hmemo'. inversion Hmemo'; subst memo'.
  rewrite Hkey in H. cbn [propertyKey] in H.
  exists hk, (dataMap memo). auto.
Qed.

(** X9: the exact match, when neither the height column nor the selected
    column is named like a member of [Object.prototype]: past the guards,
    when a row is registered at the query height, the calculator shows the
    cell of the selected column of the last such row as it is stored, be it
    a number, a text or null, and raises a TypeError when that row lacks the
    column; conversely every display of status [exact] shows the cell of a
    row of the dataset registered at the query height. *)
Theorem calculate_exact (barrelData : BarrelData) (hk target wetHeight : string) :
  heightKeyOf barrelData = Some hk ->
  Obj.inherited hk = false -> Obj.inherited target = false ->
  (hk <> "" -> target <> "" -> hasColumn hk barrelData ->
   JS.isNaN (JS.parseFloat wetHeight) = false ->
   forall row, rowAt hk barrelData (JS.parseFloat wetHeight) = Some row ->
     handleCalculate barrelData target wetHeight =
     match cellValue row target with
     | Some v => Some (mkDisplay exact v (Some "Exact value found in table."%string))
     | None => None
     end)
  /\ (forall d, handleCalculate barrelData target wetHeight = Some d ->
        status d = exact ->
        exists row, rowAt hk barrelData (JS.parseFloat wetHeight) = Some row
                    /\ In row barrelData
                    /\ registersAt hk (JS.parseFloat wetHeight) row = true
                    /\ cellValue row target = Some (volume d)).
Proof.
  intros Hk _ _. split.
  - intros Hhk Ht Hcol Hnan row Hrow.
    destruct (handleCalculate_guards barrelData target wetHeight hk)
      as (map & Hmap & ->); auto.
    { eexists. rewrite Hrow. discriminate. }
    unfold lookupVolume. now rewrite Hmap, Hrow.
  - intros d Hd Hs.
    destruct (handleCalculate_inv _ _ _ _ Hd) as [-> | [-> | H]]; try discriminate.
    destruct H as (hk' & map & Hk' & Hcol & Hmap & Hnan & Hl).
    rewrite Hk in Hk'. inversion Hk'; subst hk'.
    unfold lookupVolume in Hl. rewrite !Hmap in Hl.
    destruct (rowAt hk barrelData (JS.parseFloat wetHeight)) as [row|] eqn:E.
    + exists row. destruct (rowAt_registers _ _ _ _ E) as [Hin Hreg].
      destruct (cellValue row target) as [v|]; [|discriminate].
      inversion Hl; subst d. auto.
    + exfalso.
      destruct (rowAt hk barrelData (JS.floor (JS.parseFloat wetHeight))) as [lowerRow|];
        destruct (rowAt hk barrelData (JS.ceil (JS.parseFloat wetHeight))) as [upperRow|].
      1: { destruct (cellValue lowerRow target), (cellValue upperRow target);
             try discriminate.
           destruct (JS.isNaN _ || JS.isNaN _); inversion Hl; subst d; discriminate. }
      all: destruct (closest hk (JS.parseFloat wetHeight) barrelData) as [[[row|] ?]|];
        try discriminate;
        [ destruct (cellValue row target); [|discriminate];
          destruct (cellValue row hk); [|discriminate] | ];
        inversion Hl; subst d; discriminate.
Qed.

Lemma calculate_exact_witness :
  handleCalculate [[("Mouille", num 20); ("Volume", blank)]] "Volume" "20" =
  Some (mkDisplay exact VNull (Some "Exact value found in table."%string)).
Proof.
  apply (proj1 (calculate_exact [[("Mouille", num 20); ("Volume", blank)]]
                  "Mouille" "Volume" "20" eq_refl eq_refl eq_refl)
           ltac:(discriminate) ltac:(discriminate)
           ltac:(repeat constructor; discriminate)
           ltac:(vm_compute; reflexivity)
           [("Mouille", num 20); ("Volume", blank)]).
  vm_compute; reflexivity.
Defined.

(** X10: where an interpolated result comes from: every display of
    status [interpolated] or [non_numeric] is computed from the rows
    registered at exactly [floor(height)] and [ceil(height)], for a query
    height at which no row is registered, so never for an integer height;
    the display is the message [Data not numeric] when one of the two
    volumes fails numeric coercion and the two-decimal print of the
    interpolation formula otherwise. *)
Theorem calculate_interpolated (barrelData : BarrelData) (target wetHeight : string)
    (d : Display) :
  handleCalculate barrelData target wetHeight = Some d ->
  status d = interpolated \/ status d = non_numeric ->
  exists hk lowerRow upperRow lv uv,
    heightKeyOf barrelData = Some hk
    /\ rowAt hk barrelData (JS.parseFloat wetHeight) = None
    /\ rowAt hk barrelData (JS.floor (JS.parseFloat wetHeight)) = Some lowerRow
    /\ rowAt hk barrelData (JS.ceil (JS.parseFloat wetHeight)) = Some upperRow
    /\ cellValue lowerRow target = Some lv
    /\ cellValue upperRow target = Some uv
    /\ d = if JS.isNaN (Number lv) || JS.isNaN (Number uv)
           then mkDisplay non_numeric (VStr "Data not numeric")
                  (Some "Cannot interpolate non-numeric values."%string)
           else interpolatedDisplay lv uv (JS.parseFloat wetHeight).
Proof.
  intros Hd Hs.
  destruct (handleCalculate_inv _ _ _ _ Hd) as [-> | [-> | H]];
    [destruct Hs; discriminate | destruct Hs; discriminate |].
  destruct H as (hk & map & Hk & Hcol & Hmap & Hnan & Hl).
  exists hk. unfold lookupVolume in Hl. rewrite !Hmap in Hl.
  destruct (rowAt hk barrelData (JS.parseFloat wetHeight)) as [row|] eqn:E.
  { destruct (cellValue row target); [|discriminate].
    inversion Hl; subst d. destruct Hs; discriminate. }
  destruct (rowAt hk barrelData (JS.floor (JS.parseFloat wetHeight))) as [lowerRow|];
    destruct (rowAt hk barrelData (JS.ceil (JS.parseFloat wetHeight))) as [upperRow|].
  1: { exists lowerRow, upperRow.
       destruct (cellValue lowerRow target) as [lv|]; [|discriminate].
       destruct (cellValue upperRow target) as [uv|]; [|discriminate].
       exists lv, uv. repeat split; auto.
       destruct (JS.isNaN _ || JS.isNaN _); inversion Hl; reflexivity. }
  all: exfalso;
    destruct (closest hk (JS.parseFloat wetHeight) barrelData) as [[[row|] ?]|];
    try discriminate;
    [ destruct (cellValue row target); [|discriminate];
      destruct (cellValue row hk); [|discriminate] | ];
    inversion Hl; subst d; destruct Hs; discriminate.
Qed.

Lemma calculate_interpolated_witness :
  exists hk lowerRow upperRow lv uv,
    heightKeyOf table_20_21 = Some hk
    /\ rowAt hk table_20_21 (JS.parseFloat "20.5") = None
    /\ rowAt hk table_20_21 (JS.floor (JS.parseFloat "20.5")) = Some lowerRow
    /\ rowAt hk table_20_21 (JS.ceil (JS.parseFloat "20.5")) = Some upperRow
    /\ cellValue lowerRow "Volume" = Some lv
    /\ cellValue upperRow "Volume" = Some uv
    /\ mkDisplay interpolated (VStr "200.65") (Some "Interpolated between 20 and 21."%string)
       = if JS.isNaN (Number lv) || JS.isNaN (Number uv)
         then mkDisplay non_numeric (VStr "Data not numeric")
                (Some "Cannot interpolate non-numeric values."%string)
         else interpolatedDisplay lv uv (JS.parseFloat "20.5").
Proof.
  apply (calculate_interpolated table_20_21 "Volume" "20.5"
           (mkDisplay interpolated (VStr "200.65")
              (Some "Interpolated between 20 and 21."%string))).
  - vm_compute; reflexivity.
  - now left.
Defined.

(** X11: a text between two heights: when no row is registered at the
    query height, rows are registered at [floor(height)] and [ceil(height)],
    and the selected cell of one of them is a text that [Number] does not
    read as a number, the calculator shows [Data not numeric] with the
    note [Cannot interpolate non-numeric values.]. *)
Theorem calculate_not_numeric (barrelData : BarrelData) (hk target wetHeight : string)
    (lowerRow upperRow : TableRow) (lv uv : CellValue) :
  heightKeyOf barrelData = Some hk -> hk <> "" -> target <> "" ->
  hasColumn hk barrelData ->
  JS.isNaN (JS.parseFloat wetHeight) = false ->
  rowAt hk barrelData (JS.parseFloat wetHeight) = None ->
  rowAt hk barrelData (JS.floor (JS.parseFloat wetHeight)) = Some lowerRow ->
  rowAt hk barrelData (JS.ceil (JS.parseFloat wetHeight)) = Some upperRow ->
  cellValue lowerRow target = Some lv ->
  cellValue upperRow target = Some uv ->
  (exists s, (lv = VStr s \/ uv = VStr s) /\ JS.isNaN (JS.stringToNumber s) = true) ->
  handleCalculate barrelData target wetHeight =
  Some (mkDisplay non_numeric (VStr "Data not numeric")
          (Some "Cannot interpolate non-numeric values."%string)).
Proof.
  intros Hk Hhk Ht Hcol Hnan Hexact Hlo Hup Hlv Huv (s & Hs & Hn).
  destruct (handleCalculate_guards barrelData target wetHeight hk)
    as (map & Hmap & ->); auto.
  { eexists. rewrite Hlo. discriminate. }
  unfold lookupVolume. rewrite !Hmap, Hexact, Hlo, Hup, Hlv, Huv.
  assert (Hor : JS.isNaN (Number lv) || JS.isNaN (Number uv) = true).
  { destruct Hs as [-> | ->]; cbn [Number]; rewrite Hn; auto using orb_true_r. }
  now rewrite Hor.
Qed.

Lemma calculate_not_numeric_witness :
  handleCalculate [[("Mouille", num 20); ("Volume", text "n/a")];
                   [("Mouille", num 21); ("Volume", num 300)]] "Volume" "20.5" =
  Some (mkDisplay non_numeric (VStr "Data not numeric")
          (Some "Cannot interpolate non-numeric values."%string)).
Proof.
  apply (calculate_not_numeric
           [[("Mouille", num 20); ("Volume", text "n/a")];
            [("Mouille", num 21); ("Volume", num 300)]] "Mouille" "Volume" "20.5"
           [("Mouille", num 20); ("Volume", text "n/a")]
           [("Mouille", num 21); ("Volume", num 300)]
           (VStr "n/a") (VNum (JS.of_Z 300))).
  - reflexivity.
  - discriminate.
  - discriminate.
  - repeat constructor; discriminate.
  - vm_compute; reflexivity.
  - vm_compute; reflexivity.
  - vm_compute; reflexivity.
  - vm_compute; reflexivity.
  - reflexivity.
  - reflexivity.
  - exists "n/a"%string. split; [now left|vm_compute; reflexivity].
Defined.

(** The value that the lookup shows is a message or the cell of a row of
    the dataset. *)
Lemma lookupVolume_cell (barrelData : BarrelData) (map : HeightMap)
    (hk target : string) (height : JS.number) (d : Display) :
  hasColumn hk barrelData ->
  (forall x, JSMap.get JS.num_sameValueZero map x = rowAt hk barrelData x) ->
  lookupVolume barrelData map hk target height = Some d ->
  (exists s, volume d = VStr s)
  \/ ((status d = exact \/ status d = nearest)
      /\ exists row, In row barrelData /\ cellValue row target = Some (volume d)).
Proof.
  intros Hcol Hmap Hl.
  unfold lookupVolume in Hl. rewrite !Hmap in Hl.
  destruct (rowAt hk barrelData height) as [row|] eqn:E.
  { destruct (cellValue row target) as [v|] eqn:Ev; [|discriminate].
    inversion Hl; subst d. right. split; [now left|].
    exists row. split; [exact (proj1 (rowAt_registers _ _ _ _ E)) | exact Ev]. }
  destruct (closest_spec hk height barrelData Hcol) as ([closestRow minDiff] & Hc & Hst).
  rewrite Hc in Hl.
  assert (Hin : forall row, closestRow = Some row -> In row barrelData).
  { intros row ->. cbn in Hst. destruct Hst as (_ & before & after & Heq & _).
    rewrite Heq. apply in_or_app. right. now left. }
  destruct (rowAt hk barrelData (JS.floor height)) as [lowerRow|];
    destruct (rowAt hk barrelData (JS.ceil height)) as [upperRow|].
  1: { destruct (cellValue lowerRow target), (cellValue upperRow target);
         try discriminate.
       destruct (JS.isNaN _ || JS.isNaN _); inversion Hl; subst d;
         left; eexists; reflexivity. }
  all: destruct closestRow as [row|];
    [ destruct (cellValue row target) as [v|] eqn:Ev; [|discriminate];
      destruct (cellValue row hk); [|discriminate];
      inversion Hl; subst d; right; split; [now right|];
      exists row; split; [now apply Hin | exact Ev]
    | inversion Hl; subst d; left; eexists; reflexivity ].
Qed.

(** X12: a null cell hides the result: an exact match on a row whose
    selected cell is null sets the volume to null, and the result panel,
    value and note, is not rendered; conversely, a calculation leaves the
    panel hidden only in the exact and nearest cases, on a row of the
    dataset whose selected cell is null. *)
Theorem hidden_result (barrelData : BarrelData) (target wetHeight : string) :
  (forall hk row,
     heightKeyOf barrelData = Some hk -> hk <> "" -> target <> "" ->
     hasColumn hk barrelData ->
     JS.isNaN (JS.parseFloat wetHeight) = false ->
     rowAt hk barrelData (JS.parseFloat wetHeight) = Some row ->
     cellValue row target = Some VNull ->
     exists d, handleCalculate barrelData target wetHeight = Some d
               /\ status d = exact /\ resultPanel d = None)
  /\ (forall d,
        handleCalculate barrelData target wetHeight = Some d ->
        resultPanel d = None ->
        (status d = exact \/ status d = nearest)
        /\ exists row, In row barrelData /\ cellValue row target = Some VNull).
Proof.
  split.
  - intros hk row Hk Hhk Ht Hcol Hnan Hrow Hv.
    destruct (handleCalculate_guards barrelData target wetHeight hk)
      as (map & Hmap & ->); auto.
    { eexists. rewrite Hrow. discriminate. }
    unfold lookupVolume. rewrite Hmap, Hrow, Hv. eexists. repeat split.
  - intros d Hd Hp.
    assert (Hv : volume d = VNull).
    { unfold resultPanel in Hp. destruct (volume d); [discriminate|discriminate|reflexivity]. }
    destruct (handleCalculate_inv _ _ _ _ Hd) as [-> | [-> | H]]; try discriminate.
    destruct H as (hk & map & Hk & Hcol & Hmap & Hnan & Hl).
    destruct (lookupVolume_cell _ _ _ _ _ _ Hcol Hmap Hl) as [(s & Hs) | [Hst (row & Hin & Hc)]].
    + congruence.
    + split; auto. exists row. split; auto. now rewrite <- Hv.
Qed.

Lemma hidden_result_witness :
  exists d,
    handleCalculate [[("Mouille", num 20); ("Volume", blank)]] "Volume" "20" = Some d
    /\ status d = exact /\ resultPanel d = None.
Proof.
  apply (proj1 (hidden_result [[("Mouille", num 20); ("Volume", blank)]] "Volume" "20")
           "Mouille"%string [("Mouille", num 20); ("Volume", blank)]).
  - reflexivity.
  - discriminate.
  - discriminate.
  - repeat constructor; discriminate.
  - vm_compute; reflexivity.
  - vm_compute; reflexivity.
  - reflexivity.
Defined.

(** ** The volume calculator: the selected column *)

Lemma existsb_eqb_In (s : string) (l : list string) :
  existsb (String.eqb s) l = true <-> In s l.
Proof.
  rewrite existsb_exists. split.
  - intros (x & Hin & Hx). apply String.eqb_eq in Hx. now subst.
  - intros H. exists s. split; auto. apply String.eqb_refl.
Qed.

Lemma useMemo_volumeKeys (first : TableRow) (rest : BarrelData) (memo : Memo) :
  useMemo (first :: rest) = Some memo ->
  volumeKeys memo =
  filter (fun h => match heightKey memo with
                   | Some k => negb (String.eqb h k)
                   | None => true
                   end) (Obj.keys first).
Proof.
  unfold useMemo.
  match goal with
  | |- context [fold_left ?f ?l ?a] => destruct (fold_left f l a) as [m|]
  end; [|discriminate].
  now intros [= <-].
Qed.

(** X13: the selection after the effect: once [useEffect] has run on the
    volume columns that [useMemo] returns, the selected column is the empty string when
    there is no volume column, and otherwise a column of the first row that
    is a volume column and not the height column; a selection that was a
    volume column is kept; and a second run of the effect changes nothing. *)
Theorem selection_after_effect (barrelData : BarrelData) (memo : Memo)
    (st : Calculator.State) :
  useMemo barrelData = Some memo ->
  (volumeKeys memo = [] ->
   Calculator.selectedVolumeKey (useEffect (volumeKeys memo) st) = ""%string)
  /\ (volumeKeys memo <> [] ->
      In (Calculator.selectedVolumeKey (useEffect (volumeKeys memo) st)) (volumeKeys memo)
      /\ Some (Calculator.selectedVolumeKey (useEffect (volumeKeys memo) st))
         <> heightKey memo
      /\ exists first rest,
           barrelData = first :: rest
           /\ In (Calculator.selectedVolumeKey (useEffect (volumeKeys memo) st))
                 (Obj.keys first))
  /\ (In (Calculator.selectedVolumeKey st) (volumeKeys memo) ->
      Calculator.selectedVolumeKey (useEffect (volumeKeys memo) st) =
      Calculator.selectedVolumeKey st)
  /\ useEffect (volumeKeys memo) (useEffect (volumeKeys memo) st) =
     useEffect (volumeKeys memo) st.
Proof.
  intros Hmemo.
  assert (Hin : volumeKeys memo <> [] ->
                In (Calculator.selectedVolumeKey (useEffect (volumeKeys memo) st))
                   (volumeKeys memo)).
  { unfold useEffect. destruct (volumeKeys memo) as [|k ks]; [congruence|]. intros _.
    cbn -[existsb In].
    destruct (existsb (String.eqb (Calculator.selectedVolumeKey st)) (k :: ks)) eqn:E;
      cbn -[In].
    - now apply existsb_eqb_In.
    - now left. }
  split; [|split; [|split]].
  - intros ->. reflexivity.
  - intros Hne. specialize (Hin Hne).
    set (sel := Calculator.selectedVolumeKey (useEffect (volumeKeys memo) st)) in *.
    clearbody sel. split; auto.
    destruct barrelData as [|first rest].
    { cbn in Hmemo. inversion Hmemo; subst memo. cbn in Hne. congruence. }
    rewrite (useMemo_volumeKeys _ _ _ Hmemo) in Hin.
    apply filter_In in Hin. destruct Hin as [Hk Hf]. split; [|eauto].
    destruct (heightKey memo) as [hk|]; [|discriminate].
    intros [= ->]. rewrite String.eqb_refl in Hf. discriminate.
  - intros Hsel. unfold useEffect.
    apply existsb_eqb_In in Hsel. rewrite Hsel.
    destruct (volumeKeys memo); [discriminate Hsel|]. reflexivity.
  - destruct (volumeKeys memo) as [|k ks] eqn:Ek; [reflexivity|].
    assert (Hne : k :: ks <> []) by discriminate.
    specialize (Hin Hne). apply existsb_eqb_In in Hin.
    unfold useEffect at 1. rewrite Hin. cbn -[useEffect].
    reflexivity.
Qed.

Lemma selection_after_effect_witness :
  Calculator.selectedVolumeKey
    (useEffect ["Volume"%string] (Calculator.mkState "12" "Gone" (VStr "N/A") None))
  = "Volume"%string.
Proof.
  pose proof (selection_after_effect table_20_30
                (mkMemo (Some "Mouille"%string) ["Volume"%string]
                   [(JS.of_Z 20, [("Mouille", num 20); ("Volume", num 200)]);
                    (JS.of_Z 30, [("Mouille", num 30); ("Volume", num 300)])])
                (Calculator.mkState "12" "Gone" (VStr "N/A") None)
                ltac:(vm_compute; reflexivity)) as (_ & H & _).
  destruct (H ltac:(discriminate)) as ([Hin | []] & _).
  symmetry. exact Hin.
Defined.

(** X14: a dataset without a volume column cannot be queried: when the
    first row has no column besides the height column, there is no volume
    column, the effect leaves the selection empty, and every calculation
    shows [N/A]. *)
Theorem no_volume_column (barrelData : BarrelData) (memo : Memo)
    (st : Calculator.State) (wetHeight : string) :
  useMemo barrelData = Some memo ->
  (forall first rest h, barrelData = first :: rest -> In h (Obj.keys first) ->
                        heightKey memo = Some h) ->
  volumeKeys memo = []
  /\ handleCalculate barrelData
       (Calculator.selectedVolumeKey (useEffect (volumeKeys memo) st)) wetHeight
     = Some (mkDisplay unavailable (VStr "N/A") None).
Proof.
  intros Hmemo Hall.
  assert (Hvk : volumeKeys memo = []).
  { destruct barrelData as [|first rest].
    - cbn in Hmemo. now inversion Hmemo.
    - rewrite (useMemo_volumeKeys _ _ _ Hmemo).
      destruct (filter _ (Obj.keys first)) as [|h hs] eqn:E; auto. exfalso.
      assert (Hin : In h (h :: hs)) by now left.
      rewrite <- E in Hin. apply filter_In in Hin. destruct Hin as [Hh Hf].
      rewrite (Hall first rest h eq_refl Hh) in Hf.
      now rewrite String.eqb_refl in Hf. }
  split; auto. rewrite Hvk. unfold handleCalculate. rewrite Hmemo. cbn.
  now rewrite orb_true_r.
Qed.

Lemma no_volume_column_witness :
  handleCalculate [[("Mouille", num 20)]]
    (Calculator.selectedVolumeKey (useEffect [] (Calculator.mkState "20" "Volume" VNull None)))
    "20"
  = Some (mkDisplay unavailable (VStr "N/A") None).
Proof.
  apply (proj2 (no_volume_column [[("Mouille", num 20)]]
                  (mkMemo (Some "Mouille"%string) []
                     [(JS.of_Z 20, [("Mouille", num 20)])])
                  (Calculator.mkState "20" "Volume" VNull None) "20"
                  ltac:(vm_compute; reflexivity)
                  ltac:(intros first rest h [= <- <-] [<-|[]]; reflexivity))).
Defined.

(** ** The reconciler and the calculator together *)

Lemma registersAt_ext (hk : string) (x : JS.number) (a b : TableRow) :
  Obj.get a hk = Obj.get b hk -> registersAt hk x a = registersAt hk x b.
Proof. unfold registersAt. now intros ->. Qed.

(** Only a number registers a row. *)
Lemma registersAt_number (hk : string) (x : JS.number) (row : TableRow) :
  registersAt hk x row = true -> JS.isNaN x = false.
Proof.
  unfold registersAt. destruct (Obj.get row hk) as [c|]; [|discriminate].
  destruct (Number (value c)), x; cbn; auto; discriminate.
Qed.

Lemma registersAt_hasKey (pk : string) (x : JS.number) (row : TableRow) :
  rowKey pk row <> None -> numberKey pk row -> JS.isNaN x = false ->
  registersAt pk x row = hasKey pk (VNum x) row.
Proof.
  unfold numberKey, hasKey, registersAt, rowKey.
  destruct (Obj.get row pk) as [c|]; [|congruence].
  destruct (value c) as [n|s|]; cbn; [|tauto|congruence].
  intros _ _ Hx. destruct n, x; cbn; auto; discriminate.
Qed.

Lemma filter_none {A : Type} (f : A -> bool) (l : list A) :
  (forall x, In x l -> f x = false) -> filter f l = [].
Proof.
  induction l as [|a l IH]; intros H; cbn; auto.
  rewrite (H a) by now left. apply IH. intros x Hx. apply H. now right.
Qed.

(** X15: after a merge no two rows compete for a height: on the merging
    path, when every key of the inputs is a number, at most one output row
    is registered under any height in the index that the calculator builds
    over the key column. *)
Theorem merge_index_unique (existingData newData : BarrelData) (pk : string)
    (x : JS.number) :
  newData <> [] -> primaryKeyOf existingData = Some pk ->
  (forall row, In row (existingData ++ newData) -> numberKey pk row) ->
  (List.length (filter (registersAt pk x) (mergeBarrelData existingData newData)) <= 1)%nat.
Proof.
  intros Hn Hpk Hnum.
  rewrite (filter_length_perm _ _ _ (mergeBarrelData_perm _ _ _ Hn Hpk)).
  destruct (JS.isNaN x) eqn:Ex.
  - rewrite filter_none; [cbn; lia|]. intros row _.
    destruct (registersAt pk x row) eqn:E; auto.
    apply registersAt_number in E. congruence.
  - assert (Hrows : Forall (fun row => rowKey pk row <> None /\ numberKey pk row)
                      (JSMap.values (mergedDataMap pk existingData newData))).
    { apply mergedDataMap_rows.
      - intros a b H. unfold numberKey. now rewrite (rowKey_ext _ _ _ H).
      - intros row Hin Hk. auto. }
    rewrite (filter_ext_in (registersAt pk x) (hasKey pk (VNum x))).
    + rewrite stored_row_count by apply mergedDataMap_inv.
      destruct (JSMap.has _ _ _); lia.
    + intros row Hin. rewrite Forall_forall in Hrows.
      destruct (Hrows row Hin). now apply registersAt_hasKey.
Qed.

Lemma merge_index_unique_witness :
  (List.length
     (filter (registersAt "h" (JS.of_Z 25))
        (mergeBarrelData [[("h", num 25); ("v", num 220)]; [("h", num 26); ("v", num 230)]]
           [[("h", num 25); ("v", num 221)]])) <= 1)%nat.
Proof.
  apply (merge_index_unique
           [[("h", num 25); ("v", num 220)]; [("h", num 26); ("v", num 230)]]
           [[("h", num 25); ("v", num 221)]] "h" (JS.of_Z 25)).
  - discriminate.
  - reflexivity.
  - intros row [<-|[<-|[<-|[]]]]; vm_compute; exact I.
Defined.

Lemma Obj_has_key (row : TableRow) (k : string) :
  Obj.get row k <> None -> existsb (String.eqb k) (Obj.keys row) = true.
Proof.
  intros H. destruct (existsb (String.eqb k) (Obj.keys row)) eqn:E; auto.
  now rewrite (Obj_get_keys _ _ E) in H.
Qed.

Section RowProperty.
Variable Q : TableRow -> Prop.
Hypothesis Q_merge : forall existingRow newRow, Q existingRow -> Q newRow ->
                                                 Q (mergeRow existingRow newRow).

Lemma populate_property (pk : string) (m : list (CellValue * TableRow)) (row : TableRow) :
  Q row -> Forall (fun e => Q (snd e)) m -> Forall (fun e => Q (snd e)) (populate pk m row).
Proof.
  intros Hrow Hm. rewrite populate_eq. destruct (rowKey pk row); auto.
  apply (set_Forall sameValueZero); auto.
Qed.

Lemma mergeNewRow_property (pk : string) (m : list (CellValue * TableRow))
    (newRow : TableRow) :
  Q newRow -> Forall (fun e => Q (snd e)) m ->
  Forall (fun e => Q (snd e)) (mergeNewRow pk m newRow).
Proof.
  intros Hrow Hm. rewrite mergeNewRow_eq. destruct (rowKey pk newRow) as [key|]; auto.
  destruct (JSMap.get sameValueZero m key) as [existingRow|] eqn:E;
    apply (set_Forall sameValueZero); auto.
  intros k' _. cbn. apply Q_merge; auto.
  destruct (get_In sameValueZero _ _ _ E) as (k2 & Hin & _).
  rewrite Forall_forall in Hm. exact (Hm _ Hin).
Qed.

Lemma populates_property (pk : string) (rows : BarrelData) :
  Forall Q rows ->
  forall m, Forall (fun e => Q (snd e)) m ->
            Forall (fun e => Q (snd e)) (fold_left (populate pk) rows m).
Proof.
  induction 1 as [|row rows Hrow _ IH]; intros m Hm; cbn; auto.
  apply IH. now apply populate_property.
Qed.

Lemma mergeNewRows_property (pk : string) (rows : BarrelData) :
  Forall Q rows ->
  forall m, Forall (fun e => Q (snd e)) m ->
            Forall (fun e => Q (snd e)) (fold_left (mergeNewRow pk) rows m).
Proof.
  induction 1 as [|row rows Hrow _ IH]; intros m Hm; cbn; auto.
  apply IH. now apply mergeNewRow_property.
Qed.

(** A property of rows that merging two rows preserves holds of every
    output row when it holds of every input row. *)
Lemma mergeBarrelData_property (existingData newData : BarrelData) :
  Forall Q existingData -> Forall Q newData ->
  Forall Q (mergeBarrelData existingData newData).
Proof.
  intros He Hn.
  destruct newData as [|n rest] eqn:EN; [exact He|].
  rewrite <- EN in *. assert (Hne : newData <> []) by (rewrite EN; discriminate).
  destruct (primaryKeyOf existingData) as [pk|] eqn:Hpk.
  - eapply Permutation_Forall; [symmetry; apply (mergeBarrelData_perm _ _ pk); auto|].
    unfold JSMap.values. rewrite Forall_map. unfold mergedDataMap.
    apply mergeNewRows_property; auto. apply populates_property; auto.
  - now rewrite mergeBarrelData_early.
Qed.
End RowProperty.

Lemma hasColumns_merge (columns : list string) (existingRow newRow : TableRow) :
  hasColumns columns existingRow -> hasColumns columns newRow ->
  hasColumns columns (mergeRow existingRow newRow).
Proof.
  intros He Hn column. rewrite mergeRow_get. unfold mergedCell.
  destruct (Obj.get newRow column) as [c|] eqn:E; [|apply He].
  destruct (value c); try apply He.
  all: rewrite <- (Hn column), E; split; discriminate.
Qed.

Lemma Obj_keys_get (row : TableRow) (k : string) :
  In k (Obj.keys row) -> Obj.get row k <> None.
Proof.
  unfold Obj.keys. induction row as [|[k' c] rest IH]; cbn; [tauto|].
  intros [->|H].
  - now rewrite String.eqb_refl.
  - destruct (String.eqb k' k); [discriminate|auto].
Qed.

Lemma hasColumns_keys (row : TableRow) : hasColumns (Obj.keys row) row.
Proof.
  intros column. split.
  - intros H. now apply existsb_eqb_In, Obj_has_key.
  - apply Obj_keys_get.
Qed.

Lemma potentialHeightKey_In (headers : list string) (hk : string) :
  potentialHeightKey headers = Some hk -> In hk headers.
Proof.
  unfold potentialHeightKey.
  destruct (find _ headers) as [h|] eqn:E.
  - intros [= <-]. now apply find_some in E.
  - destruct headers; [discriminate|]. intros [= <-]. now left.
Qed.

(** X16: merging rectangular pages never breaks the calculator: when
    every row of both inputs has exactly the same columns, every output row
    has exactly those columns, and the calculator returns a display, without
    raising a TypeError, for each of these columns and every text of the
    height field. *)
Theorem merge_keeps_calculator (existingData newData : BarrelData)
    (columns : list string) (target wetHeight : string) :
  Forall (hasColumns columns) existingData -> Forall (hasColumns columns) newData ->
  In target columns ->
  Forall (hasColumns columns) (mergeBarrelData existingData newData)
  /\ exists d,
       handleCalculate (mergeBarrelData existingData newData) target wetHeight = Some d.
Proof.
  intros He Hn Ht.
  pose proof (mergeBarrelData_property (hasColumns columns) (hasColumns_merge columns)
                existingData newData He Hn) as Hout.
  split; auto.
  destruct (mergeBarrelData existingData newData) as [|first rest] eqn:ED.
  { eexists. reflexivity. }
  rewrite <- ED in *.
  assert (Hcol : forall c, In c columns ->
                           hasColumn c (mergeBarrelData existingData newData)).
  { intros c Hc. unfold hasColumn. eapply Forall_impl; [|exact Hout].
    intros row Hrow. now apply Hrow. }
  assert (Hfirst : hasColumns columns first).
  { rewrite ED in Hout. now inversion Hout. }
  destruct (heightKeyOf (mergeBarrelData existingData newData)) as [hk|] eqn:Ek.
  - assert (Hhk : In hk columns).
    { rewrite ED in Ek. cbn in Ek. apply potentialHeightKey_In in Ek.
      apply Hfirst. now apply Obj_keys_get. }
    pose proof (handleCalculate_total _ hk target wetHeight Ek (Hcol hk Hhk) (Hcol target Ht)).
    destruct (handleCalculate _ _ _); [eauto|congruence].
  - exfalso. rewrite ED in Ek. cbn in Ek. unfold potentialHeightKey in Ek.
    destruct (find _ (Obj.keys first)); [discriminate|].
    apply Hfirst in Ht. destruct first as [|[k c] cols]; [now apply Ht|discriminate].
Qed.

Lemma merge_keeps_calculator_witness :
  exists d, handleCalculate (mergeBarrelData table_20_30 table_10_50) "Volume" "12" = Some d.
Proof.
  apply (merge_keeps_calculator table_20_30 table_10_50
           ["Mouille"%string; "Volume"%string] "Volume" "12").
  - constructor; [|constructor; [|constructor]].
    + apply (hasColumns_keys [("Mouille", num 20); ("Volume", num 200)]).
    + apply (hasColumns_keys [("Mouille", num 30); ("Volume", num 300)]).
  - constructor; [|constructor; [|constructor]].
    + apply (hasColumns_keys [("Mouille", num 10); ("Volume", num 95)]).
    + apply (hasColumns_keys [("Mouille", num 50); ("Volume", num 410)]).
  - right. now left.
Defined.

(** ** The row reconciler: the same batch twice *)

Lemma mergeRows_get (newRows : list TableRow) (column : string) :
  forall row,
  Obj.get (fold_left mergeRow newRows row) column =
  lastCell newRows column (Obj.get row column).
Proof.
  unfold lastCell.
  induction newRows as [|n rest IH]; intros row; cbn [fold_left]; auto.
  rewrite IH, mergeRow_get. unfold mergedCell.
  destruct (Obj.get n column) as [c|]; auto.
Qed.

Lemma lastCell_cases (newRows : list TableRow) (column : string) :
  (exists c, value c <> VNull /\ forall cell, lastCell newRows column cell = Some c)
  \/ (forall cell, lastCell newRows column cell = cell).
Proof.
  unfold lastCell.
  induction newRows as [|n rest IH]; cbn [fold_left]; [now right|].
  destruct IH as [(c & Hc & IH) | IH].
  - left. exists c. split; auto.
  - destruct (Obj.get n column) as [c|] eqn:E.
    + destruct (value c) eqn:Ev.
      * left. exists c. split; [congruence|]. intros cell. apply IH.
      * left. exists c. split; [congruence|]. intros cell. apply IH.
      * right. intros cell. apply IH.
    + right. intros cell. apply IH.
Qed.

Lemma lastCell_In (newRows : list TableRow) (column : string) (n : TableRow)
    (c : CellData) :
  In n newRows -> Obj.get n column = Some c -> value c <> VNull ->
  forall cell, lastCell newRows column cell <> None.
Proof.
  unfold lastCell.
  induction newRows as [|a rest IH]; intros Hin Hc Hv cell; [destruct Hin|].
  cbn [fold_left]. destruct Hin as [->|Hin].
  - rewrite Hc.
    assert (Hs : match value c with VNull => cell | _ => Some c end = Some c)
      by (destruct (value c); congruence).
    rewrite Hs.
    destruct (lastCell_cases rest column) as [(c' & _ & H) | H];
      unfold lastCell in H; rewrite H; discriminate.
  - now apply IH.
Qed.

Lemma Obj_ext (a : TableRow) :
  forall b,
  NoDup (Obj.keys a) -> Obj.keys a = Obj.keys b ->
  (forall column, Obj.get a column = Obj.get b column) -> a = b.
Proof.
  unfold Obj.keys.
  induction a as [|[k x] a IH]; intros [|[k' y] b] Hnd Hk Hget; cbn in *;
    try discriminate; auto.
  injection Hk as <- Hk. inversion Hnd as [|? ? Hnot Hnd']; subst.
  pose proof (Hget k) as Hx. rewrite String.eqb_refl in Hx. injection Hx as <-.
  f_equal. apply IH; auto. intros column.
  specialize (Hget column). destruct (String.eqb k column) eqn:E; auto.
  apply String.eqb_eq in E. subst column.
  assert (Ha : existsb (String.eqb k) (Obj.keys a) = false).
  { destruct (existsb (String.eqb k) (Obj.keys a)) eqn:Eb; auto.
    apply existsb_eqb_In in Eb. contradiction. }
  rewrite (Obj_get_keys a k Ha).
  unfold Obj.keys in Ha. rewrite Hk in Ha. now rewrite (Obj_get_keys b k Ha).
Qed.

Lemma mergeRow_keys (existingRow newRow : TableRow) :
  NoDup (Obj.keys newRow) ->
  Obj.keys (mergeRow existingRow newRow) =
  Obj.keys existingRow ++ filter (newColumn existingRow newRow) (Obj.keys newRow).
Proof. intros H. unfold mergeRow. now apply mergeCells_keys. Qed.

Lemma pageRow_merge (pk : string) (existingRow newRow : TableRow) :
  pageRow pk existingRow -> pageRow pk newRow -> pageRow pk (mergeRow existingRow newRow).
Proof.
  intros [He Hde] [Hn Hdn]. unfold pageRow. rewrite mergeRow_keys by auto. split.
  - destruct (Obj.keys existingRow); [discriminate|exact He].
  - apply NoDup_app; auto.
    + now apply NoDup_filter.
    + intros c Hc Hf. apply filter_In in Hf. destruct Hf as [_ Hf].
      unfold newColumn in Hf. apply existsb_eqb_In in Hc.
      destruct (Obj.get newRow c) as [x|]; [|discriminate].
      destruct (value x); rewrite ?Hc in Hf; discriminate.
Qed.

(** Merging rows that bring no new column keeps the columns. *)
Lemma mergeRows_keys (newRows : list TableRow) :
  forall row,
  (forall n, In n newRows -> NoDup (Obj.keys n)) ->
  (forall n column c, In n newRows -> Obj.get n column = Some c -> value c <> VNull ->
                      Obj.get row column <> None) ->
  Obj.keys (fold_left mergeRow newRows row) = Obj.keys row.
Proof.
  induction newRows as [|n rest IH]; intros row Hnd Hcols; cbn [fold_left]; auto.
  assert (Hk : Obj.keys (mergeRow row n) = Obj.keys row).
  { rewrite mergeRow_keys by (apply Hnd; now left).
    rewrite filter_none; [apply app_nil_r|].
    intros column _. unfold newColumn.
    destruct (Obj.get n column) as [c|] eqn:E; auto.
    destruct (value c) eqn:Ev; auto;
      rewrite Obj_has_key; auto;
      apply (Hcols n column c); auto; try (now left); congruence. }
  rewrite IH; auto.
  - intros n' Hn'. apply Hnd. now right.
  - intros n' column c Hn' Hc Hv.
    assert (Hrow : Obj.get row column <> None) by (apply (Hcols n' column c); auto; now right).
    intros Hnone. apply Hrow. apply Obj_get_keys.
    destruct (existsb (String.eqb column) (Obj.keys row)) eqn:Eb; auto.
    rewrite <- Hk in Eb. apply existsb_eqb_In in Eb. apply Obj_keys_get in Eb.
    contradiction.
Qed.

(** Merging the same rows once more changes nothing. *)
Lemma mergeRows_absorb (newRows : list TableRow) (row : TableRow) :
  NoDup (Obj.keys row) -> (forall n, In n newRows -> NoDup (Obj.keys n)) ->
  fold_left mergeRow newRows (fold_left mergeRow newRows row) =
  fold_left mergeRow newRows row.
Proof.
  intros Hrow Hnd.
  assert (Hkeys : Obj.keys (fold_left mergeRow newRows (fold_left mergeRow newRows row)) =
                  Obj.keys (fold_left mergeRow newRows row)).
  { apply mergeRows_keys; auto. intros n column c Hin Hc Hv.
    rewrite mergeRows_get. now apply (lastCell_In newRows column n c). }
  apply Obj_ext; auto.
  - rewrite Hkeys. clear Hkeys. revert row Hrow.
    induction newRows as [|n rest IH]; intros row Hrow; cbn [fold_left]; auto.
    apply IH.
    + intros n' Hn'. apply Hnd. now right.
    + rewrite mergeRow_keys by (apply Hnd; now left).
      apply NoDup_app; auto.
      * apply NoDup_filter. apply Hnd. now left.
      * intros c Hc Hf. apply filter_In in Hf. destruct Hf as [_ Hf].
        unfold newColumn in Hf. apply existsb_eqb_In in Hc.
        destruct (Obj.get n c) as [x|]; [|discriminate].
        destruct (value x); rewrite ?Hc in Hf; discriminate.
  - intros column. rewrite !mergeRows_get.
    destruct (lastCell_cases newRows column) as [(c & _ & H) | H]; now rewrite !H.
Qed.

Lemma lastCell_cons (newRow : TableRow) (newRows : list TableRow) (column : string)
    (cell : option CellData) :
  lastCell (newRow :: newRows) column cell =
  lastCell newRows column
    match Obj.get newRow column with
    | Some c => match value c with VNull => cell | _ => Some c end
    | None => cell
    end.
Proof. reflexivity. Qed.

Lemma mergeRows_absorb_first (newRows : list TableRow) (first : TableRow) :
  NoDup (Obj.keys first) -> (forall n, In n newRows -> NoDup (Obj.keys n)) ->
  fold_left mergeRow (first :: newRows) (fold_left mergeRow newRows first) =
  fold_left mergeRow newRows first.
Proof.
  intros Hfirst Hnd.
  assert (Hall : forall n, In n (first :: newRows) -> NoDup (Obj.keys n)).
  { intros n [<-|Hn]; auto. }
  assert (Hstored : NoDup (Obj.keys (fold_left mergeRow newRows first))).
  { clear Hall. revert first Hfirst.
    induction newRows as [|n rest IH]; intros first Hfirst; cbn [fold_left]; auto.
    apply IH.
    - intros n' Hn'. apply Hnd. now right.
    - rewrite mergeRow_keys by (apply Hnd; now left).
      apply NoDup_app; auto.
      + apply NoDup_filter. apply Hnd. now left.
      + intros c Hc Hf. apply filter_In in Hf. destruct Hf as [_ Hf].
        unfold newColumn in Hf. apply existsb_eqb_In in Hc.
        destruct (Obj.get n c) as [x|]; [|discriminate].
        destruct (value x); rewrite ?Hc in Hf; discriminate. }
  assert (Hkeys : Obj.keys (fold_left mergeRow (first :: newRows)
                              (fold_left mergeRow newRows first)) =
                  Obj.keys (fold_left mergeRow newRows first)).
  { apply mergeRows_keys; auto. intros n column c Hin Hc Hv.
    rewrite mergeRows_get. destruct Hin as [<-|Hin].
    - destruct (lastCell_cases newRows column) as [(c' & _ & H) | H]; rewrite H;
        congruence.
    - now apply (lastCell_In newRows column n c). }
  apply Obj_ext; auto.
  - rewrite Hkeys. exact Hstored.
  - intros column. rewrite !mergeRows_get, lastCell_cons.
    destruct (lastCell_cases newRows column) as [(c & _ & H) | H].
    + now rewrite !H.
    + rewrite !H. destruct (Obj.get first column) as [c|]; auto.
      destruct (value c); auto.
Qed.

(** What the map holds under a key once a batch has been merged into it. *)
Lemma mergeNewRows_get (pk : string) (k : CellValue) (rows : BarrelData) :
  forall m,
  JSMap.get sameValueZero (fold_left (mergeNewRow pk) rows m) k =
  match JSMap.get sameValueZero m k with
  | Some row => Some (fold_left mergeRow (rowsOfKey pk k rows) row)
  | None =>
      match rowsOfKey pk k rows with
      | [] => None
      | first :: others => Some (fold_left mergeRow others first)
      end
  end.
Proof.
  unfold rowsOfKey.
  induction rows as [|n rest IH]; intros m; cbn [fold_left filter].
  - now destruct (JSMap.get sameValueZero m k).
  - rewrite IH. destruct (hasKey pk k n) eqn:Hk.
    + rewrite mergeNewRow_eq. unfold hasKey in Hk.
      destruct (rowKey pk n) as [key|]; [|discriminate].
      rewrite (get_congr sameValueZero m key k Hk).
      destruct (JSMap.get sameValueZero m k) as [row|];
        rewrite (get_set_same sameValueZero) by auto; reflexivity.
    + now rewrite mergeNewRow_get_other.
Qed.

Lemma set_keys_present {K V : Type} (same : K -> K -> bool) (m : list (K * V))
    (k : K) (v : V) :
  JSMap.get same m k <> None -> map fst (JSMap.set same m k v) = map fst m.
Proof.
  induction m as [|[k' v'] rest IH]; cbn; [congruence|].
  destruct (same k' k); cbn; auto. intros H. now rewrite IH.
Qed.

Lemma mergeNewRows_keys_present (pk : string) (rows : BarrelData) :
  forall m,
  (forall n key, In n rows -> rowKey pk n = Some key ->
                 JSMap.has sameValueZero m key = true) ->
  map fst (fold_left (mergeNewRow pk) rows m) = map fst m.
Proof.
  induction rows as [|n rest IH]; intros m Hm; cbn [fold_left]; auto.
  assert (Hstep : map fst (mergeNewRow pk m n) = map fst m).
  { rewrite mergeNewRow_eq. destruct (rowKey pk n) as [key|] eqn:E; auto.
    pose proof (Hm n key (or_introl eq_refl) E) as Hhas. unfold JSMap.has in Hhas.
    destruct (JSMap.get sameValueZero m key) as [row|] eqn:Eg; [|discriminate].
    apply set_keys_present. congruence. }
  rewrite IH; auto.
  intros n' key Hn' Hk.
  rewrite (step_has pk (mergeNewRow pk) (or_intror eq_refl)).
  now rewrite (Hm n' key (or_intror Hn') Hk).
Qed.

Lemma map_ext_keys {K V : Type} (same : K -> K -> bool) `{!KeyEquivalence same}
    (m : list (K * V)) :
  forall m',
  distinctKeys same m -> map fst m = map fst m' ->
  (forall k, In k (map fst m) -> JSMap.get same m k = JSMap.get same m' k) ->
  m = m'.
Proof.
  induction m as [|[k v] rest IH]; intros [|[k' v'] rest'] Hd Hk Hget; cbn in *;
    try discriminate; auto.
  injection Hk as <- Hk. inversion Hd as [|? ? Hfirst Hrest]; subst.
  pose proof (Hget k (or_introl eq_refl)) as Hv. rewrite same_refl in Hv.
  injection Hv as <-. f_equal. apply IH; auto.
  intros k2 Hin. specialize (Hget k2 (or_intror Hin)).
  assert (Hne : same k k2 = false).
  { apply in_map_iff in Hin. destruct Hin as (e & <- & He).
    rewrite Forall_forall in Hfirst. exact (Hfirst e He). }
  now rewrite Hne in Hget.
Qed.

Lemma In_get {K V : Type} (same : K -> K -> bool) `{!KeyEquivalence same}
    (m : list (K * V)) (k : K) (v : V) :
  distinctKeys same m -> In (k, v) m -> JSMap.get same m k = Some v.
Proof.
  induction 1 as [|[k' v'] rest Hfirst Hrest IH]; cbn; [tauto|].
  intros [[= -> ->]|Hin].
  - now rewrite same_refl.
  - rewrite Forall_forall in Hfirst. specialize (Hfirst _ Hin). cbn in Hfirst.
    rewrite Hfirst. auto.
Qed.

(** A dataset in which every key occurs at most once has distinct rows. *)
Lemma distinctRows_count (pk : string) (data : BarrelData) :
  (forall k, (List.length (filter (hasKey pk k) data) <= 1)%nat) ->
  distinctRows pk data.
Proof.
  unfold distinctRows.
  induction data as [|a rest IH]; intros H; constructor.
  - apply Forall_forall. intros b Hb k Hk.
    specialize (H k). cbn in H. rewrite (hasKey_rowKey pk k a Hk) in H.
    destruct (hasKey pk k b) eqn:E; auto. exfalso.
    assert (In b (filter (hasKey pk k) rest)) by (apply filter_In; auto).
    destruct (filter (hasKey pk k) rest); [contradiction|cbn in H; lia].
  - apply IH. intros k. specialize (H k). cbn in H.
    destruct (hasKey pk k a); cbn in H; lia.
Qed.

Lemma mergedDataMap_pageRows (pk : string) (existingData newData : BarrelData) :
  Forall (pageRow pk) existingData -> Forall (pageRow pk) newData ->
  Forall (pageRow pk) (JSMap.values (mergedDataMap pk existingData newData)).
Proof.
  intros He Hn. unfold JSMap.values. rewrite Forall_map. unfold mergedDataMap.
  apply (mergeNewRows_property (pageRow pk) (pageRow_merge pk)); auto.
  apply (populates_property (pageRow pk)); auto.
Qed.

Lemma lastWithKey_In (pk : string) (k : CellValue) (data : BarrelData) (row : TableRow) :
  lastWithKey pk k data = Some row -> In row data.
Proof. unfold lastWithKey. intros H. apply find_some in H. apply in_rev. tauto. Qed.

(** The row that the map stores under a key absorbs the rows of that key
    of the batch that produced it. *)
Lemma stored_row_absorbs (pk : string) (existingData newData : BarrelData)
    (k : CellValue) (row : TableRow) :
  Forall (pageRow pk) existingData -> Forall (pageRow pk) newData ->
  JSMap.get sameValueZero (mergedDataMap pk existingData newData) k = Some row ->
  fold_left mergeRow (rowsOfKey pk k newData) row = row.
Proof.
  intros He Hn. unfold mergedDataMap. rewrite mergeNewRows_get, populates_get.
  assert (Hnd : forall n, In n (rowsOfKey pk k newData) -> NoDup (Obj.keys n)).
  { intros n Hin. apply filter_In in Hin. destruct Hin as [Hin _].
    rewrite Forall_forall in Hn. now apply Hn. }
  destruct (lastWithKey pk k existingData) as [e|] eqn:El.
  - intros [= <-]. apply mergeRows_absorb; auto.
    apply lastWithKey_In in El. rewrite Forall_forall in He. now apply He.
  - cbn. destruct (rowsOfKey pk k newData) as [|first others]; [discriminate|].
    intros [= <-]. apply mergeRows_absorb_first.
    + apply Hnd. now left.
    + intros n Hin. apply Hnd. now right.
Qed.

(** X17: confirming the same page twice changes nothing more: on the
    merging path, when every row of both inputs is laid out with the key
    column first and no column twice, every key is a number and the first
    merge leaves at least one row, merging the same batch into the result of
    the merge gives that result again. *)
Theorem merge_absorbs (existingData newData : BarrelData) (pk : string) :
  primaryKeyOf existingData = Some pk ->
  validData existingData -> validData newData ->
  (forall row, In row (existingData ++ newData) -> rowKey pk row <> None ->
               numericKey pk row) ->
  Forall (pageRow pk) existingData -> Forall (pageRow pk) newData ->
  mergeBarrelData existingData newData <> [] ->
  mergeBarrelData (mergeBarrelData existingData newData) newData =
  mergeBarrelData existingData newData.
Proof.
  intros Hpk Ve Vn Hnum Pe Pn Hne.
  destruct newData as [|n0 rest0] eqn:EN; [reflexivity|].
  rewrite <- EN in *. assert (Hn : newData <> []) by (rewrite EN; discriminate).
  clear EN n0 rest0.
  set (M := mergedDataMap pk existingData newData).
  assert (HR : mergeBarrelData existingData newData =
               sort (compareRows pk) (JSMap.values M))
    by now apply mergeBarrelData_main.
  pose proof (mergeBarrelData_perm _ _ _ Hn Hpk) as Hperm. fold M in Hperm.
  pose proof (mergedDataMap_inv pk existingData newData) as Hinv. fold M in Hinv.
  set (R := mergeBarrelData existingData newData) in *.
  assert (Hkeyed : Forall (fun row => rowKey pk row <> None) R).
  { eapply Permutation_Forall; [symmetry; exact Hperm|]. apply merged_rows_have_key. }
  assert (Hord : Forall (orderedKey pk) (JSMap.values M)).
  { apply mergedDataMap_rows.
    - intros a b H. unfold orderedKey, numericKey. now rewrite (keyNumber_ext _ _ _ H).
    - apply orderedKey_sources; auto. apply Forall_app. split; assumption. }
  assert (Hpage : Forall (pageRow pk) R).
  { eapply Permutation_Forall; [symmetry; exact Hperm|].
    now apply mergedDataMap_pageRows. }
  assert (Hsorted : StronglySorted (fun a b => comes_after (compareRows pk) a b = false) R).
  { rewrite HR. apply (sort_sorted (compareRows pk) (orderedKey pk)).
    - intros a b Pa Pb. rewrite !compareRows_after by auto. apply JSFacts.ltb_asym.
    - intros a b c Pa Pb Pc. rewrite !compareRows_after by auto.
      intros Hab Hbc. exact (keyLe_trans pk a b c Pb Hab Hbc).
    - exact Hord. }
  assert (Hcount : forall k, (List.length (filter (hasKey pk k) R) <= 1)%nat).
  { intros k. rewrite (filter_length_perm _ _ _ Hperm).
    rewrite stored_row_count by exact Hinv. destruct (JSMap.has _ _ _); lia. }
  pose proof (distinctRows_count pk R Hcount) as Hdistinct.
  assert (HpkR : primaryKeyOf R = Some pk).
  { destruct R as [|first rest] eqn:ER; [congruence|].
    inversion Hpage as [|? ? [Hhd _] _]; subst.
    unfold primaryKeyOf. destruct (Obj.keys first) as [|k ks]; [discriminate|].
    injection Hhd as ->.
    unfold primaryKeyOf in Hpk. destruct existingData as [|f r]; [discriminate|].
    destruct (Obj.keys f) as [|k ks']; [discriminate|].
    destruct (String.eqb k "") eqn:Ek; [discriminate|].
    injection Hpk as <-. now rewrite Ek. }
  rewrite (mergeBarrelData_main R newData pk Hn HpkR).
  unfold mergedDataMap at 1.
  rewrite (populate_fresh pk R Hkeyed Hdistinct []) by (intros; reflexivity).
  cbn [app].
  set (m0 := map (entryOf pk) R).
  assert (Hm0 : mapInv pk m0).
  { unfold m0. replace (map (entryOf pk) R) with (fold_left (populate pk) R []).
    - apply (steps_inv pk (populate pk)); auto. split; constructor.
    - now rewrite (populate_fresh pk R Hkeyed Hdistinct []) by (intros; reflexivity). }
  assert (Hget0 : forall row k, In row R -> rowKey pk row = Some k ->
                                JSMap.get sameValueZero m0 k = Some row)
    by (intros row k; now apply entries_get).
  assert (Hstored : forall row k, In row R -> rowKey pk row = Some k ->
                                  JSMap.get sameValueZero M k = Some row).
  { intros row k Hin Hk.
    apply (Permutation_in _ Hperm) in Hin. unfold JSMap.values in Hin.
    apply in_map_iff in Hin. destruct Hin as ([k' r] & Hr & Hin). cbn in Hr. subst r.
    destruct Hinv as [Hd Hkeys]. rewrite Forall_forall in Hkeys.
    pose proof (Hkeys _ Hin) as Hk'. cbn in Hk'. unfold hasKey in Hk'. rewrite Hk in Hk'.
    rewrite (get_congr sameValueZero M k k' Hk').
    now apply (In_get sameValueZero). }
  assert (Hsame : fold_left (mergeNewRow pk) newData m0 = m0).
  { symmetry. apply (map_ext_keys sameValueZero).
    - exact (proj1 Hm0).
    - symmetry. apply mergeNewRows_keys_present.
      intros n key Hin Hk.
      assert (Hhas : JSMap.has sameValueZero M key = true).
      { unfold M. rewrite mergedDataMap_has. apply existsb_exists.
        exists n. split; [apply in_or_app; now right | now apply hasKey_rowKey]. }
      unfold JSMap.has in Hhas.
      destruct (JSMap.get sameValueZero M key) as [row|] eqn:Eg; [|discriminate].
      destruct (stored_row_output existingData newData pk key row Hn Hpk Eg)
        as [HinR Hkey].
      fold R in HinR. unfold hasKey in Hkey.
      destruct (rowKey pk row) as [kr|] eqn:Er; [|discriminate].
      unfold JSMap.has.
      rewrite <- (get_congr sameValueZero m0 kr key Hkey).
      now rewrite (Hget0 row kr HinR Er).
    - intros k Hin. unfold m0 in Hin. rewrite map_map in Hin.
      apply in_map_iff in Hin. destruct Hin as (row & Hk & HinR).
      unfold entryOf in Hk. cbn in Hk.
      rewrite Forall_forall in Hkeyed. pose proof (Hkeyed row HinR) as Hrk.
      destruct (rowKey pk row) as [kr|] eqn:Er; [|congruence]. subst kr.
      rewrite mergeNewRows_get, (Hget0 row k HinR Er).
      f_equal. symmetry.
      apply (stored_row_absorbs pk existingData newData); auto. }
  rewrite Hsame. unfold JSMap.values, m0. rewrite map_map. cbn. rewrite map_id.
  now apply sort_id.
Qed.

Lemma merge_absorbs_witness :
  mergeBarrelData (mergeBarrelData table_20_30 table_20_21) table_20_21 =
  mergeBarrelData table_20_30 table_20_21.
Proof.
  apply (merge_absorbs table_20_30 table_20_21 "Mouille").
  - reflexivity.
  - repeat constructor.
  - repeat constructor; apply JSFacts.stringToNumber_valid.
  - intros row [<-|[<-|[<-|[<-|[]]]]] _; vm_compute; reflexivity.
  - repeat constructor; cbn; intuition discriminate.
  - repeat constructor; cbn; intuition discriminate.
  - vm_compute. discriminate.
Defined.

(** ** The row reconciler: rows of equal keys *)

Lemma insert_back_stable {A : Type} (comparator : A -> A -> JS.number)
    (f : A -> bool) (x : A) (l : list A) :
  (forall y, In y l -> f x = true -> f y = true -> comes_after comparator y x = false) ->
  filter f (insert_back comparator x l) = filter f (x :: l).
Proof.
  induction l as [|y rest IH]; intros Hf; cbn [insert_back]; auto.
  destruct (comes_after comparator y x) eqn:E; auto.
  cbn [filter] in *. rewrite IH by (intros z Hz; apply Hf; now right).
  destruct (f x) eqn:Ex; auto.
  destruct (f y) eqn:Ey; auto.
  rewrite (Hf y (or_introl eq_refl) eq_refl Ey) in E. discriminate.
Qed.

(** The sort is stable: elements that the comparator does not order
    keep their order. *)
Lemma sort_stable {A : Type} (comparator : A -> A -> JS.number) (P : A -> Prop)
    (f : A -> bool) (l : list A) :
  (forall x y, P x -> P y -> f x = true -> f y = true ->
               comes_after comparator y x = false) ->
  Forall P l ->
  filter f (sort comparator l) = filter f l.
Proof.
  intros Hf Hl. unfold sort.
  assert (H : forall acc, Forall P acc ->
            filter f (fold_left (fun prefix x => insert_back comparator x prefix) l acc)
            = filter f (rev l ++ acc)).
  { induction Hl as [|x l Hx Hl IH]; intros acc Hacc; cbn [fold_left rev]; auto.
    rewrite IH by (apply insert_back_Forall; auto).
    rewrite <- app_assoc. cbn [app].
    rewrite !filter_app, insert_back_stable; auto.
    intros y Hy. rewrite Forall_forall in Hacc. auto. }
  now rewrite filter_rev, H, app_nil_r, filter_rev, rev_involutive.
Qed.

Lemma ltb_same (x y : JS.number) :
  JS.num_sameValueZero x y = true -> JS.ltb x y = false.
Proof.
  intros H.
  assert (Hr : forall z, JS.ltb z z = false).
  { intros z. destruct (JS.ltb z z) eqn:E; auto.
    pose proof (JSFacts.ltb_asym z z E). congruence. }
  destruct x as [sx|sx| |sx mx ex], y as [sy|sy| |sy my ey]; cbn in H; try discriminate.
  - destruct sx, sy; reflexivity.
  - apply Bool.eqb_prop in H. subst. apply Hr.
  - reflexivity.
  - apply andb_prop in H. destruct H as [H He]. apply andb_prop in H.
    destruct H as [Hs Hm].
    apply Bool.eqb_prop in Hs. apply Pos.eqb_eq in Hm. apply Z.eqb_eq in He. subst.
    apply Hr.
Qed.

Lemma sameValueZero_number (x y : JS.number) :
  JS.num_sameValueZero x y = true -> JS.isNaN y = false -> JS.isNaN x = false.
Proof. destruct x, y; cbn; auto; discriminate. Qed.

(** X18: the sort is stable on equal keys: on the merging path, when
    the key column is not named like a member of [Object.prototype] and
    every key of the inputs coerces to a number (the comparator is then a
    consistent ordering), the output rows whose key coerces to a given
    number are in the order in which the map holds them: rows whose keys are
    equal as numbers, such as 25 and the text 25, stay in the order of their
    first insertion, existing rows before new ones. *)
Theorem merge_stable (existingData newData : BarrelData) (pk : string) (x : JS.number) :
  newData <> [] -> primaryKeyOf existingData = Some pk ->
  Obj.inherited pk = false ->
  validData existingData -> validData newData ->
  (forall row, In row (existingData ++ newData) -> rowKey pk row <> None ->
     numericKey pk row) ->
  JS.isNaN x = false ->
  filter (keyIs pk x) (mergeBarrelData existingData newData) =
  filter (keyIs pk x) (JSMap.values (mergedDataMap pk existingData newData)).
Proof.
  intros Hn Hpk _ Ve Vn _ Hx.
  rewrite (mergeBarrelData_main _ _ pk) by auto.
  apply (sort_stable (compareRows pk) (fun row => JS.valid (keyNumber pk row))).
  - intros a b Va Vb Ha Hb. unfold keyIs in Ha, Hb.
    pose proof (sameValueZero_number _ _ Ha Hx) as Na.
    pose proof (sameValueZero_number _ _ Hb Hx) as Nb.
    unfold comes_after, compareRows. rewrite Na, Nb. cbn [orb].
    rewrite JSFacts.sub_positive by auto.
    apply ltb_same. rewrite (num_sameValueZero_sym (keyNumber pk b) x) in Hb.
    exact (num_sameValueZero_trans _ _ _ Ha Hb).
  - apply mergedDataMap_rows.
    + intros a b H. now rewrite (keyNumber_ext _ _ _ H).
    + intros row Hin _. apply keyNumber_valid.
      assert (Hv : validData (existingData ++ newData)) by (apply Forall_app; now split).
      unfold validData in Hv. rewrite Forall_forall in Hv. auto.
Qed.

Lemma merge_stable_witness :
  filter (keyIs "h" (JS.of_Z 25))
    (mergeBarrelData [[("h", num 30)]; [("h", text "25"); ("v", num 1)]]
       [[("h", num 25); ("v", num 2)]])
  = [[("h", text "25"); ("v", num 1)]; [("h", num 25); ("v", num 2)]].
Proof.
  rewrite (merge_stable [[("h", num 30)]; [("h", text "25"); ("v", num 1)]]
             [[("h", num 25); ("v", num 2)]] "h" (JS.of_Z 25)).
  - vm_compute; reflexivity.
  - discriminate.
  - reflexivity.
  - reflexivity.
  - repeat constructor.
  - repeat constructor.
  - intros row [<-|[<-|[<-|[]]]] _; vm_compute; reflexivity.
  - reflexivity.
Defined.

(** ** The editable table *)

(** X19: what an edit stores: the cell that [handleSave] hands to
    [onSave] has confidence [user]; its value is the number that [Number]
    reads from the input when that is not NaN, and the input as a text,
    [String(currentValue)], otherwise: a typed text that is not a number is
    stored as it was typed; the value is never null; numeric coercion reads
    from it what it reads from the input; and it differs from the value the
    cell had. *)
Theorem handleSave_value (cellData newCellData : CellData) (currentValue : CellValue) :
  handleSave cellData currentValue = Some newCellData ->
  confidence newCellData = user
  /\ value newCellData =
     (if JS.isNaN (Number currentValue) then VStr (ToString currentValue)
      else VNum (Number currentValue))
  /\ (forall typed, currentValue = VStr typed ->
        JS.isNaN (JS.stringToNumber typed) = true -> value newCellData = VStr typed)
  /\ (forall typed, currentValue = VStr typed ->
        JS.isNaN (JS.stringToNumber typed) = false ->
        value newCellData = VNum (JS.stringToNumber typed))
  /\ value newCellData <> VNull
  /\ Number (value newCellData) = Number currentValue
  /\ value newCellData <> value cellData
  /\ match value newCellData with
     | VNum n => JS.isNaN n = false
     | VStr s => JS.isNaN (JS.stringToNumber s) = true
     | VNull => False
     end.
Proof.
  unfold handleSave.
  destruct (JS.isNaN (Number currentValue)) eqn:En;
    match goal with |- context [strictEquals ?a ?b] => destruct (strictEquals a b) eqn:Es end;
    try discriminate; intros [= <-]; cbn [value confidence].
  - assert (Hnum : Number (VStr (ToString currentValue)) = Number currentValue).
    { destruct currentValue as [n|s|]; cbn in *; auto; [|discriminate].
      destruct n; try discriminate. reflexivity. }
    split; [reflexivity|]. split; [reflexivity|].
    split; [now intros typed ->|].
    split; [intros typed -> H; cbn in En; congruence|].
    repeat split; auto; try discriminate.
    + intros H. rewrite <- H in Es. cbn in Es. now rewrite String.eqb_refl in Es.
    + cbn in Hnum. cbn. now rewrite Hnum.
  - split; [reflexivity|]. split; [reflexivity|].
    split; [intros typed -> H; cbn in En; congruence|].
    split; [now intros typed ->|].
    repeat split; auto; try discriminate.
    intros H. rewrite <- H in Es. cbn in Es.
    now rewrite En, num_sameValueZero_refl in Es.
Qed.

Lemma handleSave_value_witness :
  Number (VNum (JS.stringToNumber "221.5")) = Number (VStr " 221.5 ")
  /\ confidence (mkCell (VNum (JS.stringToNumber "221.5")) user) = user.
Proof.
  destruct (handleSave_value (num 220) (mkCell (VNum (JS.stringToNumber "221.5")) user)
              (VStr " 221.5 ") ltac:(vm_compute; reflexivity))
    as (Hc & _ & _ & _ & _ & Hn & _).
  split; [exact Hn | exact Hc].
Defined.

(** X20: leaving a cell without typing: [handleSave] on the value the
    cell already has saves nothing exactly when that value is a number
    other than NaN or a text that [Number] does not read as a number; a null
    cell is saved as the number 0, and a text that reads as a number is saved
    as that number, both with confidence [user]. *)
Theorem handleSave_untouched (cellData : CellData) :
  (handleSave cellData (value cellData) = None <->
   match value cellData with
   | VNum n => JS.isNaN n = false
   | VStr s => JS.isNaN (JS.stringToNumber s) = true
   | VNull => False
   end)
  /\ (value cellData = VNull ->
      handleSave cellData (value cellData) = Some (mkCell (VNum JS.pzero) user))
  /\ (forall s, value cellData = VStr s -> JS.isNaN (JS.stringToNumber s) = false ->
      handleSave cellData (value cellData) = Some (mkCell (VNum (JS.stringToNumber s)) user)).
Proof.
  unfold handleSave. destruct (value cellData) as [n|s|]; cbn [Number ToString].
  - split; [|split; [discriminate|discriminate]].
    destruct (JS.isNaN n) eqn:En.
    + destruct n; try discriminate. cbn. split; discriminate.
    + cbn [strictEquals]. rewrite En, num_sameValueZero_refl. cbn. tauto.
  - split; [|split; [discriminate|]].
    + destruct (JS.isNaN (JS.stringToNumber s)).
      * cbn [strictEquals]. rewrite String.eqb_refl. tauto.
      * cbn. split; discriminate.
    + intros s' [= <-] ->. reflexivity.
  - split; [|split; [reflexivity|discriminate]].
    cbn. split; [discriminate|tauto].
Qed.

Lemma handleSave_untouched_witness :
  handleSave (text "25") (VStr "25") = Some (mkCell (VNum (JS.stringToNumber "25")) user).
Proof.
  apply (proj2 (proj2 (handleSave_untouched (text "25"))) "25"%string).
  - reflexivity.
  - vm_compute; reflexivity.
Defined.

Lemma map_indexed_nth {A B : Type} (f : A -> nat -> B) (l : list A) :
  forall start j,
  nth_error (map_indexed f start l) j =
  option_map (fun x => f x (start + j)%nat) (nth_error l j).
Proof.
  induction l as [|x rest IH]; intros start j; cbn.
  - now destruct j.
  - destruct j as [|j]; cbn.
    + now rewrite Nat.add_0_r.
    + rewrite IH. now rewrite Nat.add_succ_r.
Qed.

Lemma map_indexed_length {A B : Type} (f : A -> nat -> B) (l : list A) :
  forall start, List.length (map_indexed f start l) = List.length l.
Proof. induction l as [|x rest IH]; intros start; cbn; auto. Qed.

Lemma map_indexed_id {A : Type} (f : A -> nat -> A) (l : list A) :
  forall start,
  (forall j x, nth_error l j = Some x -> f x (start + j)%nat = x) ->
  map_indexed f start l = l.
Proof.
  induction l as [|x rest IH]; intros start H; cbn; auto. f_equal.
  - specialize (H 0%nat x eq_refl). now rewrite Nat.add_0_r in H.
  - apply IH. intros j y Hy. specialize (H (S j) y Hy).
    now rewrite Nat.add_succ_r in H.
Qed.

Lemma map_indexed_app {A B : Type} (f : A -> nat -> B) (l l' : list A) :
  forall start,
  map_indexed f start (l ++ l') =
  map_indexed f start l ++ map_indexed f (start + List.length l) l'.
Proof.
  induction l as [|x rest IH]; intros start; cbn.
  - now rewrite Nat.add_0_r.
  - rewrite IH. now rewrite Nat.add_succ_r.
Qed.

Lemma handleCellSave_nth (data : BarrelData) (rowIndex : nat) (header : string)
    (newCellData : CellData) (j : nat) :
  nth_error (handleCellSave data rowIndex header newCellData) j =
  option_map (fun row => if Nat.eqb j rowIndex then Obj.set row header newCellData else row)
    (nth_error data j).
Proof. unfold handleCellSave. now rewrite map_indexed_nth. Qed.

(** X21: what a saved cell changes: [handleCellSave] keeps the number of
    rows and every row but the one at [rowIndex]; in that row the column
    [header] holds the new cell and every other column is as it was; the
    columns keep their order when the row had the column; a column that the
    row did not have is added last, when its name is not an integer name;
    and an index past the end changes nothing. *)
Theorem handleCellSave_spec (data : BarrelData) (rowIndex : nat) (header : string)
    (newCellData : CellData) :
  List.length (handleCellSave data rowIndex header newCellData) = List.length data
  /\ (forall j, j <> rowIndex ->
        nth_error (handleCellSave data rowIndex header newCellData) j = nth_error data j)
  /\ (forall row, nth_error data rowIndex = Some row ->
        exists saved,
          nth_error (handleCellSave data rowIndex header newCellData) rowIndex = Some saved
          /\ (forall column,
                Obj.get saved column =
                if String.eqb column header then Some newCellData else Obj.get row column)
          /\ (existsb (String.eqb header) (Obj.keys row) = true ->
              Obj.keys saved = Obj.keys row)
          /\ (existsb (String.eqb header) (Obj.keys row) = false ->
              Obj.integer_name header = false ->
              Obj.keys saved = Obj.keys row ++ [header]))
  /\ ((List.length data <= rowIndex)%nat ->
      handleCellSave data rowIndex header newCellData = data).
Proof.
  split; [|split; [|split]].
  - apply map_indexed_length.
  - intros j Hj. rewrite handleCellSave_nth.
    apply Nat.eqb_neq in Hj. rewrite Hj. now destruct (nth_error data j).
  - intros row Hrow. exists (Obj.set row header newCellData). split; [|split; [|split]].
    + now rewrite handleCellSave_nth, Hrow, Nat.eqb_refl.
    + intros column. destruct (String.eqb column header) eqn:E.
      * apply String.eqb_eq in E. subst column. apply Obj_get_set_same.
      * apply String.eqb_neq in E. apply Obj_get_set_other. congruence.
    + intros H. now rewrite Obj_keys_set, H.
    + intros H _. now rewrite Obj_keys_set, H.
  - intros Hlen. unfold handleCellSave. apply map_indexed_id.
    intros j x Hx. cbn.
    assert (j < List.length data)%nat by (apply nth_error_Some; congruence).
    assert (Hne : Nat.eqb j rowIndex = false) by (apply Nat.eqb_neq; lia).
    now rewrite Hne.
Qed.

Lemma handleCellSave_spec_witness :
  handleCellSave table_20_30 2 "Volume" (num 1) = table_20_30
  /\ exists saved,
       nth_error (handleCellSave table_20_30 0 "Note" (text "checked")) 0 = Some saved
       /\ Obj.keys saved = ["Mouille"; "Volume"; "Note"].
Proof.
  split.
  - apply (proj2 (proj2 (proj2 (handleCellSave_spec table_20_30 2 "Volume" (num 1))))).
    cbn. lia.
  - destruct (proj1 (proj2 (proj2 (handleCellSave_spec table_20_30 0 "Note"
                                     (text "checked"))))
                [("Mouille", num 20); ("Volume", num 200)] eq_refl)
      as (saved & Hnth & _ & _ & Hnew).
    exists saved. split; [exact Hnth | exact (Hnew eq_refl eq_refl)].
Defined.

Lemma handleCellSave_split (before after : BarrelData) (row : TableRow)
    (header : string) (newCellData : CellData) :
  handleCellSave (before ++ row :: after) (List.length before) header newCellData =
  before ++ Obj.set row header newCellData :: after.
Proof.
  unfold handleCellSave. rewrite map_indexed_app. cbn [map_indexed Nat.add].
  rewrite Nat.eqb_refl. f_equal; [|f_equal].
  - apply map_indexed_id. intros j x Hx. cbn.
    assert (j < List.length before)%nat by (apply nth_error_Some; congruence).
    assert (Hne : Nat.eqb j (List.length before) = false) by (apply Nat.eqb_neq; lia).
    now rewrite Hne.
  - apply map_indexed_id. intros j x Hx.
    assert (Hne : Nat.eqb (S (List.length before) + j) (List.length before) = false)
      by (apply Nat.eqb_neq; lia).
    now rewrite Hne.
Qed.

Lemma rowAt_last (hk : string) (x : JS.number) (before after : BarrelData)
    (row : TableRow) :
  registersAt hk x row = true ->
  Forall (fun later => registersAt hk x later = false) after ->
  rowAt hk (before ++ row :: after) x = Some row.
Proof.
  intros Hrow Hafter. unfold rowAt.
  rewrite rev_app_distr. cbn [rev]. rewrite <- app_assoc, find_app.
  assert (Hnone : find (registersAt hk x) (rev after) = None).
  { destruct (find (registersAt hk x) (rev after)) as [r|] eqn:E; auto.
    apply find_some in E. destruct E as [Hin Hr].
    rewrite Forall_forall in Hafter. rewrite (Hafter r) in Hr; [discriminate|].
    now apply in_rev. }
  rewrite Hnone. cbn. now rewrite Hrow.
Qed.

(** X22: a correction made in the table is what the calculator then
    returns: after [handleCellSave] has put a new cell in the selected
    volume column of the row registered at a height, a row that no later row
    shadows, the query at that height returns the value of the new cell with
    status [exact]. *)
Theorem edit_then_calculate (barrelData : BarrelData) (rowIndex : nat)
    (hk target wetHeight : string) (row : TableRow) (newCellData : CellData) :
  heightKeyOf barrelData = Some hk -> hk <> "" -> target <> "" -> target <> hk ->
  hasColumn hk barrelData -> hasColumn target barrelData ->
  nth_error barrelData rowIndex = Some row ->
  registersAt hk (JS.parseFloat wetHeight) row = true ->
  (forall j later, (rowIndex < j)%nat -> nth_error barrelData j = Some later ->
                   registersAt hk (JS.parseFloat wetHeight) later = false) ->
  handleCalculate (handleCellSave barrelData rowIndex target newCellData) target wetHeight
  = Some (mkDisplay exact (value newCellData) (Some "Exact value found in table."%string)).
Proof.
  intros Hk Hhk Ht Hne Hcol Htcol Hrow Hreg Hlater.
  destruct (nth_error_split _ _ Hrow) as (before & after & -> & <-).
  rewrite handleCellSave_split.
  set (saved := Obj.set row target newCellData).
  assert (Hsaved : Obj.get saved hk = Obj.get row hk)
    by (apply Obj_get_set_other; exact Hne).
  assert (Hafter : Forall (fun later => registersAt hk (JS.parseFloat wetHeight) later = false)
                     after).
  { apply Forall_forall. intros later Hin.
    destruct (In_nth_error _ _ Hin) as (j & Hj).
    apply (Hlater (S (List.length before) + j)%nat); [lia|].
    rewrite nth_error_app2 by lia.
    replace (S (List.length before) + j - List.length before)%nat with (S j) by lia.
    exact Hj. }
  assert (Hrows : rowAt hk (before ++ saved :: after) (JS.parseFloat wetHeight) = Some saved).
  { apply rowAt_last; auto. now rewrite (registersAt_ext hk _ saved row). }
  unfold hasColumn in Hcol, Htcol. rewrite Forall_app in Hcol, Htcol.
  destruct Hcol as [Hcb Hca]. destruct Htcol as [Htb Hta].
  inversion Hca as [|? ? Hcr Hca']; subst. inversion Hta as [|? ? Htr Hta']; subst.
  assert (Hkeys : Obj.keys saved = Obj.keys row).
  { unfold saved. rewrite Obj_keys_set. now rewrite Obj_has_key. }
  destruct (handleCalculate_guards (before ++ saved :: after) target wetHeight hk)
    as (map & Hmap & ->); auto.
  - destruct before as [|first rest]; cbn in *; [now rewrite Hkeys|exact Hk].
  - unfold hasColumn. rewrite Forall_app. split; auto. constructor; auto. congruence.
  - eexists. rewrite Hrows. discriminate.
  - now apply registersAt_number in Hreg.
  - unfold lookupVolume. rewrite Hmap, Hrows. unfold cellValue, saved.
    now rewrite Obj_get_set_same.
Qed.

Lemma edit_then_calculate_witness :
  handleCalculate (handleCellSave table_20_30 1 "Volume" (mkCell (VNum (JS.of_Z 310)) user))
    "Volume" "30"
  = Some (mkDisplay exact (VNum (JS.of_Z 310)) (Some "Exact value found in table."%string)).
Proof.
  apply (edit_then_calculate table_20_30 1 "Mouille" "Volume" "30"
           [("Mouille", num 30); ("Volume", num 300)] (mkCell (VNum (JS.of_Z 310)) user)).
  - reflexivity.
  - discriminate.
  - discriminate.
  - discriminate.
  - repeat constructor; discriminate.
  - repeat constructor; discriminate.
  - reflexivity.
  - vm_compute; reflexivity.
  - intros [|[|[|j]]] later Hj; try lia; discriminate.
Defined.

(** X23: a corrected height moves the row: after [handleCellSave] has
    put a new cell in the height column of a row, a cell that [Number] reads
    as the query height, and when no later row is registered at that height,
    the query returns the cell of the selected column of that row with
    status [exact]. *)
Theorem edit_height_then_calculate (barrelData : BarrelData) (rowIndex : nat)
    (hk target wetHeight : string) (row : TableRow) (newCellData : CellData)
    (v : CellValue) :
  heightKeyOf barrelData = Some hk -> hk <> "" -> target <> "" -> target <> hk ->
  hasColumn hk barrelData ->
  nth_error barrelData rowIndex = Some row ->
  cellValue row target = Some v ->
  JS.isNaN (Number (value newCellData)) = false ->
  JS.num_sameValueZero (Number (value newCellData)) (JS.parseFloat wetHeight) = true ->
  (forall j later, (rowIndex < j)%nat -> nth_error barrelData j = Some later ->
                   registersAt hk (JS.parseFloat wetHeight) later = false) ->
  handleCalculate (handleCellSave barrelData rowIndex hk newCellData) target wetHeight
  = Some (mkDisplay exact v (Some "Exact value found in table."%string)).
Proof.
  intros Hk Hhk Ht Hne Hcol Hrow Hv Hnum Hsame Hlater.
  destruct (nth_error_split _ _ Hrow) as (before & after & -> & <-).
  rewrite handleCellSave_split.
  set (saved := Obj.set row hk newCellData).
  assert (Hsaved : Obj.get saved hk = Some newCellData) by apply Obj_get_set_same.
  assert (Hreg : registersAt hk (JS.parseFloat wetHeight) saved = true).
  { unfold registersAt. now rewrite Hsaved, Hnum, Hsame. }
  assert (Hafter : Forall (fun later => registersAt hk (JS.parseFloat wetHeight) later = false)
                     after).
  { apply Forall_forall. intros later Hin.
    destruct (In_nth_error _ _ Hin) as (j & Hj).
    apply (Hlater (S (List.length before) + j)%nat); [lia|].
    rewrite nth_error_app2 by lia.
    replace (S (List.length before) + j - List.length before)%nat with (S j) by lia.
    exact Hj. }
  assert (Hrows : rowAt hk (before ++ saved :: after) (JS.parseFloat wetHeight) = Some saved)
    by now apply rowAt_last.
  unfold hasColumn in Hcol. rewrite Forall_app in Hcol.
  destruct Hcol as [Hcb Hca]. inversion Hca as [|? ? Hcr Hca']; subst.
  assert (Hkeys : Obj.keys saved = Obj.keys row).
  { unfold saved. rewrite Obj_keys_set. now rewrite Obj_has_key. }
  destruct (handleCalculate_guards (before ++ saved :: after) target wetHeight hk)
    as (map & Hmap & ->); auto.
  - destruct before as [|first rest]; cbn in *; [now rewrite Hkeys|exact Hk].
  - unfold hasColumn. rewrite Forall_app. split; auto. constructor; auto. congruence.
  - eexists. rewrite Hrows. discriminate.
  - now apply registersAt_number in Hreg.
  - unfold lookupVolume. rewrite Hmap, Hrows. unfold cellValue in *. unfold saved.
    rewrite Obj_get_set_other by congruence.
    destruct (Obj.get row target); [|discriminate]. now inversion Hv.
Qed.

Lemma edit_height_then_calculate_witness :
  handleCalculate (handleCellSave table_20_30 1 "Mouille" (mkCell (VStr "25.5") user))
    "Volume" "25.5"
  = Some (mkDisplay exact (VNum (JS.of_Z 300)) (Some "Exact value found in table."%string)).
Proof.
  apply (edit_height_then_calculate table_20_30 1 "Mouille" "Volume" "25.5"
           [("Mouille", num 30); ("Volume", num 300)] (mkCell (VStr "25.5") user)).
  - reflexivity.
  - discriminate.
  - discriminate.
  - discriminate.
  - repeat constructor; discriminate.
  - reflexivity.
  - reflexivity.
  - vm_compute; reflexivity.
  - vm_compute; reflexivity.
  - intros [|[|[|j]]] later Hj; try lia; discriminate.
Defined.

(** ** The reply of the AI service *)

Lemma append_length (s t : string) :
  String.length (s ++ t) = (String.length s + String.length t)%nat.
Proof. induction s as [|c r IH]; cbn; auto. Qed.

Lemma strip_closing_fence_app (body : string) :
  strip_closing_fence (body ++ "```") = body.
Proof.
  induction body as [|c r IH]; [reflexivity|].
  cbn [String.append strip_closing_fence]. rewrite IH.
  assert (H : String.eqb (String c (r ++ "```")) "```" = false).
  { apply String.eqb_neq. intros E. apply (f_equal String.length) in E.
    cbn in E. rewrite append_length in E. cbn in E. lia. }
  now rewrite H.
Qed.

Lemma strip_closing_fence_none (s : string) :
  ends_with s "```" = false -> strip_closing_fence s = s.
Proof.
  induction s as [|c r IH]; [reflexivity|].
  cbn [ends_with strip_closing_fence]. intros H. apply orb_false_iff in H.
  destruct H as [-> H]. now rewrite IH.
Qed.

(** X24: the fence around the reply: the sanitizer returns the body of a
    reply that is wrapped in a fence opened by three backquotes and the word
    json and closed by three backquotes, whether or not a line feed follows
    the opening fence (in the second case for a body that does not begin
    with a line feed); and it returns unchanged a reply that neither starts
    with the opening fence nor ends with three backquotes. *)
Theorem fence_removed (body : string) :
  sanitizedJsonText ("```json" ++ String LF body ++ "```") = body
  /\ ((forall rest, body <> String LF rest) ->
      sanitizedJsonText ("```json" ++ body ++ "```") = body)
  /\ (JS.strip_prefix "```json" body = None -> ends_with body "```" = false ->
      sanitizedJsonText body = body).
Proof.
  unfold sanitizedJsonText. split; [|split].
  - cbn. apply strip_closing_fence_app.
  - intros H. unfold strip_opening_fence. cbn.
    destruct body as [|c r]; [reflexivity|].
    cbn [String.append].
    assert (Hc : (JS.byte c =? 10) = false).
    { destruct (JS.byte c =? 10) eqn:E; auto. exfalso.
      apply Z.eqb_eq in E. unfold JS.byte in E.
      apply (H r). f_equal.
      rewrite <- (ascii_nat_embedding c).
      replace (nat_of_ascii c) with 10%nat by lia. reflexivity. }
    rewrite Hc. apply (strip_closing_fence_app (String c r)).
  - intros Hp He. unfold strip_opening_fence. rewrite Hp.
    now apply strip_closing_fence_none.
Qed.

Lemma fence_removed_witness :
  sanitizedJsonText "```json[1]```" = "[1]"%string
  /\ sanitizedJsonText "[1]" = "[1]"%string.
Proof.
  split.
  - apply (proj1 (proj2 (fence_removed "[1]"))). intros rest H. discriminate H.
  - apply (proj2 (proj2 (fence_removed "[1]"))); reflexivity.
Defined.
